(** * Plugin lifecycle manager: asset resolution, extraction pipeline and
      install/upgrade sequencing, embedded from the Go sources.

    The development follows the layout of the repository:
    - Go's [strings] and [path/filepath] helpers the code calls;
    - [FindAsset] (asset resolution);
    - a lexical model of the filesystem the manager works on;
    - [writePluginFiles], [processFile], [extractTar], [extractZip];
    - [Manager.Install], [Enable], [Disable], [List], [Upgrade]. *)

From Stdlib Require Import Ascii String.
From stdpp Require Import gmap strings list fin_maps sorting pretty.

Local Open Scope string_scope.

(* ===================================================================== *)
(** * Part I. Definitions                                                 *)
(* ===================================================================== *)

(** ** Go's [strings] package (byte strings) *)

(** [strings.HasPrefix(s, prefix)] *)
Fixpoint strings_HasPrefix (s p : string) {struct p} : bool :=
  match p with
  | EmptyString => true
  | String c p' =>
      match s with
      | EmptyString => false
      | String d s' => Ascii.eqb c d && strings_HasPrefix s' p'
      end
  end.

(** [strings.HasSuffix(s, suffix)]:
    [len(s) >= len(suffix) && s[len(s)-len(suffix):] == suffix] *)
Definition strings_HasSuffix (s suf : string) : bool :=
  (String.length suf <=? String.length s)%nat &&
  String.eqb
    (String.substring (String.length s - String.length suf) (String.length suf) s)
    suf.

(** [strings.Contains(s, substr)] *)
Fixpoint strings_Contains (s sub : string) : bool :=
  strings_HasPrefix s sub ||
  match s with
  | EmptyString => false
  | String _ s' => strings_Contains s' sub
  end.

(** ** Go's [path/filepath] package (Unix separator) *)

Definition Separator : ascii := "/"%char.

(** Components of a path: the pieces between separators. *)
Fixpoint split_sep (cur : string) (s : string) : list string :=
  match s with
  | EmptyString => [cur]
  | String c s' =>
      if Ascii.eqb c Separator
      then cur :: split_sep EmptyString s'
      else split_sep (cur +:+ String c EmptyString) s'
  end.

Fixpoint join_sep (cs : list string) : string :=
  match cs with
  | [] => EmptyString
  | [c] => c
  | c :: cs' => c +:+ "/" +:+ join_sep cs'
  end.

(** The lexical processing of [filepath.Clean]: empty and [.] elements are
    dropped, an inner [..] cancels the element before it, and a [..] that
    would climb above the root is dropped.  [out] is the output built so
    far, last element first. *)
Fixpoint clean_elems (rooted : bool) (out : list string) (cs : list string)
  : list string :=
  match cs with
  | [] => rev out
  | c :: cs' =>
      if String.eqb c "" || String.eqb c "." then clean_elems rooted out cs'
      else if String.eqb c ".." then
        match out with
        | top :: out' =>
            if String.eqb top ".."
            then clean_elems rooted (c :: out) cs'
            else clean_elems rooted out' cs'
        | [] =>
            if rooted then clean_elems rooted out cs'
            else clean_elems rooted (c :: out) cs'
        end
      else clean_elems rooted (c :: out) cs'
  end.

Definition is_rooted (s : string) : bool :=
  match s with
  | String c _ => Ascii.eqb c Separator
  | EmptyString => false
  end.

(** [filepath.Clean(path)] *)
Definition filepath_Clean (path : string) : string :=
  let rooted := is_rooted path in
  let body := join_sep (clean_elems rooted [] (split_sep EmptyString path)) in
  if rooted then "/" +:+ body
  else if String.eqb body "" then "." else body.

(** [filepath.Join(elem...)]: empty elements are ignored, the rest is joined
    with the separator and cleaned; the result is empty when every element
    is empty. *)
Definition filepath_Join (elems : list string) : string :=
  match List.filter (fun e => negb (String.eqb e "")) elems with
  | [] => EmptyString
  | es => filepath_Clean (join_sep es)
  end.

(** Index-free rendering of [path[:i]] for the last separator at [i]:
    the text before the last separator, when there is one. *)
Fixpoint before_last_sep (s : string) : option string :=
  match s with
  | EmptyString => None
  | String c s' =>
      match before_last_sep s' with
      | Some r => Some (String c r)
      | None => if Ascii.eqb c Separator then Some EmptyString else None
      end
  end.

(** [filepath.Dir(path)]: everything but the last element, cleaned. *)
Definition filepath_Dir (path : string) : string :=
  match before_last_sep path with
  | None => "."
  | Some d => if String.eqb d "" then "/" else filepath_Clean d
  end.

(** *** [filepath.Match]

    The code calls [matched, _ := filepath.Match(pattern, name)] and drops
    the error, so only the boolean is modelled: a malformed pattern never
    matches.  Patterns are sequences of literal bytes, [?], [*], bracket
    classes and backslash escapes; [*] and [?] never match a separator. *)

Inductive glob_tok : Type :=
  | GStar
  | GAny
  | GLit (c : ascii)
  | GClass (negated : bool) (ranges : list (ascii * ascii)).

Definition backslash : ascii := ascii_of_nat 92.

(** One possibly escaped byte of a class, as Go's [getEsc]. *)
Definition glob_getEsc (s : string) : option (ascii * string) :=
  match s with
  | EmptyString => None
  | String c s' =>
      if Ascii.eqb c "-" || Ascii.eqb c "]" then None
      else if Ascii.eqb c backslash then
        match s' with
        | EmptyString => None
        | String e s'' => Some (e, s'')
        end
      else Some (c, s')
  end.

(** The ranges of a bracket class up to the closing bracket. *)
Fixpoint glob_ranges (fuel : nat) (nrange : nat) (s : string)
  : option (list (ascii * ascii) * string) :=
  match fuel with
  | O => None
  | S fuel' =>
      match s with
      | EmptyString => None
      | String c s' =>
          if Ascii.eqb c "]" && negb (nrange =? 0)%nat then Some ([], s')
          else
            match glob_getEsc s with
            | None => None
            | Some (lo, rest) =>
                match rest with
                | String d rest' =>
                    if Ascii.eqb d "-" then
                      match glob_getEsc rest' with
                      | None => None
                      | Some (hi, rest'') =>
                          match glob_ranges fuel' (S nrange) rest'' with
                          | None => None
                          | Some (rs, tl) => Some ((lo, hi) :: rs, tl)
                          end
                      end
                    else
                      match glob_ranges fuel' (S nrange) rest with
                      | None => None
                      | Some (rs, tl) => Some ((lo, lo) :: rs, tl)
                      end
                | EmptyString => None
                end
            end
      end
  end.

Fixpoint glob_parse (fuel : nat) (p : string) : option (list glob_tok) :=
  match fuel with
  | O => None
  | S fuel' =>
      match p with
      | EmptyString => Some []
      | String c p' =>
          if Ascii.eqb c "*" then cons GStar <$> glob_parse fuel' p'
          else if Ascii.eqb c "?" then cons GAny <$> glob_parse fuel' p'
          else if Ascii.eqb c backslash then
            match p' with
            | EmptyString => None
            | String e p'' => cons (GLit e) <$> glob_parse fuel' p''
            end
          else if Ascii.eqb c "[" then
            let '(neg, body) :=
              match p' with
              | String n b => if Ascii.eqb n "^" then (true, b) else (false, p')
              | EmptyString => (false, p')
              end in
            match glob_ranges (S (String.length body)) 0 body with
            | None => None
            | Some (rs, tl) => cons (GClass neg rs) <$> glob_parse fuel' tl
            end
          else cons (GLit c) <$> glob_parse fuel' p'
      end
  end.

Definition ascii_le (a b : ascii) : bool := (nat_of_ascii a <=? nat_of_ascii b)%nat.

Definition glob_in_class (c : ascii) (rs : list (ascii * ascii)) : bool :=
  existsb (fun r => ascii_le (fst r) c && ascii_le c (snd r)) rs.

Fixpoint glob_match_toks (ts : list glob_tok) (s : string) : bool :=
  match ts with
  | [] => String.eqb s ""
  | GStar :: ts' =>
      (fix star (s : string) : bool :=
         glob_match_toks ts' s ||
         match s with
         | EmptyString => false
         | String c s' => negb (Ascii.eqb c Separator) && star s'
         end) s
  | GAny :: ts' =>
      match s with
      | EmptyString => false
      | String c s' => negb (Ascii.eqb c Separator) && glob_match_toks ts' s'
      end
  | GLit l :: ts' =>
      match s with
      | EmptyString => false
      | String c s' => Ascii.eqb l c && glob_match_toks ts' s'
      end
  | GClass neg rs :: ts' =>
      match s with
      | EmptyString => false
      | String c s' =>
          negb (Bool.eqb (glob_in_class c rs) neg) && glob_match_toks ts' s'
      end
  end.

Definition filepath_Match (pattern name : string) : bool :=
  match glob_parse (S (String.length pattern)) pattern with
  | None => false
  | Some ts => glob_match_toks ts name
  end.

(** ** Errors and results *)

Inductive errno : Type :=
  | ENOENT | ENOTDIR | EISDIR | EEXIST | ENOTEMPTY | EINVAL | EBUSY | EIO.

(** Go [error] values: the messages are those of the [fmt.Errorf] calls;
    [ErrWrap msg e] is [fmt.Errorf(msg + ": %w", e)]. *)
Inductive error : Type :=
  | ErrSys (e : errno)
  | ErrCanceled
  | ErrMsg (msg : string)
  | ErrWrap (msg : string) (cause : error).

(** The outcome of a call: a value, an error, or a run-time panic that
    unwinds through the deferred calls. *)
Inductive result (A : Type) : Type :=
  | Ok (a : A)
  | Err (e : error)
  | Panic.
Arguments Ok {A} a.
Arguments Err {A} e.
Arguments Panic {A}.

(** ** Asset resolution: [FindAsset] *)

Section FindAsset.
(** The boolean of [filepath.Match]. *)
Variable Match : string -> string -> bool.

(** The filter of the first loop: right prefix, no detached-signature
    suffix. *)
Definition asset_kept (name asset : string) : bool :=
  negb (negb (strings_HasPrefix asset name)
        || strings_HasSuffix asset ".sha256"
        || strings_HasSuffix asset ".asc"
        || strings_HasSuffix asset ".sig").

Fixpoint valid_assets (name : string) (assets : list string) : list string :=
  match assets with
  | [] => []
  | asset :: rest =>
      if asset_kept name asset
      then asset :: valid_assets name rest
      else valid_assets name rest
  end.

Definition asset_patterns (name version goos arch : string) : list string :=
  [ name +:+ "-" +:+ version +:+ "-" +:+ goos +:+ "-" +:+ arch;
    name +:+ "-" +:+ version;
    name ].

Definition asset_extensions : list string :=
  [""; ".exe"; ".zip"; ".tar.gz"; ".tgz"; ".wasm"].

Definition asset_runtime (ext : string) : string :=
  if strings_Contains ext "wasm" then "wasm" else "exec".

(** The innermost loop: the first asset matching [pattern+ext]. *)
Fixpoint scan_assets (pattern ext : string) (valid : list string)
  : option (string * string) :=
  match valid with
  | [] => None
  | asset :: rest =>
      if Match (pattern +:+ ext) asset
      then Some (asset, asset_runtime ext)
      else scan_assets pattern ext rest
  end.

Fixpoint scan_extensions (pattern : string) (exts valid : list string)
  : option (string * string) :=
  match exts with
  | [] => None
  | ext :: rest =>
      match scan_assets pattern ext valid with
      | Some r => Some r
      | None => scan_extensions pattern rest valid
      end
  end.

Fixpoint scan_patterns (patterns exts valid : list string)
  : option (string * string) :=
  match patterns with
  | [] => None
  | pattern :: rest =>
      match scan_extensions pattern exts valid with
      | Some r => Some r
      | None => scan_patterns rest exts valid
      end
  end.

Definition FindAsset (prefix name version goos arch : string)
    (getAssets : list string) : result (string * string) :=
  let validAssets := valid_assets name getAssets in
  if (length validAssets =? 0)%nat then
    Err (ErrMsg ("no valid assets found for " +:+ prefix +:+ "-" +:+ name))
  else
    match scan_patterns (asset_patterns name version goos arch)
                        asset_extensions validAssets with
    | Some r => Ok r
    | None => Err (ErrMsg "no matching assets found")
    end.

(** The search order as the specification words it: every (pattern,
    extension, candidate) triple, patterns outermost, candidates
    innermost, and the first triple that matches wins. *)
Definition search_triples (patterns exts valid : list string)
  : list (string * string * string) :=
  p ← patterns; e ← exts; a ← valid; [(p, e, a)].

Definition FindAsset_spec (prefix name version goos arch : string)
    (assets : list string) : result (string * string) :=
  let kept := List.filter (asset_kept name) assets in
  match kept with
  | [] => Err (ErrMsg ("no valid assets found for " +:+ prefix +:+ "-" +:+ name))
  | _ =>
      match List.find (fun t => Match (t.1.1 +:+ t.1.2) t.2)
              (search_triples (asset_patterns name version goos arch)
                              asset_extensions kept) with
      | Some t => Ok (t.2, asset_runtime t.1.2)
      | None => Err (ErrMsg "no matching assets found")
      end
  end.
End FindAsset.

(** ** The filesystem

    Byte sequences ([[]byte], file and stream contents) are Rocq strings,
    which are sequences of 8-bit characters like Go's.

    Files are named lexically: the tree is a finite map from path strings
    to nodes, and a path denotes the node stored under exactly that
    string.  There are no symbolic links and no working-directory
    resolution; the root ["/"] and the working directory ["."] always
    exist.  Every path the manager hands to the operating system comes out
    of [filepath.Join] (or is such a path with a suffix appended), so it is
    already in the canonical form the keys use. *)

Inductive node : Type :=
  | NFile (data : string) (perm : N)
  | NDir.

Definition perm_0755 : N := 493.
Definition perm_0644 : N := 420.

Definition is_implicit_dir (p : string) : bool :=
  String.eqb p "/" || String.eqb p ".".

Definition fs_stat (fs : gmap string node) (p : string) : option node :=
  if is_implicit_dir p then Some NDir else fs !! p.

Fixpoint string_drop (n : nat) (s : string) : string :=
  match n, s with
  | O, _ => s
  | S n', String _ s' => string_drop n' s'
  | S _, EmptyString => EmptyString
  end.

Definition is_relative (k : string) : bool :=
  negb (String.eqb k "") && negb (is_rooted k).

Definition dir_prefix (d : string) : string :=
  if String.eqb d "/" then "/" else d +:+ "/".

(** [inside d k]: [k] names [d] itself or something below it. *)
Definition inside (d k : string) : bool :=
  String.eqb k d ||
  (if String.eqb d "." then is_relative k
   else strings_HasPrefix k (dir_prefix d)).

(** The directory a path's last element lives in, as the kernel walks it. *)
Definition path_parent (p : string) : string :=
  match before_last_sep p with
  | None => "."
  | Some d => if String.eqb d "" then "/" else d
  end.

(** The proper prefixes of [pre ++ s] that end right before a separator of
    [s], shortest first; the empty prefix is left out. *)
Fixpoint sep_prefixes (pre : string) (s : string) : list string :=
  match s with
  | EmptyString => []
  | String c s' =>
      (if Ascii.eqb c Separator && negb (String.eqb pre "") then [pre] else [])
      ++ sep_prefixes (pre +:+ String c EmptyString) s'
  end.

(** [p] followed by its ancestors, nearest first: the chain the recursion
    of [os.MkdirAll] walks. *)
Definition mkdir_chain (p : string) : list string :=
  p :: rev (sep_prefixes EmptyString p).

(** The error of a failed lookup: [ENOTDIR] when the walk runs into a
    file, [ENOENT] otherwise. *)
Definition lookup_errno (fs : gmap string node) (p : string) : errno :=
  if existsb (fun a => match fs_stat fs a with
                       | Some (NFile _ _) => true
                       | _ => false
                       end) (sep_prefixes EmptyString p)
  then ENOTDIR else ENOENT.

Definition os_IsNotExist (e : error) : bool :=
  match e with
  | ErrSys ENOENT => true
  | _ => false
  end.

Definition fs_mkdir (p : string) (fs : gmap string node)
  : result (gmap string node) :=
  if String.eqb p "" then Err (ErrSys ENOENT) else
  match fs_stat fs p with
  | Some _ => Err (ErrSys EEXIST)
  | None =>
      match fs_stat fs (path_parent p) with
      | None => Err (ErrSys (lookup_errno fs p))
      | Some (NFile _ _) => Err (ErrSys ENOTDIR)
      | Some NDir => Ok (<[p := NDir]> fs)
      end
  end.

(** [os.MkdirAll]: stop at the first element that is already a directory,
    fail on a file, otherwise make the parent chain first and then the
    element itself. *)
Fixpoint fs_mkdir_all (chain : list string) (fs : gmap string node)
  : result (gmap string node) :=
  match chain with
  | [] => Ok fs
  | p :: parents =>
      match fs_stat fs p with
      | Some NDir => Ok fs
      | Some (NFile _ _) => Err (ErrSys ENOTDIR)
      | None =>
          match fs_mkdir_all parents fs with
          | Ok fs' =>
              match fs_mkdir p fs' with
              | Ok fs'' => Ok fs''
              | Err e =>
                  match fs_stat fs' p with
                  | Some NDir => Ok fs'
                  | _ => Err e
                  end
              | Panic => Panic
              end
          | other => other
          end
      end
  end.

Definition fs_remove_all (p : string) (fs : gmap string node)
  : gmap string node :=
  filter (fun kv : string * node => inside p kv.1 = false) fs.

Definition fs_read_file (p : string) (fs : gmap string node) : result string :=
  match fs_stat fs p with
  | Some (NFile data _) => Ok data
  | Some NDir => Err (ErrSys EISDIR)
  | None => Err (ErrSys (lookup_errno fs p))
  end.

(** Opening with [O_CREATE|O_WRONLY] and, for [os.WriteFile], [O_TRUNC]:
    an existing file keeps its mode, a missing one is created empty. *)
Definition fs_open_create (trunc : bool) (p : string) (perm : N)
    (fs : gmap string node) : result (gmap string node) :=
  if String.eqb p "" then Err (ErrSys ENOENT) else
  match fs_stat fs p with
  | Some NDir => Err (ErrSys EISDIR)
  | Some (NFile data pm) =>
      Ok (if trunc then <[p := NFile EmptyString pm]> fs else fs)
  | None =>
      match fs_stat fs (path_parent p) with
      | None => Err (ErrSys (lookup_errno fs p))
      | Some (NFile _ _) => Err (ErrSys ENOTDIR)
      | Some NDir => Ok (<[p := NFile EmptyString perm]> fs)
      end
  end.

(** Writing [data] at offset 0 of an open file: the bytes beyond
    [len(data)] stay. *)
Definition overwrite (old data : string) : string :=
  data +:+ string_drop (String.length data) old.

Definition fs_write_at (p : string) (data : string) (fs : gmap string node)
  : result (gmap string node) :=
  match fs !! p with
  | Some (NFile old pm) => Ok (<[p := NFile (overwrite old data) pm]> fs)
  | _ => Err (ErrSys EIO)
  end.

Definition fs_has_children (d : string) (fs : gmap string node) : bool :=
  existsb (fun kv : string * node => inside d kv.1 && negb (String.eqb kv.1 d))
          (map_to_list fs).

Definition reroot (src dst k : string) : string :=
  dst +:+ string_drop (String.length src) k.

Definition fs_move (src dst : string) (fs : gmap string node)
  : gmap string node :=
  list_to_map
    ((fun kv : string * node => (reroot src dst kv.1, kv.2))
       <$> map_to_list (filter (fun kv : string * node => inside src kv.1 = true) fs))
  ∪ filter (fun kv : string * node =>
              inside src kv.1 = false ∧ inside dst kv.1 = false) fs.

(** [rename(2)] *)
Definition fs_rename (src dst : string) (fs : gmap string node)
  : result (gmap string node) :=
  if String.eqb src "" || String.eqb dst "" then Err (ErrSys ENOENT) else
  if is_implicit_dir src || is_implicit_dir dst then Err (ErrSys EBUSY) else
  match fs !! src with
  | None => Err (ErrSys (lookup_errno fs src))
  | Some sn =>
      if String.eqb src dst then Ok fs
      else if inside src dst then Err (ErrSys EINVAL)
      else if inside dst src then
        Err (ErrSys (match sn with NDir => ENOTEMPTY | _ => EISDIR end))
      else
        match fs_stat fs (path_parent dst) with
        | None => Err (ErrSys (lookup_errno fs dst))
        | Some (NFile _ _) => Err (ErrSys ENOTDIR)
        | Some NDir =>
            match sn, fs !! dst with
            | NDir, Some (NFile _ _) => Err (ErrSys ENOTDIR)
            | NFile _ _, Some NDir => Err (ErrSys EISDIR)
            | NDir, Some NDir =>
                if fs_has_children dst fs then Err (ErrSys ENOTEMPTY)
                else Ok (fs_move src dst fs)
            | _, _ => Ok (fs_move src dst fs)
            end
        end
  end.

(** The name of [k] inside directory [d] when [k] is a direct child. *)
Fixpoint strip_prefix (p s : string) {struct p} : option string :=
  match p with
  | EmptyString => Some s
  | String c p' =>
      match s with
      | EmptyString => None
      | String d s' => if Ascii.eqb c d then strip_prefix p' s' else None
      end
  end.

Definition child_name (d k : string) : option string :=
  if String.eqb k d then None else
  match strip_prefix (if String.eqb d "." then EmptyString else dir_prefix d) k with
  | Some n =>
      if String.eqb n "" || strings_Contains n "/" then None else Some n
  | None => None
  end.

(** A directory entry: its name and whether it is a directory. *)
Record DirEntry : Type := { de_Name : string; de_IsDir : bool }.

Definition entry_le (a b : DirEntry) : Prop :=
  String.leb (de_Name a) (de_Name b) = true.

Global Instance entry_le_dec a b : Decision (entry_le a b).
Proof. unfold entry_le. apply _. Defined.

(** [os.ReadDir]: the entries of a directory sorted by file name. *)
Definition fs_read_dir (d : string) (fs : gmap string node)
  : result (list DirEntry) :=
  match fs_stat fs d with
  | None => Err (ErrSys (lookup_errno fs d))
  | Some (NFile _ _) => Err (ErrSys ENOTDIR)
  | Some NDir =>
      Ok (merge_sort entry_le
            (omap (fun kv : string * node =>
                     match child_name d kv.1 with
                     | Some n =>
                         Some {| de_Name := n;
                                 de_IsDir := match kv.2 with NDir => true | _ => false end |}
                     | None => None
                     end) (map_to_list fs)))
  end.

(** ** The world a call runs in

    Besides the tree, a call sees: the faults the operating system will
    report ([w_faults], one flag per fallible system call, in call order;
    exhausted means no more faults), the context ([w_ctx]: how many more
    polls of [ctx.Err()] see it live; [None] is a context that is never
    cancelled) and the clock reading [time.Now().Format(time.RFC3339)]. *)

Record World : Type := {
  w_fs : gmap string node;
  w_faults : list bool;
  w_ctx : option nat;
  w_now : string
}.

Definition set_fs (fs : gmap string node) (w : World) : World :=
  {| w_fs := fs; w_faults := w_faults w; w_ctx := w_ctx w; w_now := w_now w |}.

(** Calls are state transformers with an outcome. *)
Definition M (A : Type) : Type := World -> result A * World.

Global Instance M_ret : MRet M := fun A a w => (Ok a, w).

Global Instance M_bind : MBind M := fun A B f m w =>
  match m w with
  | (Ok a, w') => f a w'
  | (Err e, w') => (Err e, w')
  | (Panic, w') => (Panic, w')
  end.

Definition fail {A} (e : error) : M A := fun w => (Err e, w).
Definition panic {A} : M A := fun w => (Panic, w).

(** [if err != nil { return fmt.Errorf(msg + ": %w", err) }] *)
Definition wrap {A} (msg : string) (m : M A) : M A := fun w =>
  match m w with
  | (Err e, w') => (Err (ErrWrap msg e), w')
  | other => other
  end.

Definition lift {A} (r : result A) : M A := fun w => (r, w).

(** [ctx.Err()]: [true] when the context is cancelled; a live context
    with a deadline comes one poll closer to it. *)
Definition ctx_done (w : World) : bool :=
  match w_ctx w with
  | Some O => true
  | _ => false
  end.

Definition ctx_tick (w : World) : World :=
  {| w_fs := w_fs w; w_faults := w_faults w;
     w_ctx := match w_ctx w with
              | Some (S n) => Some n
              | c => c
              end;
     w_now := w_now w |}.

Definition ctx_Err : M bool := fun w => (Ok (ctx_done w), ctx_tick w).

Definition time_Now : M string := fun w => (Ok (w_now w), w).

(** A fallible system call: it fails with [EIO] and no effect when the
    next fault flag is set, and otherwise acts on the tree. *)
Definition next_fault (w : World) : bool :=
  match w_faults w with
  | b :: _ => b
  | [] => false
  end.

Definition pop_fault (w : World) : World :=
  {| w_fs := w_fs w; w_faults := tail (w_faults w);
     w_ctx := w_ctx w; w_now := w_now w |}.

Definition syscall {A} (op : gmap string node -> result (A * gmap string node))
  : M A := fun w =>
  if next_fault w then (Err (ErrSys EIO), pop_fault w)
  else
    match op (w_fs w) with
    | Ok (a, fs') => (Ok a, set_fs fs' (pop_fault w))
    | Err e => (Err e, pop_fault w)
    | Panic => (Panic, pop_fault w)
    end.

Definition unit_op (op : gmap string node -> result (gmap string node))
  : gmap string node -> result (unit * gmap string node) :=
  fun fs => match op fs with
            | Ok fs' => Ok (tt, fs')
            | Err e => Err e
            | Panic => Panic
            end.

Definition read_op {A} (op : gmap string node -> result A)
  : gmap string node -> result (A * gmap string node) :=
  fun fs => match op fs with
            | Ok a => Ok (a, fs)
            | Err e => Err e
            | Panic => Panic
            end.

(** [os.Stat] only consults the tree. *)
Definition os_Stat (p : string) : M node := fun w =>
  match fs_stat (w_fs w) p with
  | Some n => (Ok n, w)
  | None => (Err (ErrSys (lookup_errno (w_fs w) p)), w)
  end.

Definition os_MkdirAll (p : string) (perm : N) : M unit :=
  syscall (unit_op (fs_mkdir_all (mkdir_chain p))).

(** [os.RemoveAll]: nothing to do for the empty path or a missing one,
    [EINVAL] for ["."], otherwise the whole subtree goes. *)
Definition os_RemoveAll (p : string) : M unit := fun w =>
  if String.eqb p "" then (Ok tt, w)
  else if String.eqb p "." then (Err (ErrSys EINVAL), w)
  else (Ok tt, set_fs (fs_remove_all p (w_fs w)) w).

Definition os_ReadFile (p : string) : M string :=
  syscall (read_op (fs_read_file p)).

Definition os_WriteFile (p : string) (data : string) (perm : N) : M unit :=
  syscall (unit_op (fun fs =>
    match fs_open_create true p perm fs with
    | Ok fs' => fs_write_at p data fs'
    | other => other
    end)).

(** [os.OpenFile(p, os.O_CREATE|os.O_WRONLY, perm)]; the open file is
    referred to by its path. *)
Definition os_OpenFile (p : string) (perm : N) : M string :=
  syscall (fun fs =>
    match fs_open_create false p perm fs with
    | Ok fs' => Ok (p, fs')
    | Err e => Err e
    | Panic => Panic
    end).

Definition os_Rename (src dst : string) : M unit :=
  syscall (unit_op (fs_rename src dst)).

Definition os_ReadDir (d : string) : M (list DirEntry) :=
  syscall (read_op (fs_read_dir d)).

(** ** Plugin records and their content *)

(** An [io.Reader]: the bytes it delivers, whether the stream then ends
    with a read error instead of [io.EOF], and whether it is an
    [io.Seeker]. *)
Record Reader : Type := {
  r_data : string;
  r_fail : bool;
  r_seekable : bool
}.

(** The dynamic type of [Info.Content]. *)
Inductive ContentValue : Type :=
  | CString (v : string)
  | CBytes (v : string)
  | CReader (v : Reader)
  | COther (type_name : string).

Record Info : Type := {
  Name : string;
  FileName : string;
  Version : string;
  Description : string;
  Store : string;
  Runtime : string;
  Metadata : gmap string string;
  Status : string;
  Content : ContentValue
}.

Definition set_Content (c : ContentValue) (i : Info) : Info :=
  {| Name := Name i; FileName := FileName i; Version := Version i;
     Description := Description i; Store := Store i; Runtime := Runtime i;
     Metadata := Metadata i; Status := Status i; Content := c |}.

Definition set_Status (st : string) (i : Info) : Info :=
  {| Name := Name i; FileName := FileName i; Version := Version i;
     Description := Description i; Store := Store i; Runtime := Runtime i;
     Metadata := Metadata i; Status := st; Content := Content i |}.

(** [info.Version = v; info.Status = st; info.Metadata = md] *)
Definition stamp (v st : string) (md : gmap string string) (i : Info) : Info :=
  {| Name := Name i; FileName := FileName i; Version := v;
     Description := Description i; Store := Store i; Runtime := Runtime i;
     Metadata := md; Status := st; Content := Content i |}.

(** The [Store] interface, as far as the manager calls it. *)
Record PluginStore : Type := {
  store_Fetch : string -> string -> result Info
}.

Record Manager : Type := {
  pluginDir : string;
  store : PluginStore
}.

(** ** Library code the pipeline calls

    Format sniffing, the decoders and the JSON codec are not part of the
    repository; the embedding takes them as a parameter. *)

Inductive tar_type : Type := TypeDir | TypeReg | TypeOther.

Record TarEntry : Type := {
  th_Name : string;
  th_Typeflag : tar_type;
  th_Mode : N;
  th_Body : Reader
}.

Record ZipEntry : Type := {
  zf_Name : string;
  zf_IsDir : bool;
  zf_Mode : N;
  zf_Open : result Reader
}.

Record Lib : Type := {
  http_DetectContentType : string -> string;
  gzip_NewReader : Reader -> result Reader;
  xz_NewReader : Reader -> result Reader;
  bzip2_NewReader : Reader -> Reader;
  lz4_NewReader : Reader -> Reader;
  brotli_NewReader : Reader -> Reader;
  (** the headers [tar.Reader.Next] yields, and the error that ends the
      iteration when it is not [io.EOF] *)
  tar_NewReader : Reader -> list TarEntry * option error;
  zip_NewReader : string -> result (list ZipEntry);
  json_MarshalIndent : Info -> result string;
  json_Unmarshal : string -> result Info
}.

(** ** The extraction pipeline *)

Definition string_take (n : nat) (s : string) : string := String.substring 0 n s.

(** [n, err := v.Read(buf)] with a buffer of [n] bytes: the bytes read,
    whether the call failed, and the reader that remains. *)
Definition reader_Read (n : nat) (v : Reader) : string * bool * Reader :=
  (string_take n (r_data v),
   String.eqb (r_data v) "" && r_fail v,
   {| r_data := string_drop n (r_data v); r_fail := r_fail v;
      r_seekable := r_seekable v |}).

Definition io_MultiReader (first : string) (rest : Reader) : Reader :=
  {| r_data := first +:+ r_data rest; r_fail := r_fail rest; r_seekable := false |}.

Definition bytes_NewReader (v : string) : Reader :=
  {| r_data := v; r_fail := false; r_seekable := true |}.

Definition err_read : error := ErrMsg "unexpected EOF".

(** [io.Copy(f, r)] into the open file [f]; a nil reader is dereferenced. *)
Definition io_Copy (f : string) (r : option Reader) : M unit :=
  match r with
  | None => panic
  | Some r =>
      syscall (unit_op (fs_write_at f (r_data r))) ;;
      if r_fail r then fail err_read else mret tt
  end.

Definition fileProcessor : Type := Lib -> Reader -> string -> M (option Reader).

Definition extractGz : fileProcessor := fun lib r destDir =>
  gr ← wrap "failed to create gzip reader" (lift (gzip_NewReader lib r));
  mret (Some gr).

Fixpoint extractTar_entries (destDir : string) (entries : list TarEntry)
    (last : option error) : M (option Reader) :=
  match entries with
  | [] =>
      match last with
      | None => mret None
      | Some e => fail (ErrWrap "failed to read tar header" e)
      end
  | header :: rest =>
      let target := filepath_Join [destDir; filepath_Clean (th_Name header)] in
      if negb (strings_HasPrefix target destDir) then
        fail (ErrMsg ("invalid tar path: " +:+ th_Name header))
      else
        match th_Typeflag header with
        | TypeDir =>
            wrap "failed to create directory" (os_MkdirAll target perm_0755)
        | TypeReg =>
            wrap "failed to create directory"
                 (os_MkdirAll (filepath_Dir target) perm_0755) ;;
            f ← wrap "failed to create file" (os_OpenFile target (th_Mode header));
            wrap "failed to write file" (io_Copy f (Some (th_Body header)))
        | TypeOther => mret tt
        end ;;
        extractTar_entries destDir rest last
  end.

Definition extractTar : fileProcessor := fun lib r destDir =>
  let tr := tar_NewReader lib r in
  extractTar_entries destDir tr.1 tr.2.

(** A system call that leaves the tree alone (the temporary file of
    [extractZip] lives in the system's temporary directory and is removed
    before the function returns). *)
Definition os_scratch : M unit := syscall (fun fs => Ok (tt, fs)).

Fixpoint extractZip_files (destDir : string) (files : list ZipEntry)
  : M (option Reader) :=
  match files with
  | [] => mret None
  | file :: rest =>
      let target := filepath_Join [destDir; filepath_Clean (zf_Name file)] in
      if negb (strings_HasPrefix target destDir) then
        fail (ErrMsg ("invalid zip path: " +:+ zf_Name file))
      else if zf_IsDir file then
        wrap "failed to create directory" (os_MkdirAll target perm_0755) ;;
        extractZip_files destDir rest
      else
        wrap "failed to create directory"
             (os_MkdirAll (filepath_Dir target) perm_0755) ;;
        f ← wrap "failed to create file" (os_OpenFile target (zf_Mode file));
        rc ← wrap "failed to open zip file" (lift (zf_Open file));
        wrap "failed to write file" (io_Copy f (Some rc)) ;;
        extractZip_files destDir rest
  end.

Definition extractZip : fileProcessor := fun lib r destDir =>
  wrap "failed to create temporary file" os_scratch ;;
  wrap "failed to write zip content"
       (os_scratch ;; if r_fail r then fail err_read else mret tt) ;;
  wrap "failed to get zip file info" os_scratch ;;
  files ← wrap "failed to create zip reader" (lift (zip_NewReader lib (r_data r)));
  extractZip_files destDir files.

Definition extractXz : fileProcessor := fun lib r destDir =>
  decoder ← wrap "failed to create xz reader" (lift (xz_NewReader lib r));
  mret (Some decoder).

Definition extractBzip2 : fileProcessor := fun lib r destDir =>
  mret (Some (bzip2_NewReader lib r)).

Definition extractLz4 : fileProcessor := fun lib r destDir =>
  mret (Some (lz4_NewReader lib r)).

Definition extractBrotli : fileProcessor := fun lib r destDir =>
  mret (Some (brotli_NewReader lib r)).

Definition fileProcessorMap (contentType : string) : option (list fileProcessor) :=
  if String.eqb contentType "application/gzip" then Some [extractGz; extractTar]
  else if String.eqb contentType "application/x-gzip" then Some [extractGz; extractTar]
  else if String.eqb contentType "application/zip" then Some [extractZip]
  else if String.eqb contentType "application/x-xz" then Some [extractXz; extractTar]
  else if String.eqb contentType "application/x-bzip2" then Some [extractBzip2; extractTar]
  else if String.eqb contentType "application/x-lz4" then Some [extractLz4; extractTar]
  else if String.eqb contentType "application/x-brotli" then Some [extractBrotli; extractTar]
  else None.

Fixpoint processFile (lib : Lib) (reader : Reader) (destDir : string)
    (processors : list fileProcessor) : M (option Reader) :=
  match processors with
  | [] => mret (Some reader)
  | process :: rest =>
      cancelled ← ctx_Err;
      if cancelled : bool then fail (ErrWrap "processing cancelled" ErrCanceled)
      else
        processed ← wrap "processing failed" (process lib reader destDir);
        match processed with
        | None => mret None
        | Some r => processFile lib r destDir rest
        end
  end.

(** [writePluginFiles(ctx, dir, info)]; [info] is a pointer, so the record
    as the function leaves it is returned. *)
Definition writePluginFiles (lib : Lib) (dir : string) (info : Info) : M Info :=
  let plugindir := filepath_Join [dir; Name info] in
  wrap "failed to create plugin-specific directory"
       (os_MkdirAll plugindir perm_0755) ;;
  '(contentType, info) ←
    match Content info with
    | CString v => mret (http_DetectContentType lib v, info)
    | CBytes v => mret (http_DetectContentType lib v, info)
    | CReader v =>
        let '(sniffBuf, failed, rest) := reader_Read 512 v in
        if failed : bool then
          fail (ErrWrap "failed to read content for type detection" err_read)
        else if r_seekable v then
          mret (http_DetectContentType lib sniffBuf, info)
        else
          mret (http_DetectContentType lib sniffBuf,
                set_Content (CReader (io_MultiReader sniffBuf rest)) info)
    | COther t => fail (ErrMsg ("unsupported plugin data type: " +:+ t))
    end;
  reader ←
    match Content info with
    | CString v => mret (bytes_NewReader v)
    | CBytes v => mret (bytes_NewReader v)
    | CReader v => mret v
    | COther t => fail (ErrMsg ("unsupported content type: " +:+ t))
    end;
  let binPath := filepath_Join [plugindir; FileName info] in
  binFile ← wrap "failed to create plugin file" (os_OpenFile binPath perm_0755);
  match fileProcessorMap contentType with
  | None =>
      wrap "failed to write plugin data" (io_Copy binFile (Some reader)) ;;
      mret info
  | Some processors =>
      reader ← wrap "failed to process file"
                    (processFile lib reader plugindir processors);
      wrap "failed to write plugin data" (io_Copy binFile reader) ;;
      mret info
  end.

(** ** The lifecycle manager *)

(** A deferred [os.RemoveAll(p)]: runs when the function returns or
    panics; its result is dropped. *)
Definition defer_RemoveAll {A} (p : string) (body : M A) : M A := fun w =>
  let '(r, w') := body w in (r, (os_RemoveAll p w').2).

(** The cleanup [Install] defers: [if !success { os.RemoveAll(pluginDir) }];
    [success] is set right before the normal return. *)
Definition defer_cleanup {A} (p : string) (body : M A) : M A := fun w =>
  let '(r, w') := body w in
  match r with
  | Ok _ => (r, w')
  | _ => (r, (os_RemoveAll p w').2)
  end.

(** The body of [Install] once the cleanup is deferred. *)
Definition Install_steps (lib : Lib) (m : Manager) (name version : string)
    (pluginDir : string) : M unit :=
  wrap "failed to create plugin directory" (os_MkdirAll pluginDir perm_0755) ;;
  info ← wrap "failed to fetch plugin" (lift (store_Fetch (store m) name version));
  info ← wrap "failed to install plugin" (writePluginFiles lib pluginDir info);
  now ← time_Now;
  let info := stamp version "enabled" {["installed" := now]} info in
  metadataBytes ← wrap "failed to marshal metadata"
                       (lift (json_MarshalIndent lib info));
  let metadataPath := filepath_Join [pluginDir; "metadata.json"] in
  wrap "failed to save metadata"
       (os_WriteFile metadataPath metadataBytes perm_0644).

Definition Install (lib : Lib) (m : Manager) (name version : string) : M unit :=
  cancelled ← ctx_Err;
  if cancelled : bool then
    fail (ErrWrap "context cancelled before installation" ErrCanceled)
  else if String.eqb (pluginDir m) "" then
    fail (ErrMsg "no valid plugin directory found")
  else
    let pluginDir := filepath_Join [pluginDir m; name] in
    fun w =>
    match os_Stat pluginDir w with
    | (Ok _, w) => (Err (ErrMsg ("plugin " +:+ name +:+ " is already installed")), w)
    | (_, w) =>
        defer_cleanup pluginDir (Install_steps lib m name version pluginDir) w
    end.


(** The common body of [Enable] and [Disable]. *)
Definition set_plugin_status (lib : Lib) (m : Manager) (name : string)
    (cancel_msg status : string) : M unit :=
  cancelled ← ctx_Err;
  if cancelled : bool then fail (ErrWrap cancel_msg ErrCanceled)
  else
    let pluginDir := filepath_Join [pluginDir m; name] in
    let metadataPath := filepath_Join [pluginDir; "metadata.json"] in
    data ← wrap "failed to read metadata" (os_ReadFile metadataPath);
    info ← wrap "failed to parse metadata" (lift (json_Unmarshal lib data));
    let info := set_Status status info in
    metadataBytes ← wrap "failed to marshal metadata"
                         (lift (json_MarshalIndent lib info));
    wrap "failed to save metadata"
         (os_WriteFile metadataPath metadataBytes perm_0644).

Definition Enable (lib : Lib) (m : Manager) (name : string) : M unit :=
  set_plugin_status lib m name "context cancelled before enabling plugin" "enabled".

Definition Disable (lib : Lib) (m : Manager) (name : string) : M unit :=
  set_plugin_status lib m name "context cancelled before disabling plugin" "disabled".

(** The loop of [List] over the directory entries; [plugins] is the slice
    built so far. *)
Fixpoint List_entries (lib : Lib) (root : string) (entries : list DirEntry)
    (plugins : list Info) : M (list Info) :=
  match entries with
  | [] => mret plugins
  | entry :: rest =>
      if negb (de_IsDir entry) then List_entries lib root rest plugins
      else
        let metadataPath := filepath_Join [root; de_Name entry; "metadata.json"] in
        fun w =>
        match os_ReadFile metadataPath w with
        | (Ok data, w) =>
            match json_Unmarshal lib data with
            | Ok info => List_entries lib root rest (plugins ++ [info]) w
            | Err e =>
                (Err (ErrWrap ("failed to parse metadata for plugin " +:+ de_Name entry) e), w)
            | Panic => (Panic, w)
            end
        | (Err e, w) =>
            if os_IsNotExist e then List_entries lib root rest plugins w
            else (Err (ErrWrap ("failed to read metadata for plugin " +:+ de_Name entry) e), w)
        | (Panic, w) => (Panic, w)
        end
  end.

Definition List (lib : Lib) (m : Manager) : M (list Info) :=
  cancelled ← ctx_Err;
  if cancelled : bool then
    fail (ErrWrap "context cancelled before listing plugins" ErrCanceled)
  else fun w =>
    match os_ReadDir (pluginDir m) w with
    | (Ok entries, w) => List_entries lib (pluginDir m) entries [] w
    | (Err e, w) =>
        if os_IsNotExist e then (Ok [], w)
        else (Err (ErrWrap "failed to read plugin directory" e), w)
    | (Panic, w) => (Panic, w)
    end.

Definition readMetadata (lib : Lib) (path : string) : M Info :=
  data ← os_ReadFile path;
  lift (json_Unmarshal lib data).

(** The two-step swap at the end of [Upgrade]. *)
Definition Upgrade_swap (pluginDir tmpDir : string) : M unit :=
  let backupDir := pluginDir +:+ ".backup" in
  wrap "failed to backup existing plugin" (os_Rename pluginDir backupDir) ;;
  ((fun w =>
    match os_Rename tmpDir pluginDir w with
    | (Err e, w) =>
        (Err (ErrWrap "failed to install upgrade" e),
         (os_Rename backupDir pluginDir w).2)
    | (Panic, w) => (Panic, w)
    | (Ok _, w) => (Ok tt, (os_RemoveAll backupDir w).2)
    end) : M unit).

(** Staging the new version into the temporary directory. *)
Definition Upgrade_stage (lib : Lib) (m : Manager) (name version : string)
    (tmpDir : string) (currentInfo : Info) : M unit :=
  wrap "failed to create temporary upgrade directory"
       (os_MkdirAll tmpDir perm_0755) ;;
  newInfo ← wrap "failed to fetch plugin upgrade"
                 (lift (store_Fetch (store m) name version));
  newInfo ← wrap "failed to write upgraded plugin files"
                 (writePluginFiles lib tmpDir newInfo);
  now ← time_Now;
  let newInfo :=
    stamp version (Status currentInfo)
      (<["installed" := now]>
       (<["upgraded_from" := Version currentInfo]>
        {["previous_install" :=
            default "" (Metadata currentInfo !! "installed")]}))
      newInfo in
  metadataBytes ← wrap "failed to marshal metadata"
                       (lift (json_MarshalIndent lib newInfo));
  wrap "failed to write metadata"
       (os_WriteFile (filepath_Join [tmpDir; "metadata.json"])
                     metadataBytes perm_0644).

(** [Upgrade] from the point where the precondition checks are passed. *)
Definition Upgrade_steps (lib : Lib) (m : Manager) (name version : string)
    (pluginDir : string) (currentInfo : Info) : M unit :=
  let tmpDir := pluginDir +:+ ".upgrade" in
  defer_RemoveAll tmpDir
    (Upgrade_stage lib m name version tmpDir currentInfo ;;
     Upgrade_swap pluginDir tmpDir).

Definition Upgrade (lib : Lib) (m : Manager) (name version : string) : M unit :=
  cancelled ← ctx_Err;
  if cancelled : bool then
    fail (ErrWrap "context cancelled before upgrade" ErrCanceled)
  else
    let pluginDir := filepath_Join [pluginDir m; name] in
    fun w =>
    match os_Stat pluginDir w with
    | (Err (ErrSys ENOENT), w) =>
        (Err (ErrMsg ("plugin " +:+ name +:+ " is not installed")), w)
    | (_, w) =>
        (currentInfo ← wrap "failed to read current plugin metadata"
           (readMetadata lib (filepath_Join [pluginDir; "metadata.json"]));
         if String.eqb (Version currentInfo) version then
           fail (ErrMsg ("plugin " +:+ name +:+ " is already at version " +:+ version))
         else Upgrade_steps lib m name version pluginDir currentInfo) w
    end.


Definition content_sniffed (c : ContentValue) : string :=
  match c with
  | CString v => v
  | CBytes v => v
  | CReader v => string_take 512 (r_data v)
  | COther _ => EmptyString
  end.

(** The records [List] reports for a directory listing: those of the
    subdirectories whose record file reads and parses, in listing order. *)
Fixpoint listed_records (lib : Lib) (fs : gmap string node) (root : string)
    (entries : list DirEntry) : list Info :=
  match entries with
  | [] => []
  | entry :: rest =>
      let tail := listed_records lib fs root rest in
      if de_IsDir entry then
        match fs_read_file (filepath_Join [root; de_Name entry; "metadata.json"]) fs with
        | Ok data =>
            match json_Unmarshal lib data with
            | Ok info => info :: tail
            | _ => tail
            end
        | _ => tail
        end
      else tail
  end.

(** ** A concrete library instance and sample inputs

    Used to run the embedding on concrete inputs. *)

Definition byte_1f : ascii := ascii_of_nat 31.
Definition byte_8b : ascii := ascii_of_nat 139.
Definition byte_08 : ascii := ascii_of_nat 8.
Definition byte_03 : ascii := ascii_of_nat 3.
Definition byte_04 : ascii := ascii_of_nat 4.

Definition gzip_magic : string := String byte_1f (String byte_8b (String byte_08 "")).
Definition zip_magic : string := String "P" (String "K" (String byte_03 (String byte_04 ""))).

(** The bytes that make [http.DetectContentType] call data binary. *)
Definition is_binary_byte (c : ascii) : bool :=
  let n := nat_of_ascii c in
  (n <=? 8)%nat || (n =? 11)%nat || ((14 <=? n)%nat && (n <=? 26)%nat)
  || ((28 <=? n)%nat && (n <=? 31)%nat).

Fixpoint has_binary_byte (s : string) : bool :=
  match s with
  | EmptyString => false
  | String c s' => is_binary_byte c || has_binary_byte s'
  end.

(** The part of [http.DetectContentType] the pipeline depends on: the
    gzip and zip signatures, and the text/binary fallback. *)
Definition sample_DetectContentType (data : string) : string :=
  let data := string_take 512 data in
  if strings_HasPrefix data gzip_magic then "application/x-gzip"
  else if strings_HasPrefix data zip_magic then "application/zip"
  else if has_binary_byte data then "application/octet-stream"
  else "text/plain; charset=utf-8".

Definition dquote : string := String (ascii_of_nat 34) EmptyString.

Definition json_string (v : string) : string := dquote +:+ v +:+ dquote.

Definition json_field (k v : string) : string :=
  "  " +:+ json_string k +:+ ": " +:+ json_string v.

Definition string_le (a b : string * string) : Prop := String.leb a.1 b.1 = true.

Global Instance string_le_dec a b : Decision (string_le a b).
Proof. unfold string_le. apply _. Defined.

Definition json_metadata (md : gmap string string) : list string :=
  match merge_sort string_le (map_to_list md) with
  | [] => []
  | kvs =>
      ["  " +:+ json_string "metadata" +:+ ": {" +:+
       String.concat ", " ((fun kv : string * string =>
                              json_string kv.1 +:+ ": " +:+ json_string kv.2) <$> kvs)
       +:+ "}"]
  end.

(** An indented JSON rendering of a record, field by field in declaration
    order, with the [omitempty] fields left out when empty. *)
Definition sample_render (i : Info) : string :=
  "{" +:+
  String.concat ","
    ([ json_field "name" (Name i); json_field "filename" (FileName i);
       json_field "version" (Version i);
       json_field "description" (Description i);
       json_field "store" (Store i); json_field "runtime" (Runtime i) ]
     ++ json_metadata (Metadata i)
     ++ (if String.eqb (Status i) "" then [] else [json_field "status" (Status i)])
     ++ match Content i with
        | CString v => [json_field "content" v]
        | _ => []
        end)
  +:+ "}".

(** Decoding by table: a document decodes to the known record it is the
    rendering of, and anything else is a syntax error. *)
Definition sample_Unmarshal (known : list Info) (data : string) : result Info :=
  match List.find (fun i => String.eqb (sample_render i) data) known with
  | Some i => Ok i
  | None => Err (ErrMsg "invalid character looking for beginning of value")
  end.

Definition sample_lib (known : list Info) (tar : list TarEntry * option error)
  : Lib :=
  {| http_DetectContentType := sample_DetectContentType;
     gzip_NewReader := fun r =>
       if strings_HasPrefix (r_data r) gzip_magic then Ok r
       else Err (ErrMsg "gzip: invalid header");
     xz_NewReader := fun r => Err (ErrMsg "xz: invalid header magic bytes");
     bzip2_NewReader := fun r => r;
     lz4_NewReader := fun r => r;
     brotli_NewReader := fun r => r;
     tar_NewReader := fun r => tar;
     zip_NewReader := fun data => Err (ErrMsg "zip: not a valid zip file");
     json_MarshalIndent := fun i => Ok (sample_render i);
     json_Unmarshal := sample_Unmarshal known |}.

Definition sample_info (name fileName version : string) (c : ContentValue) : Info :=
  {| Name := name; FileName := fileName; Version := version;
     Description := "a sample plugin"; Store := "github"; Runtime := "exec";
     Metadata := {["owner" := "acme"]}; Status := ""; Content := c |}.

Definition sample_world (fs : gmap string node) : World :=
  {| w_fs := fs; w_faults := []; w_ctx := None; w_now := "2024-01-02T03:04:05Z" |}.

Definition sample_store (i : Info) : PluginStore :=
  {| store_Fetch := fun _ _ => Ok i |}.

Definition sample_manager (i : Info) : Manager :=
  {| pluginDir := "/plugins"; store := sample_store i |}.

(** A network stream that breaks off after a few bytes. *)
Definition broken_stream : ContentValue :=
  CReader {| r_data := "partial"; r_fail := true; r_seekable := false |}.

(** The plugin "tool" at version 1.0.0, as [Install] leaves it. *)
Definition installed_record : Info :=
  stamp "1.0.0" "enabled" {["installed" := "2024-01-02T03:04:05Z"]}
        (sample_info "tool" "tool.bin" "1.0.0" (CString "hello")).

Definition installed_world : World :=
  (Install (sample_lib [] ([], None))
           (sample_manager (sample_info "tool" "tool.bin" "1.0.0" (CString "hello")))
           "tool" "1.0.0" (sample_world ∅)).2.

(** The same root with a leftover directory that has no record, and with
    one whose record is not valid JSON. *)
Definition stale_world : World :=
  set_fs (<["/plugins/stale" := NDir]> (w_fs installed_world)) installed_world.

Definition corrupt_world : World :=
  set_fs (<["/plugins/stale/metadata.json" := NFile "{oops" perm_0644]>
            (w_fs stale_world)) stale_world.

Definition sample_listing : list DirEntry :=
  [ {| de_Name := "stale"; de_IsDir := true |};
    {| de_Name := "tool"; de_IsDir := true |} ].

(** The installed plugin on a system whose eighth fallible system call
    fails: in [Upgrade] that is the second rename. *)
Definition second_rename_fails : World :=
  {| w_fs := w_fs installed_world;
     w_faults := [false; false; false; false; false; false; false; true];
     w_ctx := None;
     w_now := "2024-02-03T04:05:06Z" |}.

(** A catalog record whose name climbs out of the staging directory into
    the live one. *)
Definition climbing_record : Info :=
  sample_info "../tool/tool" "tool.bin" "2.0.0" broken_stream.

(** Archive entries: one that climbs out of the destination with [..],
    and one that names a sibling directory whose name merely starts with
    the destination's. *)
Definition climbing_entry : TarEntry :=
  {| th_Name := "../../etc/passwd"; th_Typeflag := TypeReg;
     th_Mode := perm_0644; th_Body := bytes_NewReader "root::0:0" |}.

Definition sibling_entry : TarEntry :=
  {| th_Name := "../tool-evil/run"; th_Typeflag := TypeReg;
     th_Mode := perm_0755; th_Body := bytes_NewReader "payload" |}.

Definition zip_entry_of (h : TarEntry) : ZipEntry :=
  {| zf_Name := th_Name h; zf_IsDir := false; zf_Mode := th_Mode h;
     zf_Open := Ok (th_Body h) |}.

(** A library whose tar and zip readers both yield the given entries. *)
Definition archive_lib (entries : list TarEntry) : Lib :=
  let lib := sample_lib [] (entries, None) in
  {| http_DetectContentType := http_DetectContentType lib;
     gzip_NewReader := gzip_NewReader lib;
     xz_NewReader := xz_NewReader lib;
     bzip2_NewReader := bzip2_NewReader lib;
     lz4_NewReader := lz4_NewReader lib;
     brotli_NewReader := brotli_NewReader lib;
     tar_NewReader := tar_NewReader lib;
     zip_NewReader := fun _ => Ok (zip_entry_of <$> entries);
     json_MarshalIndent := json_MarshalIndent lib;
     json_Unmarshal := json_Unmarshal lib |}.

(** ** Predicates used in the statements and their proofs *)

Definition triple_matches (Match : string -> string -> bool)
    (t : string * string * string) : bool :=
  Match (t.1.1 +:+ t.1.2) t.2.

Definition triple_result (t : string * string * string) : string * string :=
  (t.2, asset_runtime t.1.2).

(** [Upgrade] gets past its precondition checks: the context is live, the
    plugin directory is not reported missing, the current record reads and
    parses, and its version differs from the requested one. *)
Definition Upgrade_past_checks (lib : Lib) (m : Manager) (name version : string)
    (w : World) (currentInfo : Info) (w1 : World) : Prop :=
  let pdir := filepath_Join [pluginDir m; name] in
  ctx_done w = false
  /\ (os_Stat pdir (ctx_tick w)).1 <> Err (ErrSys ENOENT)
  /\ readMetadata lib (filepath_Join [pdir; "metadata.json"]) (ctx_tick w)
     = (Ok currentInfo, w1)
  /\ Version currentInfo <> version.

(** ** Canonical paths

    [filepath.Clean] returns a separator-joined list of elements: ordinary
    names, preceded in a relative path by a run of [..]; cleaning such a
    path again leaves it alone, and so does cutting its last element. *)

Fixpoint has_sep (s : string) : bool :=
  match s with
  | EmptyString => false
  | String c s' => Ascii.eqb c Separator || has_sep s'
  end.

Definition plain (c : string) : Prop :=
  c <> "" /\ c <> "." /\ c <> ".." /\ has_sep c = false.

(** The element stack of [clean_elems], top first. *)
Fixpoint good_stack (rooted : bool) (out : list string) : Prop :=
  match out with
  | [] => True
  | c :: out' =>
      (plain c /\ good_stack rooted out')
      \/ (c = ".." /\ rooted = false /\ Forall (fun d => d = "..") out')
  end.

Definition render (rooted : bool) (cs : list string) : string :=
  if rooted then "/" +:+ join_sep cs
  else if String.eqb (join_sep cs) "" then "." else join_sep cs.

(** A directory other than the root and the working directory. *)
Definition proper (d : string) : Prop := d <> "" /\ is_implicit_dir d = false.

(** A suffix that makes a sibling name: it starts with a byte other than
    the separator. *)
Definition sibling_suffix (suf : string) : Prop :=
  exists a rest, suf = String a rest /\ Ascii.eqb a Separator = false.

(** [p] and the directories above it are outside [d]. *)
Definition avoids (d p : string) : Prop :=
  forall k, k ∈ mkdir_chain p -> inside d k = false.

(** [m] changes nothing inside [d], whatever its outcome. *)
Definition preserves {A} (d : string) (m : M A) : Prop :=
  forall w k, inside d k = true -> w_fs (m w).2 !! k = w_fs w !! k.

(** A stage that stays out of [d] whenever its destination is textually
    under [d ++ suf]. *)
Definition stage_outside (d suf : string) (p : fileProcessor) : Prop :=
  forall lib r destDir,
    strings_HasPrefix destDir (d +:+ suf) = true -> preserves d (p lib r destDir).

(** The fetched record keeps the staging inside the staging directory:
    the plugin-specific directory and the file path that
    [writePluginFiles] derives from its name and file name are textually
    under [tmpDir]. *)
Definition staged_under (tmpDir : string) (fetched : Info) : Prop :=
  strings_HasPrefix (filepath_Join [tmpDir; Name fetched]) tmpDir = true
  /\ strings_HasPrefix
       (filepath_Join [filepath_Join [tmpDir; Name fetched]; FileName fetched])
       tmpDir = true.

(** The staging of the new version does not complete. *)
Definition Upgrade_staging_failed (lib : Lib) (m : Manager)
    (name version pdir : string) (cur : Info) (w1 : World) : Prop :=
  exists rs ws,
    Upgrade_stage lib m name version (pdir +:+ ".upgrade") cur w1 = (rs, ws)
    /\ forall u, rs <> Ok u.

(** The staging completes and the first rename, live directory to backup,
    fails. *)
Definition Upgrade_backup_failed (lib : Lib) (m : Manager)
    (name version pdir : string) (cur : Info) (w1 : World) : Prop :=
  exists ws ra wa,
    Upgrade_stage lib m name version (pdir +:+ ".upgrade") cur w1 = (Ok tt, ws)
    /\ os_Rename pdir (pdir +:+ ".backup") ws = (ra, wa)
    /\ forall u, ra <> Ok u.

(** The staging and the first rename complete, the second rename, staging
    directory to live position, fails, and the restore of the backup
    succeeds. *)
Definition Upgrade_swap_failed_restored (lib : Lib) (m : Manager)
    (name version pdir : string) (cur : Info) (w1 : World) : Prop :=
  exists ws wa e wb wc,
    Upgrade_stage lib m name version (pdir +:+ ".upgrade") cur w1 = (Ok tt, ws)
    /\ os_Rename pdir (pdir +:+ ".backup") ws = (Ok tt, wa)
    /\ os_Rename (pdir +:+ ".upgrade") pdir wa = (Err e, wb)
    /\ os_Rename (pdir +:+ ".backup") pdir wb = (Ok tt, wc).

(** [Manager.Fetch]: the stored record of an installed plugin. *)
Definition Fetch (lib : Lib) (m : Manager) (name : string) : M Info :=
  readMetadata lib (filepath_Join [pluginDir m; name; "metadata.json"]).

(** Nothing disappears between [fs] and [fs']: a directory is still a
    directory and a file is still a file. *)
Definition grows (fs fs' : gmap string node) : Prop :=
  forall k,
    match fs !! k with
    | Some NDir => fs' !! k = Some NDir
    | Some (NFile _ _) => exists data pm, fs' !! k = Some (NFile data pm)
    | None => True
    end.

(** Every run of [m] takes the world to one related to it by [R]. *)
Definition evolves {A} (R : relation World) (m : M A) : Prop :=
  forall w, R w (m w).2.

(** Nothing disappears from the tree. *)
Definition fs_grows (w w' : World) : Prop := grows (w_fs w) (w_fs w').


(** ** Asset filtering: [Filter] *)

Definition Filter_oses : list string := ["linux"; "windows"; "macos"].
Definition Filter_arches : list string := ["amd64"; "386"; "arm"; "arm64"].

(** The [extensions] map, by kind of artifact. *)
Definition Filter_extensions : gmap string (list string) :=
  <["native" := [""; ".exe"]]>
    (<["archive" := [".zip"; ".tar.gz"; ".tgz"]]>
       (<["wasm" := [".wasm"; ".wasm.zip"; ".wasm.tar.gz"; ".wasm.tgz"]]> ∅)).

(** The base patterns followed by the platform-specific ones, operating
    systems outermost. *)
Definition Filter_patterns (prefix name version : string) : list string :=
  ([ prefix +:+ "-" +:+ name;
     prefix +:+ "-" +:+ name +:+ "-v" +:+ version ]
   ++ (os ← Filter_oses; arch ← Filter_arches;
       [prefix +:+ "-" +:+ name +:+ "-v" +:+ version +:+ "-" +:+ os +:+ "-" +:+ arch]))%list.

(** The set [validAssets]: every pattern with every extension of every
    kind; the order in which Go walks the map does not show in a set. *)
Definition Filter_validAssets (patterns : list string) : gset string :=
  foldl (fun valid pattern =>
           foldl (fun valid (kind : string * list string) =>
                    foldl (fun valid ext => {[pattern +:+ ext]} ∪ valid)
                          valid kind.2)
                 valid (map_to_list Filter_extensions))
        ∅ patterns.

Fixpoint Filter_scan (validAssets : gset string) (assetNames : list string)
  : list string :=
  match assetNames with
  | [] => []
  | asset :: rest =>
      if bool_decide (asset ∈ validAssets)
      then asset :: Filter_scan validAssets rest
      else Filter_scan validAssets rest
  end.

(** [Filter(prefix, name, version, getAssetNames)] *)
Definition Filter (prefix name version : string) (getAssetNames : list string)
  : list string :=
  Filter_scan (Filter_validAssets (Filter_patterns prefix name version))
              getAssetNames.

(** The names [Filter] accepts, in words: the base name, optionally with
    the version, optionally with a platform, and one of nine endings. *)
Definition Filter_endings : list string :=
  [""; ".exe"; ".zip"; ".tar.gz"; ".tgz";
   ".wasm"; ".wasm.zip"; ".wasm.tar.gz"; ".wasm.tgz"].

Definition Filter_accepts (prefix name version asset : string) : Prop :=
  exists ext, ext ∈ Filter_endings
    /\ (asset = prefix +:+ "-" +:+ name +:+ ext
        \/ asset = prefix +:+ "-" +:+ name +:+ "-v" +:+ version +:+ ext
        \/ exists os arch, os ∈ Filter_oses /\ arch ∈ Filter_arches
             /\ asset = prefix +:+ "-" +:+ name +:+ "-v" +:+ version
                        +:+ "-" +:+ os +:+ "-" +:+ arch +:+ ext).

(** Text without the metacharacters of [filepath.Match]. *)
Fixpoint glob_free (s : string) : bool :=
  match s with
  | EmptyString => true
  | String c s' =>
      negb (Ascii.eqb c "*" || Ascii.eqb c "?" || Ascii.eqb c "["
            || Ascii.eqb c backslash)
      && glob_free s'
  end.

(** The full asset names [FindAsset] looks for, most specific first, each
    with the runtime it stands for. *)
Definition exact_candidates (name version goos arch : string)
  : list (string * string) :=
  p ← asset_patterns name version goos arch;
  e ← asset_extensions;
  [(p +:+ e, asset_runtime e)].

(** ** The GitHub store

    The GitHub client library is not part of the repository: the store is
    embedded over a record of the client calls it makes.  A call answers
    with a value, a response and an error, each of which may be nil. *)

Record Reply (A : Type) : Type := {
  reply_value : option A;
  reply_status : option Z;
  reply_err : option error
}.
Arguments reply_value {A} _.
Arguments reply_status {A} _.
Arguments reply_err {A} _.

(** What the getters of a [*github.Repository] return; they are nil-safe,
    so a nil repository reads as one with zero fields. *)
Record Repository : Type := {
  repo_Name : string;
  repo_Description : string;
  repo_OwnerLogin : string;
  repo_StargazersCount : Z;
  repo_HTMLURL : string
}.

Record ReleaseAsset : Type := { asset_Name : string; asset_ID : Z }.

Record RepositoryRelease : Type := {
  release_TagName : string;
  release_Assets : list ReleaseAsset
}.

Record GitHubClient : Type := {
  Repositories_Get : string -> string -> result Repository;
  Repositories_GetLatestRelease : string -> string -> Reply RepositoryRelease;
  Repositories_GetReleaseByTag : string -> string -> string -> Reply RepositoryRelease;
  Repositories_DownloadReleaseAsset : string -> string -> Z -> result Reader;
  Repositories_DownloadContents : string -> string -> string -> Reply Reader;
  Search_Repositories : string -> result (list Repository)
}.

(** The dynamic type of a [StoreConfig] value. *)
Inductive ConfigValue : Type :=
  | CfgString (v : string)
  | CfgOther.

Record GitHubStore : Type := {
  store_topic : string;
  store_prefix : string
}.

(** [NewGitHubStore]: topic and prefix start empty. *)
Definition NewGitHubStore : GitHubStore :=
  {| store_topic := ""; store_prefix := "" |}.

(** [v, ok := config[key].(string)] *)
Definition config_string (config : gmap string ConfigValue) (key : string)
  : string * bool :=
  match config !! key with
  | Some (CfgString v) => (v, true)
  | _ => ("", false)
  end.

(** [Setup(config)]: the outcome and the store as the call leaves it. *)
Definition GitHubStore_Setup (s : GitHubStore) (config : gmap string ConfigValue)
  : result unit * GitHubStore :=
  let '(topic, ok) := config_string config "topic" in
  if negb ok || String.eqb topic "" then (Err (ErrMsg "topic is required"), s)
  else
    let s := {| store_topic := topic; store_prefix := store_prefix s |} in
    let '(prefix, ok) := config_string config "prefix" in
    if negb ok || String.eqb prefix "" then (Err (ErrMsg "prefix is required"), s)
    else (Ok tt, {| store_topic := store_topic s; store_prefix := prefix |}).

(** [strings.Split(s, "/")] *)
Definition strings_Split (s : string) : list string := split_sep EmptyString s.

(** [strings.TrimPrefix(s, prefix)] *)
Definition strings_TrimPrefix (s prefix : string) : string :=
  if strings_HasPrefix s prefix then string_drop (String.length prefix) s else s.

(** The text before and after the first separator. *)
Fixpoint cut_sep (s : string) : option (string * string) :=
  match s with
  | EmptyString => None
  | String c s' =>
      if Ascii.eqb c Separator then Some (EmptyString, s')
      else match cut_sep s' with
           | Some (a, b) => Some (String c a, b)
           | None => None
           end
  end.

(** [strings.SplitN(s, "/", 2)] *)
Definition strings_SplitN2 (s : string) : list string :=
  match cut_sep s with
  | Some (a, b) => [a; b]
  | None => [s]
  end.

(** [io.ReadAll(r)] *)
Definition io_ReadAll (r : Reader) : result string :=
  if r_fail r then Err err_read else Ok (r_data r).

(** The name checks at the head of [Fetch]: owner and repository name. *)
Definition Fetch_names (prefix name : string) : result (string * string) :=
  match strings_Split name with
  | [_; pluginName] =>
      if negb (strings_HasPrefix pluginName prefix) then
        Err (ErrMsg ("plugin name must have second part starting with " +:+ prefix))
      else
        match strings_SplitN2 (strings_TrimPrefix name prefix) with
        | [owner; repoName] => Ok (owner, repoName)
        | _ => Err (ErrMsg ("invalid plugin name format, expected " +:+ prefix
                            +:+ "<owner>/<repo>"))
        end
  | _ => Err (ErrMsg "plugin name must be in format 'owner/name'")
  end.

(** The download loop: the first asset with the matching name. *)
Fixpoint Fetch_download (client : GitHubClient) (owner repoName matched : string)
    (assets : list ReleaseAsset) : result ContentValue :=
  match assets with
  | [] => Ok (COther "<nil>")
  | asset :: rest =>
      if String.eqb (asset_Name asset) matched then
        match Repositories_DownloadReleaseAsset client owner repoName (asset_ID asset) with
        | Ok rc =>
            match io_ReadAll rc with
            | Ok data => Ok (CBytes data)
            | Err e => Err (ErrWrap "failed to read asset content" e)
            | Panic => Panic
            end
        | Err e => Err (ErrWrap "failed to download asset" e)
        | Panic => Panic
        end
      else Fetch_download client owner repoName matched rest
  end.

Definition github_metadata (repo : Repository) : gmap string string :=
  <["owner" := repo_OwnerLogin repo]>
    (<["stars" := pretty (repo_StargazersCount repo)]>
       {["repository" := repo_HTMLURL repo]}).

(** [Fetch(ctx, name, version)] on a machine whose [runtime.GOOS] and
    [runtime.GOARCH] are [goos] and [goarch]. *)
Definition GitHubStore_Fetch (s : GitHubStore) (client : GitHubClient)
    (goos goarch : string) (name version : string) : result Info :=
  match Fetch_names (store_prefix s) name with
  | Ok (owner, repoName) =>
      match Repositories_Get client owner repoName with
      | Ok repo =>
          let reply :=
            if String.eqb version "" || String.eqb version "latest"
            then (Repositories_GetLatestRelease client owner repoName,
                  "failed to fetch latest release")
            else (Repositories_GetReleaseByTag client owner repoName version,
                  "failed to fetch release by tag") in
          match reply_err reply.1 with
          | Some e => Err (ErrWrap reply.2 e)
          | None =>
              let finish (releaseVersion rt : string) (content : ContentValue) :=
                Ok {| Name := repo_Name repo;
                      FileName := "";
                      Version := releaseVersion;
                      Description := repo_Description repo;
                      Store := "github";
                      Runtime := rt;
                      Metadata := github_metadata repo;
                      Status := "";
                      Content := content |} in
              match reply_value reply.1 with
              | Some release =>
                  let releaseVersion := release_TagName release in
                  match FindAsset filepath_Match (store_prefix s) repoName
                          releaseVersion goos goarch
                          (asset_Name <$> release_Assets release) with
                  | Ok (matched, rtAsset) =>
                      match Fetch_download client owner repoName matched
                              (release_Assets release) with
                      | Ok content => finish releaseVersion rtAsset content
                      | Err e => Err e
                      | Panic => Panic
                      end
                  | Err e => Err e
                  | Panic => Panic
                  end
              | None =>
                  let contents :=
                    Repositories_DownloadContents client owner repoName
                      (store_prefix s +:+ "-" +:+ repoName) in
                  match reply_err contents, reply_status contents with
                  | None, None => Panic
                  | None, Some status =>
                      if (status =? 200)%Z then
                        match reply_value contents with
                        | None => Panic
                        | Some rc =>
                            match io_ReadAll rc with
                            | Ok data => finish "main" "exec" (CBytes data)
                            | Err e => Err (ErrWrap "failed to read content" e)
                            | Panic => Panic
                            end
                        end
                      else Err (ErrMsg "no release or root executable found")
                  | Some _, _ => Err (ErrMsg "no release or root executable found")
                  end
              end
          end
      | Err e => Err (ErrWrap "failed to fetch repository" e)
      | Panic => Panic
      end
  | Err e => Err e
  | Panic => Panic
  end.

(** The loop of [Search] over the repositories found. *)
Fixpoint Search_repositories (s : GitHubStore) (client : GitHubClient)
    (repos : list Repository) (plugins : list Info) : result (list Info) :=
  match repos with
  | [] => Ok plugins
  | repo :: rest =>
      let reply :=
        Repositories_GetLatestRelease client (repo_OwnerLogin repo) (repo_Name repo) in
      match reply_err reply with
      | Some _ =>
          match reply_status reply with
          | None => Panic
          | Some _ => Search_repositories s client rest plugins
          end
      | None =>
          match reply_value reply with
          | None => Panic
          | Some release =>
              let validAssets :=
                Filter (store_prefix s) (repo_Name repo) (release_TagName release)
                       (asset_Name <$> release_Assets release) in
              let runtime :=
                if existsb (fun asset => strings_HasSuffix asset ".wasm") validAssets
                then "wasm" else "exec" in
              Search_repositories s client rest
                (plugins ++ [{| Name := repo_Name repo;
                                FileName := "";
                                Version := release_TagName release;
                                Description := repo_Description repo;
                                Store := "github";
                                Runtime := runtime;
                                Metadata := github_metadata repo;
                                Status := "";
                                Content := COther "<nil>" |}])
          end
      end
  end.

(** [Search(ctx, criteria)] *)
Definition GitHubStore_Search (s : GitHubStore) (client : GitHubClient)
    (criteria : gmap string string) : result (list Info) :=
  if String.eqb (store_topic s) "" then
    Err (ErrMsg "store not properly initialized: topic is empty")
  else
    match Search_Repositories client
            ("topic:" +:+ store_topic s +:+ " fork:false") with
    | Ok repos => Search_repositories s client repos []
    | Err e => Err (ErrWrap "failed to search repositories" e)
    | Panic => Panic
    end.

(** The store as the manager sees it. *)
Definition GitHubStore_store (s : GitHubStore) (client : GitHubClient)
    (goos goarch : string) : PluginStore :=
  {| store_Fetch := GitHubStore_Fetch s client goos goarch |}.

(** A GitHub with two repositories under the topic: one with a release
    for Linux and WebAssembly, one whose release lookup is refused. *)
Definition sample_repo (name : string) (stars : Z) : Repository :=
  {| repo_Name := name; repo_Description := "a sample plugin";
     repo_OwnerLogin := "acme"; repo_StargazersCount := stars;
     repo_HTMLURL := "https://github.com/acme/" +:+ name |}.

Definition sample_release : RepositoryRelease :=
  {| release_TagName := "1.0.0";
     release_Assets :=
       [ {| asset_Name := "dashboard-tool-1.0.0-linux-amd64.sha256"; asset_ID := 1 |};
         {| asset_Name := "dashboard-tool-1.0.0-linux-amd64"; asset_ID := 2 |};
         {| asset_Name := "dashboard-dashboard-tool-v1.0.0.wasm"; asset_ID := 3 |} ] |}.

Definition sample_client : GitHubClient :=
  {| Repositories_Get := fun owner repo =>
       if String.eqb repo "dashboard-tool" then Ok (sample_repo repo 42)
       else Err (ErrMsg "404 Not Found");
     Repositories_GetLatestRelease := fun owner repo =>
       if String.eqb repo "dashboard-tool"
       then {| reply_value := Some sample_release; reply_status := Some 200%Z;
               reply_err := None |}
       else {| reply_value := None; reply_status := Some 404%Z;
               reply_err := Some (ErrMsg "404 Not Found") |};
     Repositories_GetReleaseByTag := fun owner repo tag =>
       {| reply_value := None; reply_status := Some 404%Z;
          reply_err := Some (ErrMsg "404 Not Found") |};
     Repositories_DownloadReleaseAsset := fun owner repo id =>
       Ok (bytes_NewReader "binary");
     Repositories_DownloadContents := fun owner repo path =>
       {| reply_value := None; reply_status := Some 404%Z;
          reply_err := Some (ErrMsg "404 Not Found") |};
     Search_Repositories := fun query =>
       Ok [sample_repo "dashboard-draft" 0; sample_repo "dashboard-tool" 42] |}.

Definition sample_github : GitHubStore :=
  {| store_topic := "dashboard-plugin"; store_prefix := "dashboard" |}.

(** ** The native executor

    [NativeExecutor.Execute] runs the file at
    [filepath.Join(e.pluginDir, pluginName, pluginName)]. *)
Definition Execute_pluginPath (pluginDir pluginName : string) : string :=
  filepath_Join [pluginDir; pluginName; pluginName].

(** The installed plugin on a system whose eighth and ninth fallible
    system calls fail: in [Upgrade] these are the second rename and the
    restore of the backup. *)
Definition restore_fails : World :=
  {| w_fs := w_fs installed_world;
     w_faults := [false; false; false; false; false; false; false; true; true];
     w_ctx := None;
     w_now := "2024-02-03T04:05:06Z" |}.

(* ===================================================================== *)
(** * Part II. Properties                                                 *)
(* ===================================================================== *)

(** ** Strings *)

Lemma app_cons (c : ascii) (a b : string) :
  String c a +:+ b = String c (a +:+ b).
Proof. reflexivity. Qed.

Lemma app_nil_l (b : string) : "" +:+ b = b.
Proof. reflexivity. Qed.

Lemma string_app_assoc (a b c : string) : (a +:+ b) +:+ c = a +:+ (b +:+ c).
Proof.
  induction a as [|x a IH]; [done|]. by rewrite !app_cons, IH.
Qed.

Lemma string_app_nil_r (a : string) : a +:+ "" = a.
Proof. induction a as [|x a IH]; [done|]. by rewrite app_cons, IH. Qed.

Lemma string_app_inv_head (a b c : string) : a +:+ b = a +:+ c -> b = c.
Proof.
  induction a as [|x a IH]; [done|]. rewrite !app_cons. intros [= H]. auto.
Qed.

Lemma string_app_length (a b : string) :
  String.length (a +:+ b) = (String.length a + String.length b)%nat.
Proof.
  induction a as [|x a IH]; [done|]. rewrite app_cons. simpl. by rewrite IH.
Qed.

Lemma HasPrefix_app (p r : string) : strings_HasPrefix (p +:+ r) p = true.
Proof.
  induction p as [|c p IH]; [done|].
  rewrite app_cons. simpl. by rewrite Ascii.eqb_refl, IH.
Qed.

Lemma HasPrefix_inv (s p : string) :
  strings_HasPrefix s p = true -> exists r, s = p +:+ r.
Proof.
  revert s. induction p as [|c p IH]; intros s H; simpl in *.
  - by exists s.
  - destruct s as [|d s]; [done|].
    apply andb_true_iff in H as [Hc Hp].
    apply Ascii.eqb_eq in Hc as ->.
    destruct (IH _ Hp) as [r ->]. by exists r.
Qed.

Lemma HasPrefix_iff (s p : string) :
  strings_HasPrefix s p = true <-> exists r, s = p +:+ r.
Proof.
  split; [apply HasPrefix_inv|]. intros [r ->]. apply HasPrefix_app.
Qed.

Lemma HasPrefix_trans (s p q : string) :
  strings_HasPrefix s p = true -> strings_HasPrefix p q = true ->
  strings_HasPrefix s q = true.
Proof.
  intros [r ->]%HasPrefix_inv [r' ->]%HasPrefix_inv.
  rewrite string_app_assoc. apply HasPrefix_app.
Qed.

(** ** Asset resolution *)

Section FindAsset_facts.
Variable Match : string -> string -> bool.

Lemma valid_assets_filter name assets :
  valid_assets name assets = List.filter (asset_kept name) assets.
Proof.
  induction assets as [|a l IH]; simpl; [done|].
  destruct (asset_kept name a); by rewrite IH.
Qed.

Lemma valid_assets_elem name assets a :
  a ∈ valid_assets name assets -> a ∈ assets /\ asset_kept name a = true.
Proof.
  induction assets as [|b l IH]; simpl; [by intros ?%elem_of_nil|].
  destruct (asset_kept name b) eqn:E.
  - intros [->|H]%elem_of_cons; [split; [left|done]|].
    destruct (IH H); split; [by right|done].
  - intros H. destruct (IH H); split; [by right|done].
Qed.

Lemma scan_assets_elem pattern ext valid a rt :
  scan_assets Match pattern ext valid = Some (a, rt) -> a ∈ valid.
Proof.
  induction valid as [|b l IH]; simpl; [done|].
  destruct (Match _ b); [intros [= -> _]; left | intros H; right; auto].
Qed.

Lemma scan_extensions_elem pattern exts valid a rt :
  scan_extensions Match pattern exts valid = Some (a, rt) -> a ∈ valid.
Proof.
  induction exts as [|e l IH]; simpl; [done|].
  destruct (scan_assets Match pattern e valid) as [[a' rt']|] eqn:E; [|done].
  intros [= -> ->]. eauto using scan_assets_elem.
Qed.

Lemma scan_patterns_elem patterns exts valid a rt :
  scan_patterns Match patterns exts valid = Some (a, rt) -> a ∈ valid.
Proof.
  induction patterns as [|p l IH]; simpl; [done|].
  destruct (scan_extensions Match p exts valid) as [[a' rt']|] eqn:E; [|done].
  intros [= -> ->]. eauto using scan_extensions_elem.
Qed.

Lemma find_app_first {A} (f : A -> bool) (l1 l2 : list A) :
  List.find f (l1 ++ l2) =
  match List.find f l1 with Some x => Some x | None => List.find f l2 end.
Proof.
  induction l1 as [|x l1 IH]; simpl; [done|]. by destruct (f x).
Qed.

Lemma scan_assets_find pattern ext valid :
  scan_assets Match pattern ext valid =
  triple_result <$> List.find (triple_matches Match) (a ← valid; [(pattern, ext, a)]).
Proof.
  induction valid as [|a l IH]; simpl; [done|].
  unfold triple_matches at 1; simpl.
  destruct (Match (pattern +:+ ext) a); [done|]. apply IH.
Qed.

Lemma scan_extensions_find pattern exts valid :
  scan_extensions Match pattern exts valid =
  triple_result <$>
    List.find (triple_matches Match) (e ← exts; a ← valid; [(pattern, e, a)]).
Proof.
  induction exts as [|e l IH]; simpl; [done|].
  rewrite find_app_first, scan_assets_find.
  destruct (List.find (triple_matches Match) (a ← valid; [(pattern, e, a)]));
    simpl; [done|]. apply IH.
Qed.

Lemma scan_patterns_find patterns exts valid :
  scan_patterns Match patterns exts valid =
  triple_result <$> List.find (triple_matches Match) (search_triples patterns exts valid).
Proof.
  induction patterns as [|p l IH]; simpl; [done|].
  unfold search_triples; simpl. rewrite find_app_first, scan_extensions_find.
  destruct (List.find (triple_matches Match) (e ← exts; a ← valid; [(p, e, a)]));
    simpl; [done|]. apply IH.
Qed.

Lemma FindAsset_refines_spec prefix name version goos arch assets :
  FindAsset Match prefix name version goos arch assets =
  FindAsset_spec Match prefix name version goos arch assets.
Proof.
  unfold FindAsset, FindAsset_spec.
  rewrite valid_assets_filter.
  destruct (List.filter (asset_kept name) assets) as [|a l] eqn:E; [done|].
  simpl length. simpl Nat.eqb. cbv iota.
  rewrite scan_patterns_find. fold (triple_matches Match).
  by destruct (List.find (triple_matches Match) _).
Qed.

End FindAsset_facts.

(** C5. [FindAsset] searches the patterns [{name}-{version}-{os}-{arch}],
    [{name}-{version}], [{name}], each crossed with the extensions
    [""], [".exe"], [".zip"], [".tar.gz"], [".tgz"], [".wasm"] in that
    order, scanning the filtered candidates in input order, and returns the
    first match: it computes the same result as the first-match search over
    the triples in that order.  On the assets
    ["tool-1.0.0-linux-amd64.tar.gz"; "tool-1.0.0.zip"; "tool"] with
    name "tool", version "1.0.0", os "linux", arch "amd64" it returns
    ("tool-1.0.0-linux-amd64.tar.gz", "exec"). *)
Theorem C5_FindAsset_first_match :
  (forall Match prefix name version goos arch assets,
      asset_patterns name version goos arch =
        [name +:+ "-" +:+ version +:+ "-" +:+ goos +:+ "-" +:+ arch;
         name +:+ "-" +:+ version; name]
      /\ asset_extensions = [""; ".exe"; ".zip"; ".tar.gz"; ".tgz"; ".wasm"]
      /\ FindAsset Match prefix name version goos arch assets =
         FindAsset_spec Match prefix name version goos arch assets)
  /\ (forall prefix,
      FindAsset filepath_Match prefix "tool" "1.0.0" "linux" "amd64"
        ["tool-1.0.0-linux-amd64.tar.gz"; "tool-1.0.0.zip"; "tool"]
      = Ok ("tool-1.0.0-linux-amd64.tar.gz", "exec")).
Proof.
  split.
  - intros. split; [done|]. split; [done|]. apply FindAsset_refines_spec.
  - intros prefix. vm_compute. reflexivity.
Qed.

(** C6. Whenever [FindAsset] returns an asset name, that name is one of the
    candidates, starts with the requested plugin name and ends with none of
    [.sha256], [.asc], [.sig]; and when no candidate passes this filter,
    [FindAsset] fails with the no-candidates error. *)
Theorem C6_FindAsset_respects_filter Match prefix name version goos arch assets :
  (forall a rt,
      FindAsset Match prefix name version goos arch assets = Ok (a, rt) ->
      a ∈ assets
      /\ strings_HasPrefix a name = true
      /\ strings_HasSuffix a ".sha256" = false
      /\ strings_HasSuffix a ".asc" = false
      /\ strings_HasSuffix a ".sig" = false)
  /\ ((forall a, a ∈ assets ->
          strings_HasPrefix a name = false
          \/ strings_HasSuffix a ".sha256" = true
          \/ strings_HasSuffix a ".asc" = true
          \/ strings_HasSuffix a ".sig" = true) ->
      FindAsset Match prefix name version goos arch assets =
      Err (ErrMsg ("no valid assets found for " +:+ prefix +:+ "-" +:+ name))).
Proof.
  split.
  - intros a rt. unfold FindAsset.
    destruct (length _ =? 0)%nat; [done|].
    destruct (scan_patterns _ _ _ _) as [[a' rt']|] eqn:E; [|done].
    intros [= -> ->].
    apply scan_patterns_elem, valid_assets_elem in E as [Hin Hk].
    split; [done|]. unfold asset_kept in Hk.
    apply negb_true_iff in Hk.
    repeat (apply orb_false_iff in Hk as [Hk ?]).
    apply negb_false_iff in Hk. done.
  - intros Hnone. unfold FindAsset.
    assert (valid_assets name assets = []) as ->; [|done].
    destruct (valid_assets name assets) as [|a l] eqn:E; [done|].
    assert (a ∈ valid_assets name assets) as Ha by (rewrite E; left).
    apply valid_assets_elem in Ha as [Hin Hk].
    unfold asset_kept in Hk. apply negb_true_iff in Hk.
    repeat (apply orb_false_iff in Hk as [Hk ?]).
    apply negb_false_iff in Hk.
    destruct (Hnone a Hin) as [?|[?|[?|?]]]; congruence.
Qed.

Lemma C6_FindAsset_respects_filter_witness :
  (forall a, a ∈ ["tool.sig"; "other-1.0.0"] ->
      strings_HasPrefix a "tool" = false
      \/ strings_HasSuffix a ".sha256" = true
      \/ strings_HasSuffix a ".asc" = true
      \/ strings_HasSuffix a ".sig" = true)
  /\ FindAsset filepath_Match "dashboard" "tool" "1.0.0" "linux" "amd64"
       ["tool.sig"; "other-1.0.0"]
     = Err (ErrMsg "no valid assets found for dashboard-tool")
  /\ (forall a rt,
       FindAsset filepath_Match "dashboard" "tool" "1.0.0" "linux" "amd64"
         ["tool.wasm"; "tool.wasm.sig"] = Ok (a, rt) ->
       strings_HasPrefix a "tool" = true).
Proof.
  assert (forall a, a ∈ ["tool.sig"; "other-1.0.0"] ->
      strings_HasPrefix a "tool" = false
      \/ strings_HasSuffix a ".sha256" = true
      \/ strings_HasSuffix a ".asc" = true
      \/ strings_HasSuffix a ".sig" = true) as H.
  { intros a Ha. apply elem_of_cons in Ha as [->|Ha]; [right; right; right; reflexivity|].
    apply elem_of_cons in Ha as [->|Ha]; [left; reflexivity|].
    by apply elem_of_nil in Ha. }
  split; [exact H|]. split.
  - exact (proj2 (C6_FindAsset_respects_filter filepath_Match "dashboard" "tool"
                    "1.0.0" "linux" "amd64" ["tool.sig"; "other-1.0.0"]) H).
  - intros a rt Hr.
    exact (proj1 (proj2 (proj1 (C6_FindAsset_respects_filter filepath_Match
             "dashboard" "tool" "1.0.0" "linux" "amd64"
             ["tool.wasm"; "tool.wasm.sig"]) a rt Hr))).
Defined.

(** ** Running calls *)

Lemma run_bind {A B} (m : M A) (f : A -> M B) (w : World) :
  (m ≫= f) w =
  match m w with
  | (Ok a, w') => f a w'
  | (Err e, w') => (Err e, w')
  | (Panic, w') => (Panic, w')
  end.
Proof. reflexivity. Qed.

Lemma bind_Ok {A B} (m : M A) (f : A -> M B) (w w' : World) (b : B) :
  (m ≫= f) w = (Ok b, w') ->
  exists a w1, m w = (Ok a, w1) /\ f a w1 = (Ok b, w').
Proof.
  rewrite run_bind. destruct (m w) as [[a|e|] w1]; [eauto|done..].
Qed.

Lemma wrap_Ok {A} (msg : string) (m : M A) (w w' : World) (a : A) :
  wrap msg m w = (Ok a, w') -> m w = (Ok a, w').
Proof. unfold wrap. by destruct (m w) as [[?|?|] ?]. Qed.

Lemma lift_Ok {A} (r : result A) (w w' : World) (a : A) :
  lift r w = (Ok a, w') -> r = Ok a /\ w' = w.
Proof. unfold lift. by intros [= -> ->]. Qed.

Lemma syscall_Ok {A} (op : gmap string node -> result (A * gmap string node))
    (w w' : World) (a : A) :
  syscall op w = (Ok a, w') ->
  next_fault w = false /\ op (w_fs w) = Ok (a, w_fs w')
  /\ w' = set_fs (w_fs w') (pop_fault w).
Proof.
  unfold syscall. destruct (next_fault w); [done|].
  destruct (op (w_fs w)) as [[a' fs']|e|]; [|done..].
  by intros [= -> <-].
Qed.

Lemma syscall_fs {A} (op : gmap string node -> result (A * gmap string node))
    (w : World) :
  w_fs (syscall op w).2 = w_fs w
  \/ exists a, op (w_fs w) = Ok (a, w_fs (syscall op w).2).
Proof.
  unfold syscall. destruct (next_fault w); [by left|].
  destruct (op (w_fs w)) as [[a' fs']|e|]; simpl; [right; eauto|by left..].
Qed.

(** ** Removing a tree *)


Lemma fs_remove_all_lookup (p k : string) (fs : gmap string node) :
  fs_remove_all p fs !! k = if inside p k then None else fs !! k.
Proof.
  unfold fs_remove_all. destruct (inside p k) eqn:E.
  - apply map_lookup_filter_None. right. intros x _. simpl. congruence.
  - destruct (fs !! k) as [x|] eqn:Hk.
    + apply map_lookup_filter_Some. done.
    + apply map_lookup_filter_None. by left.
Qed.


(** ** Paths *)

Lemma filepath_Clean_nonempty (s : string) : filepath_Clean s <> "".
Proof.
  unfold filepath_Clean. destruct (is_rooted s); [done|].
  destruct (String.eqb _ "") eqn:E; [done|]. by apply String.eqb_neq in E.
Qed.


(** ** Install *)

Lemma Install_unfold lib m name version w :
  Install lib m name version w =
  if ctx_done w then
    (Err (ErrWrap "context cancelled before installation" ErrCanceled), ctx_tick w)
  else if String.eqb (pluginDir m) "" then
    (Err (ErrMsg "no valid plugin directory found"), ctx_tick w)
  else
    let pdir := filepath_Join [pluginDir m; name] in
    match fs_stat (w_fs w) pdir with
    | Some _ =>
        (Err (ErrMsg ("plugin " +:+ name +:+ " is already installed")), ctx_tick w)
    | None => defer_cleanup pdir (Install_steps lib m name version pdir) (ctx_tick w)
    end.
Proof.
  unfold Install. rewrite run_bind. unfold ctx_Err.
  destruct (ctx_done w); [done|].
  destruct (String.eqb (pluginDir m) ""); [done|].
  unfold os_Stat. simpl. by destruct (fs_stat (w_fs w) _).
Qed.


Lemma string_drop_nil (n : nat) : string_drop n "" = "".
Proof. by destruct n. Qed.

Lemma overwrite_empty (data : string) : overwrite "" data = data.
Proof. unfold overwrite. by rewrite string_drop_nil, string_app_nil_r. Qed.

Lemma fs_open_create_Ok trunc p perm fs fs' :
  fs_open_create trunc p perm fs = Ok fs' ->
  (exists data pm, fs !! p = Some (NFile data pm)
      /\ fs' = if trunc then <[p := NFile "" pm]> fs else fs)
  \/ (fs_stat fs p = None /\ fs' = <[p := NFile "" perm]> fs).
Proof.
  unfold fs_open_create. destruct (String.eqb p ""); [done|].
  destruct (fs_stat fs p) as [[data pm|]|] eqn:E; [| done |].
  - intros [= <-]. left. exists data, pm. split; [|done].
    unfold fs_stat in E. by destruct (is_implicit_dir p).
  - destruct (fs_stat fs (path_parent p)) as [[]|]; [done| |done].
    intros [= <-]. by right.
Qed.

Lemma os_WriteFile_Ok p data perm w w' :
  os_WriteFile p data perm w = (Ok tt, w') ->
  exists pm, w_fs w' = <[p := NFile data pm]> (w_fs w)
    /\ w_now w' = w_now w /\ w_ctx w' = w_ctx w.
Proof.
  unfold os_WriteFile. intros (_ & Hop & ->)%syscall_Ok.
  unfold unit_op in Hop.
  destruct (fs_open_create true p perm (w_fs w)) as [fs1| |] eqn:E1; [|done..].
  destruct (fs_write_at p data fs1) as [fs2| |] eqn:E2; [|done..].
  injection Hop as <-.
  unfold fs_write_at in E2.
  apply fs_open_create_Ok in E1 as [(old & pm & Hold & ->)|[Hnone ->]].
  - rewrite lookup_insert_eq in E2. injection E2 as <-.
    exists pm. by rewrite overwrite_empty, insert_insert_eq.
  - rewrite lookup_insert_eq in E2. injection E2 as <-.
    exists perm. by rewrite overwrite_empty, insert_insert_eq.
Qed.

Lemma writePluginFiles_Ok_info lib dir info w info' w' :
  writePluginFiles lib dir info w = (Ok info', w') ->
  exists c, info' = set_Content c info.
Proof.
  unfold writePluginFiles.
  intros (_ & w1 & _ & H)%bind_Ok.
  apply bind_Ok in H as ([ct i1] & w2 & Hct & H).
  assert (exists c, i1 = set_Content c info) as [c ->].
  { destruct (Content info) as [v|v|v|t] eqn:Ec.
    - apply lift_Ok in Hct as [[= <- <-] _].
      exists (CString v). destruct info; simpl in *; by subst.
    - apply lift_Ok in Hct as [[= <- <-] _].
      exists (CBytes v). destruct info; simpl in *; by subst.
    - destruct (reader_Read 512 v) as [[sn fl] rest].
      destruct fl; [done|]. destruct (r_seekable v).
      + apply lift_Ok in Hct as [[= <- <-] _].
        exists (CReader v). destruct info; simpl in *; by subst.
      + apply lift_Ok in Hct as [[= <- <-] _]. eauto.
    - done. }
  apply bind_Ok in H as (rd & w3 & _ & H).
  apply bind_Ok in H as (bf & w4 & _ & H).
  destruct (fileProcessorMap ct).
  - apply bind_Ok in H as (rd' & w5 & _ & H).
    apply bind_Ok in H as (? & w6 & _ & H).
    apply lift_Ok in H as [[= <-] _]. eauto.
  - apply bind_Ok in H as (? & w5 & _ & H).
    apply lift_Ok in H as [[= <-] _]. eauto.
Qed.

(** The record that a successful [Install] leaves behind: the encoding of
    the fetched record with the version, the status and the metadata
    replaced. *)
Lemma Install_record_written lib m name version w w' :
  Install lib m name version w = (Ok tt, w') ->
  exists fetched info data pm,
    store_Fetch (store m) name version = Ok fetched
    /\ json_MarshalIndent lib info = Ok data
    /\ w_fs w' !! filepath_Join [filepath_Join [pluginDir m; name]; "metadata.json"]
       = Some (NFile data pm)
    /\ Version info = version
    /\ Metadata info = {["installed" := w_now w']}
    /\ Status info = "enabled"
    /\ Name info = Name fetched /\ FileName info = FileName fetched
    /\ Description info = Description fetched
    /\ Store info = Store fetched /\ Runtime info = Runtime fetched.
Proof.
  rewrite Install_unfold. cbv zeta.
  destruct (ctx_done w); [done|].
  destruct (String.eqb (pluginDir m) ""); [done|].
  destruct (fs_stat (w_fs w) _); [done|].
  unfold defer_cleanup.
  destruct (Install_steps _ _ _ _ _ _) as [[[]|e|] wb] eqn:Hsteps; [|done..].
  intros [= <-]. unfold Install_steps in Hsteps.
  apply bind_Ok in Hsteps as (_ & w1 & _ & H).
  apply bind_Ok in H as (fetched & w2 & Hf & H).
  apply wrap_Ok, lift_Ok in Hf as [Hf ->].
  apply bind_Ok in H as (i1 & w3 & Hw & H).
  apply wrap_Ok, writePluginFiles_Ok_info in Hw as [c ->].
  apply bind_Ok in H as (now & w4 & Hnow & H).
  injection Hnow as <- <-.
  apply bind_Ok in H as (data & w5 & Hm & H).
  apply wrap_Ok, lift_Ok in Hm as [Hm ->].
  apply wrap_Ok, os_WriteFile_Ok in H as (pm & Hfs & Hnow & _).
  eexists fetched, _, data, pm. split; [done|]. split; [exact Hm|].
  split; [by rewrite Hfs, lookup_insert_eq|].
  simpl. by rewrite Hnow.
Qed.

(** C9. After a successful [Install(name, version)] the record stored at
    [<pluginRoot>/<name>/metadata.json] is the encoding of a record whose
    version is the caller's version string as given (whatever version the
    store reported), whose status is "enabled", and whose metadata map is
    exactly the single entry "installed" with the clock reading: the
    metadata the store attached is gone.  The descriptive fields are those
    of the fetched record. *)
Theorem C9_Install_record lib m name version w w' :
  Install lib m name version w = (Ok tt, w') ->
  exists fetched info data pm,
    store_Fetch (store m) name version = Ok fetched
    /\ json_MarshalIndent lib info = Ok data
    /\ w_fs w' !! filepath_Join [filepath_Join [pluginDir m; name]; "metadata.json"]
       = Some (NFile data pm)
    /\ Version info = version
    /\ Metadata info = {["installed" := w_now w']}
    /\ Status info = "enabled"
    /\ Name info = Name fetched /\ FileName info = FileName fetched
    /\ Description info = Description fetched
    /\ Store info = Store fetched /\ Runtime info = Runtime fetched.
Proof. apply Install_record_written. Qed.


Lemma C9_Install_record_witness :
  let lib := sample_lib [] ([], None) in
  let m := sample_manager (sample_info "tool" "tool.bin" "9.9.9" (CString "hello")) in
  let w := sample_world ∅ in
  Install lib m "tool" "latest" w = (Ok tt, (Install lib m "tool" "latest" w).2)
  /\ exists fetched info data pm,
    store_Fetch (store m) "tool" "latest" = Ok fetched
    /\ json_MarshalIndent lib info = Ok data
    /\ w_fs (Install lib m "tool" "latest" w).2
         !! filepath_Join [filepath_Join [pluginDir m; "tool"]; "metadata.json"]
       = Some (NFile data pm)
    /\ Version info = "latest"
    /\ Metadata info = {["installed" := w_now (Install lib m "tool" "latest" w).2]}
    /\ Status info = "enabled"
    /\ Name info = Name fetched /\ FileName info = FileName fetched
    /\ Description info = Description fetched
    /\ Store info = Store fetched /\ Runtime info = Runtime fetched.
Proof.
  intros lib m w.
  assert (Install lib m "tool" "latest" w
          = (Ok tt, (Install lib m "tool" "latest" w).2)) as H.
  { rewrite (surjective_pairing (Install lib m "tool" "latest" w)) at 1.
    f_equal. }
  split; [exact H|].
  exact (C9_Install_record lib m "tool" "latest" w _ H).
Defined.

(** ** Upgrade *)

Lemma Upgrade_unfold lib m name version w :
  let pdir := filepath_Join [pluginDir m; name] in
  Upgrade lib m name version w =
  if ctx_done w then
    (Err (ErrWrap "context cancelled before upgrade" ErrCanceled), ctx_tick w)
  else
    match fs_stat (w_fs w) pdir, lookup_errno (w_fs w) pdir with
    | None, ENOENT =>
        (Err (ErrMsg ("plugin " +:+ name +:+ " is not installed")), ctx_tick w)
    | _, _ =>
        match wrap "failed to read current plugin metadata"
                (readMetadata lib (filepath_Join [pdir; "metadata.json"]))
                (ctx_tick w) with
        | (Ok currentInfo, w1) =>
            if String.eqb (Version currentInfo) version then
              (Err (ErrMsg ("plugin " +:+ name +:+ " is already at version "
                            +:+ version)), w1)
            else Upgrade_steps lib m name version pdir currentInfo w1
        | (Err e, w1) => (Err e, w1)
        | (Panic, w1) => (Panic, w1)
        end
    end.
Proof.
  intros pdir. unfold Upgrade. rewrite run_bind. unfold ctx_Err.
  destruct (ctx_done w); [done|]. fold pdir.
  unfold os_Stat. simpl.
  destruct (fs_stat (w_fs w) pdir) as [n|]; simpl.
  - rewrite run_bind.
    destruct (wrap _ _ _) as [[a|?|] ?]; [|done..].
    by destruct (String.eqb _ _).
  - destruct (lookup_errno (w_fs w) pdir); try done;
      rewrite run_bind;
      (destruct (wrap _ _ _) as [[a|?|] ?]; [|done..]);
      by destruct (String.eqb _ _).
Qed.

Lemma Upgrade_past_checks_run lib m name version w cur w1 :
  Upgrade_past_checks lib m name version w cur w1 ->
  Upgrade lib m name version w =
  Upgrade_steps lib m name version (filepath_Join [pluginDir m; name]) cur w1.
Proof.
  intros (Hctx & Hstat & Hread & Hver).
  rewrite Upgrade_unfold. cbv zeta. rewrite Hctx.
  unfold wrap. rewrite Hread.
  apply String.eqb_neq in Hver. rewrite Hver.
  unfold os_Stat in Hstat. simpl in Hstat.
  destruct (fs_stat _ _); [done|].
  destruct (lookup_errno _ _); done.
Qed.

Lemma upgrade_dir_proper (p suffix : string) :
  (2 <= String.length suffix)%nat ->
  p +:+ suffix <> "" /\ is_implicit_dir (p +:+ suffix) = false.
Proof.
  intros Hlen.
  assert (forall s, (String.length s <= 1)%nat -> p +:+ suffix <> s) as H.
  { intros s Hs Heq. apply (f_equal String.length) in Heq.
    rewrite string_app_length in Heq. lia. }
  split; [apply H; simpl; lia|].
  unfold is_implicit_dir. apply orb_false_iff.
  split; apply String.eqb_neq, H; simpl; lia.
Qed.


(** ** Effects of the system calls *)

Lemma fs_stat_None fs p : fs_stat fs p = None -> fs !! p = None.
Proof. unfold fs_stat. by destruct (is_implicit_dir p). Qed.

Lemma fs_mkdir_Ok p fs fs' :
  fs_mkdir p fs = Ok fs' -> fs_stat fs p = None /\ fs' = <[p := NDir]> fs.
Proof.
  unfold fs_mkdir. destruct (String.eqb p ""); [done|].
  destruct (fs_stat fs p); [done|].
  destruct (fs_stat fs (path_parent p)) as [[]|]; [done| |done].
  by intros [= <-].
Qed.

Lemma fs_mkdir_all_frame chain fs fs' :
  fs_mkdir_all chain fs = Ok fs' ->
  forall k, fs' !! k = fs !! k
            \/ (fs !! k = None /\ fs' !! k = Some NDir /\ k ∈ chain).
Proof.
  revert fs'. induction chain as [|p parents IH]; intros fs' H k; simpl in H.
  - injection H as <-. by left.
  - destruct (fs_stat fs p) as [[]|] eqn:Ep; [done| |].
    + injection H as <-. by left.
    + destruct (fs_mkdir_all parents fs) as [fs1| |] eqn:E1; [|done..].
      assert (forall j, fs1 !! j = fs !! j
                \/ (fs !! j = None /\ fs1 !! j = Some NDir /\ j ∈ p :: parents))
        as IH1.
      { intros j. destruct (IH _ eq_refl j) as [?|(?&?&?)]; [by left|].
        right. split_and!; [done..|by right]. }
      destruct (fs_mkdir p fs1) as [fs2|e|] eqn:E2.
      * injection H as <-. apply fs_mkdir_Ok in E2 as [Hn ->].
        destruct (decide (k = p)) as [->|Hne].
        -- right. rewrite lookup_insert_eq. split_and!; [|done|by left].
           by apply fs_stat_None.
        -- rewrite lookup_insert_ne by done. apply IH1.
      * destruct (fs_stat fs1 p) as [[]|]; [done| |done].
        injection H as <-. apply IH1.
      * done.
Qed.

Lemma os_MkdirAll_Ok p perm w w' :
  os_MkdirAll p perm w = (Ok tt, w') ->
  fs_mkdir_all (mkdir_chain p) (w_fs w) = Ok (w_fs w').
Proof.
  unfold os_MkdirAll. intros (_ & Hop & _)%syscall_Ok.
  unfold unit_op in Hop. destruct (fs_mkdir_all _ _); by simplify_eq.
Qed.

Lemma os_OpenFile_Ok p perm w f w' :
  os_OpenFile p perm w = (Ok f, w') ->
  f = p /\ fs_open_create false p perm (w_fs w) = Ok (w_fs w').
Proof.
  unfold os_OpenFile. intros (_ & Hop & _)%syscall_Ok.
  destruct (fs_open_create _ _ _ _); by simplify_eq.
Qed.







(** ** Enable and Disable *)

Lemma os_ReadFile_run p w :
  next_fault w = false ->
  os_ReadFile p w =
  (match fs_read_file p (w_fs w) with
   | Ok d => Ok d
   | Err e => Err e
   | Panic => Panic
   end, pop_fault w).
Proof.
  intros Hf. unfold os_ReadFile, syscall, read_op. rewrite Hf.
  by destruct (fs_read_file p (w_fs w)).
Qed.

Lemma os_ReadFile_fs p w : w_fs (os_ReadFile p w).2 = w_fs w.
Proof.
  unfold os_ReadFile, syscall, read_op. destruct (next_fault w); [done|].
  by destruct (fs_read_file p (w_fs w)).
Qed.

Lemma fs_read_file_Ok p fs data :
  fs_read_file p fs = Ok data -> exists pm, fs !! p = Some (NFile data pm).
Proof.
  unfold fs_read_file, fs_stat.
  destruct (is_implicit_dir p); [done|].
  destruct (fs !! p) as [[d pm|]|]; [|done..]. intros [= ->]. eauto.
Qed.

Lemma os_WriteFile_existing p data perm old pm w :
  next_fault w = false ->
  w_fs w !! p = Some (NFile old pm) ->
  is_implicit_dir p = false -> p <> "" ->
  os_WriteFile p data perm w =
  (Ok tt, set_fs (<[p := NFile data pm]> (w_fs w)) (pop_fault w)).
Proof.
  intros Hf Hold Himp Hne. unfold os_WriteFile, syscall, unit_op. rewrite Hf.
  unfold fs_open_create, fs_stat. rewrite Himp, Hold.
  apply String.eqb_neq in Hne. rewrite Hne.
  unfold fs_write_at. rewrite lookup_insert_eq, overwrite_empty.
  by rewrite insert_insert_eq.
Qed.

Lemma filepath_Join_nonempty_r (a b : string) :
  b <> "" -> filepath_Join [a; b] <> "".
Proof.
  intros H. unfold filepath_Join. simpl.
  apply String.eqb_neq in H. rewrite H. simpl.
  destruct (negb (String.eqb a "")); apply filepath_Clean_nonempty.
Qed.

Lemma set_plugin_status_run lib m name msg st w data info bytes :
  let path := filepath_Join [filepath_Join [pluginDir m; name]; "metadata.json"] in
  ctx_done w = false -> w_faults w = [] ->
  fs_read_file path (w_fs w) = Ok data ->
  json_Unmarshal lib data = Ok info ->
  json_MarshalIndent lib (set_Status st info) = Ok bytes ->
  exists pm w',
    set_plugin_status lib m name msg st w = (Ok tt, w')
    /\ w_fs w !! path = Some (NFile data pm)
    /\ w_fs w' = <[path := NFile bytes pm]> (w_fs w).
Proof.
  intros path Hctx Hfl Hread Hparse Hmar.
  destruct (fs_read_file_Ok _ _ _ Hread) as [pm Hold].
  exists pm. eexists.
  unfold set_plugin_status. fold path.
  rewrite run_bind. unfold ctx_Err. rewrite Hctx. cbv iota beta.
  rewrite run_bind. unfold wrap at 1.
  rewrite os_ReadFile_run by (unfold next_fault; simpl; by rewrite Hfl).
  change (w_fs (ctx_tick w)) with (w_fs w). rewrite Hread.
  rewrite run_bind. unfold wrap at 1, lift at 1. rewrite Hparse.
  rewrite run_bind. unfold wrap at 1, lift at 1. rewrite Hmar.
  unfold wrap.
  assert (path <> "") as Hne by by apply filepath_Join_nonempty_r.
  assert (is_implicit_dir path = false) as Himp.
  { unfold fs_read_file, fs_stat in Hread.
    by destruct (is_implicit_dir path). }
  rewrite (os_WriteFile_existing path bytes perm_0644 data pm); try done.
  - unfold next_fault. simpl. by rewrite Hfl.
Qed.

Lemma set_plugin_status_unreadable lib m name msg st w r w' :
  let path := filepath_Join [filepath_Join [pluginDir m; name]; "metadata.json"] in
  (forall data, fs_read_file path (w_fs w) = Ok data ->
                forall i, json_Unmarshal lib data <> Ok i) ->
  set_plugin_status lib m name msg st w = (r, w') ->
  (forall u, r <> Ok u) /\ w_fs w' = w_fs w.
Proof.
  intros path Hbad. unfold set_plugin_status. fold path.
  rewrite run_bind. unfold ctx_Err.
  destruct (ctx_done w); [by intros [= <- <-]|].
  rewrite run_bind. unfold wrap at 1.
  pose proof (os_ReadFile_fs path (ctx_tick w)) as Hfs.
  destruct (os_ReadFile path (ctx_tick w)) as [[data|e|] w1] eqn:Hread;
    [|by intros [= <- <-]..].
  simpl in Hfs.
  assert (fs_read_file path (w_fs w) = Ok data) as Hdata.
  { apply syscall_Ok in Hread as (_ & Hop & _). unfold read_op in Hop.
    simpl in Hop. destruct (fs_read_file path (w_fs w)); by simplify_eq. }
  specialize (Hbad _ Hdata).
  rewrite run_bind. unfold wrap at 1, lift at 1.
  destruct (json_Unmarshal lib data) as [i|e|]; [by destruct (Hbad i)|..];
    by intros [= <- <-].
Qed.

(** C8. For a plugin whose record reads and parses, [Enable] rewrites the
    record file with the encoding of the same record with status
    "enabled", and [Disable] with status "disabled": name, file name,
    version, description, store, runtime and the metadata entries are
    those that were read, and no other file changes.  When the record is
    missing or does not parse, both fail and the tree is unchanged. *)
Theorem C8_Enable_Disable_record lib m name w :
  let path := filepath_Join [filepath_Join [pluginDir m; name]; "metadata.json"] in
  (forall data info,
      ctx_done w = false -> w_faults w = [] ->
      fs_read_file path (w_fs w) = Ok data ->
      json_Unmarshal lib data = Ok info ->
      (forall bytes,
          json_MarshalIndent lib (set_Status "enabled" info) = Ok bytes ->
          exists pm w', Enable lib m name w = (Ok tt, w')
                        /\ w_fs w' = <[path := NFile bytes pm]> (w_fs w))
      /\ (forall bytes,
          json_MarshalIndent lib (set_Status "disabled" info) = Ok bytes ->
          exists pm w', Disable lib m name w = (Ok tt, w')
                        /\ w_fs w' = <[path := NFile bytes pm]> (w_fs w))
      /\ (forall st,
          Status (set_Status st info) = st
          /\ Name (set_Status st info) = Name info
          /\ FileName (set_Status st info) = FileName info
          /\ Version (set_Status st info) = Version info
          /\ Description (set_Status st info) = Description info
          /\ Store (set_Status st info) = Store info
          /\ Runtime (set_Status st info) = Runtime info
          /\ Metadata (set_Status st info) = Metadata info
          /\ Content (set_Status st info) = Content info))
  /\ ((forall data, fs_read_file path (w_fs w) = Ok data ->
                    forall i, json_Unmarshal lib data <> Ok i) ->
      forall r w',
        Enable lib m name w = (r, w') \/ Disable lib m name w = (r, w') ->
        (forall u, r <> Ok u) /\ w_fs w' = w_fs w).
Proof.
  intros path. split.
  - intros data info Hctx Hfl Hread Hparse. split; [|split].
    + intros bytes Hm.
      destruct (set_plugin_status_run lib m name
                  "context cancelled before enabling plugin" "enabled"
                  w data info bytes Hctx Hfl Hread Hparse Hm)
        as (pm & w' & Hrun & _ & Hfs).
      by exists pm, w'.
    + intros bytes Hm.
      destruct (set_plugin_status_run lib m name
                  "context cancelled before disabling plugin" "disabled"
                  w data info bytes Hctx Hfl Hread Hparse Hm)
        as (pm & w' & Hrun & _ & Hfs).
      by exists pm, w'.
    + done.
  - intros Hbad r w' [H|H]; eapply set_plugin_status_unreadable; eauto.
Qed.

Lemma C8_Enable_Disable_record_witness :
  let lib := sample_lib [installed_record] ([], None) in
  let m := sample_manager installed_record in
  let path := filepath_Join [filepath_Join [pluginDir m; "tool"]; "metadata.json"] in
  (exists pm w',
      Disable lib m "tool" installed_world = (Ok tt, w')
      /\ w_fs w' =
         <[path := NFile (sample_render (set_Status "disabled" installed_record)) pm]>
           (w_fs installed_world))
  /\ (forall r w',
        Enable lib m "tool" (sample_world ∅) = (r, w')
        \/ Disable lib m "tool" (sample_world ∅) = (r, w') ->
        (forall u, r <> Ok u) /\ w_fs w' = w_fs (sample_world ∅)).
Proof.
  intros lib m path. split.
  - refine (proj1 (proj2 (proj1 (C8_Enable_Disable_record lib m "tool" installed_world)
              (sample_render installed_record) installed_record _ _ _ _)) _ _).
    + reflexivity.
    + reflexivity.
    + vm_compute. reflexivity.
    + vm_compute. reflexivity.
    + reflexivity.
  - refine (proj2 (C8_Enable_Disable_record lib m "tool" (sample_world ∅)) _).
    intros data H. vm_compute in H. discriminate.
Defined.

(** ** List *)

Lemma List_entries_fs lib root entries acc w :
  w_fs (List_entries lib root entries acc w).2 = w_fs w.
Proof.
  revert acc w. induction entries as [|e rest IH]; intros acc w; simpl; [done|].
  destruct (de_IsDir e); simpl; [|apply IH].
  pose proof (os_ReadFile_fs (filepath_Join [root; de_Name e; "metadata.json"]) w)
    as Hfs.
  destruct (os_ReadFile _ w) as [[data|err|] w1]; simpl in *.
  - destruct (json_Unmarshal lib data); simpl; [|done..].
    by rewrite IH.
  - destruct (os_IsNotExist err); simpl; [|done]. by rewrite IH.
  - done.
Qed.

Lemma List_entries_all_ok lib root entries acc w :
  w_faults w = [] ->
  (forall e, e ∈ entries -> de_IsDir e = true ->
     fs_read_file (filepath_Join [root; de_Name e; "metadata.json"]) (w_fs w)
       = Err (ErrSys ENOENT)
     \/ exists data i,
         fs_read_file (filepath_Join [root; de_Name e; "metadata.json"]) (w_fs w)
           = Ok data
         /\ json_Unmarshal lib data = Ok i) ->
  exists w', List_entries lib root entries acc w
             = (Ok (acc ++ listed_records lib (w_fs w) root entries)%list, w')
             /\ w_fs w' = w_fs w.
Proof.
  revert acc w. induction entries as [|e rest IH]; intros acc w Hfl Hok; simpl.
  - exists w. by rewrite app_nil_r.
  - assert (forall e', e' ∈ rest -> de_IsDir e' = true -> _) as Hrest
      by (intros e' He'; apply (Hok e'); by right).
    destruct (de_IsDir e) eqn:Hdir; simpl; [|by apply IH].
    rewrite os_ReadFile_run by (unfold next_fault; by rewrite Hfl).
    destruct (Hok e) as [Hnone|(data & i & Hread & Hparse)]; [by left|done|..].
    + rewrite Hnone. simpl.
      destruct (IH acc (pop_fault w)) as (w' & -> & Hfs);
        [simpl; by rewrite Hfl|done|]. eauto.
    + rewrite Hread, Hparse.
      destruct (IH (acc ++ [i])%list (pop_fault w)) as (w' & -> & Hfs);
        [simpl; by rewrite Hfl|done|].
      exists w'. split; [|done]. simpl. by rewrite <- app_assoc.
Qed.

Lemma List_entries_bad_record lib root entries acc w e data r w' :
  e ∈ entries -> de_IsDir e = true ->
  fs_read_file (filepath_Join [root; de_Name e; "metadata.json"]) (w_fs w) = Ok data ->
  (forall i, json_Unmarshal lib data <> Ok i) ->
  List_entries lib root entries acc w = (r, w') ->
  forall u, r <> Ok u.
Proof.
  revert acc w. induction entries as [|e0 rest IH]; intros acc w Hin Hdir Hread Hbad;
    [by apply elem_of_nil in Hin|].
  simpl.
  apply elem_of_cons in Hin as [->|Hin].
  - rewrite Hdir. simpl.
    destruct (os_ReadFile _ w) as [[data'|err|] w1] eqn:Hrf.
    + apply syscall_Ok in Hrf as (_ & Hop & _). unfold read_op in Hop.
      rewrite Hread in Hop. injection Hop as <-.
      destruct (json_Unmarshal lib data) as [i| |];
        [by destruct (Hbad i)|by intros [= <- <-]..].
    + assert (os_IsNotExist err = false) as ->; [|by intros [= <- <-]].
      unfold os_ReadFile, syscall, read_op in Hrf.
      destruct (next_fault w); [by simplify_eq|].
      rewrite Hread in Hrf. done.
    + by intros [= <- <-].
  - destruct (de_IsDir e0); simpl; [|by apply IH].
    pose proof (os_ReadFile_fs (filepath_Join [root; de_Name e0; "metadata.json"]) w)
      as Hfs.
    destruct (os_ReadFile _ w) as [[data'|err|] w1]; simpl in Hfs.
    + destruct (json_Unmarshal lib data'); [|by intros [= <- <-]..].
      apply IH; try done; by rewrite Hfs.
    + destruct (os_IsNotExist err); [|by intros [= <- <-]].
      apply IH; try done; by rewrite Hfs.
    + by intros [= <- <-].
Qed.

(** C7. [List] returns an empty collection, not an error, when the plugin
    root does not exist.  It reports exactly the records of the
    subdirectories whose [metadata.json] reads and parses, leaving out
    without error every subdirectory whose [metadata.json] is absent.  And
    the whole call fails as soon as one subdirectory's [metadata.json]
    exists but does not parse. *)
Theorem C7_List_tolerance lib m w :
  let root := pluginDir m in
  let record_path (e : DirEntry) :=
    filepath_Join [root; de_Name e; "metadata.json"] in
  (ctx_done w = false -> w_faults w = [] ->
   fs_stat (w_fs w) root = None -> lookup_errno (w_fs w) root = ENOENT ->
   exists w', List lib m w = (Ok [], w'))
  /\ (forall entries,
       ctx_done w = false -> w_faults w = [] ->
       fs_read_dir root (w_fs w) = Ok entries ->
       (forall e, e ∈ entries -> de_IsDir e = true ->
          fs_read_file (record_path e) (w_fs w) = Err (ErrSys ENOENT)
          \/ exists data i, fs_read_file (record_path e) (w_fs w) = Ok data
                            /\ json_Unmarshal lib data = Ok i) ->
       exists w', List lib m w
                  = (Ok (listed_records lib (w_fs w) root entries), w'))
  /\ (forall entries e data,
       fs_read_dir root (w_fs w) = Ok entries ->
       e ∈ entries -> de_IsDir e = true ->
       fs_read_file (record_path e) (w_fs w) = Ok data ->
       (forall i, json_Unmarshal lib data <> Ok i) ->
       forall r w', List lib m w = (r, w') -> forall u, r <> Ok u).
Proof.
  intros root record_path. split; [|split].
  - intros Hctx Hfl Hnone Herrno. unfold List. rewrite run_bind.
    unfold ctx_Err. rewrite Hctx. cbv iota beta.
    unfold os_ReadDir, syscall, read_op, next_fault. simpl. rewrite Hfl.
    unfold fs_read_dir. fold root. rewrite Hnone, Herrno. simpl. eauto.
  - intros entries Hctx Hfl Hdir Hok. unfold List. rewrite run_bind.
    unfold ctx_Err. rewrite Hctx. cbv iota beta.
    unfold os_ReadDir, syscall, read_op, next_fault. simpl. rewrite Hfl.
    fold root. rewrite Hdir.
    destruct (List_entries_all_ok lib root entries []
                (set_fs (w_fs w) (pop_fault (ctx_tick w)))) as (w' & -> & _);
      [simpl; by rewrite Hfl|done|]. eauto.
  - intros entries e data Hdir Hin HisDir Hread Hbad r w'.
    unfold List. rewrite run_bind. unfold ctx_Err.
    destruct (ctx_done w); [by intros [= <- <-]|].
    unfold os_ReadDir, syscall, read_op.
    destruct (next_fault (ctx_tick w)); [by intros [= <- <-]|].
    simpl. fold root. rewrite Hdir.
    apply (List_entries_bad_record lib root entries [] _ e data); done.
Qed.

Lemma C7_List_tolerance_witness :
  let lib := sample_lib [installed_record] ([], None) in
  let m := sample_manager installed_record in
  (exists w', List lib m (sample_world ∅) = (Ok [], w'))
  /\ (exists w', List lib m stale_world = (Ok [installed_record], w'))
  /\ (forall r w', List lib m corrupt_world = (r, w') -> forall u, r <> Ok u).
Proof.
  intros lib m. split; [|split].
  - refine (proj1 (C7_List_tolerance lib m (sample_world ∅)) _ _ _ _);
      reflexivity.
  - refine (proj1 (proj2 (C7_List_tolerance lib m stale_world))
              sample_listing _ _ _ _).
    + reflexivity.
    + reflexivity.
    + vm_compute. reflexivity.
    + intros e He _.
      apply elem_of_cons in He as [->|He]; [left; vm_compute; reflexivity|].
      apply elem_of_cons in He as [->|He]; [|by apply elem_of_nil in He].
      right. exists (sample_render installed_record), installed_record.
      split; vm_compute; reflexivity.
  - refine (proj2 (proj2 (C7_List_tolerance lib m corrupt_world))
              sample_listing {| de_Name := "stale"; de_IsDir := true |}
              "{oops" _ _ _ _ _).
    + vm_compute. reflexivity.
    + left.
    + reflexivity.
    + vm_compute. reflexivity.
    + intros i. vm_compute. discriminate.
Defined.


Lemma has_sep_app (a b : string) : has_sep (a +:+ b) = has_sep a || has_sep b.
Proof.
  induction a as [|c a IH]; [done|]. rewrite app_cons. simpl.
  by rewrite IH, orb_assoc.
Qed.

Lemma split_sep_nosep cur s :
  has_sep cur = false -> Forall (fun c => has_sep c = false) (split_sep cur s).
Proof.
  revert cur. induction s as [|c s IH]; intros cur Hcur; simpl.
  - by constructor.
  - destruct (Ascii.eqb c Separator) eqn:E.
    + constructor; [done|]. by apply IH.
    + apply IH. rewrite has_sep_app, Hcur. simpl. by rewrite E.
Qed.

Lemma dots_good out : Forall (fun d => d = "..") out -> good_stack false out.
Proof.
  induction 1 as [|c out -> Hout IH]; simpl; [done|]. right. done.
Qed.

Lemma good_stack_tail rooted c out :
  good_stack rooted (c :: out) -> good_stack rooted out.
Proof.
  simpl. intros [[_ H]|(_ & -> & H)]; [done|]. by apply dots_good.
Qed.

Lemma good_stack_app_r rooted l1 l2 :
  good_stack rooted (l1 ++ l2) -> good_stack rooted l2.
Proof.
  induction l1 as [|c l1 IH]; [done|]. intros H%good_stack_tail. auto.
Qed.

Lemma clean_elems_good rooted cs out :
  Forall (fun c => has_sep c = false) cs ->
  good_stack rooted out ->
  good_stack rooted (rev (clean_elems rooted out cs)).
Proof.
  intros Hcs. revert out. induction Hcs as [|c cs Hc Hcs IH]; intros out Hout; simpl.
  - by rewrite rev_involutive.
  - destruct (String.eqb c "" || String.eqb c ".") eqn:E1; [by apply IH|].
    apply orb_false_iff in E1 as [E0 E1].
    apply String.eqb_neq in E0, E1.
    destruct (String.eqb c "..") eqn:E2.
    + apply String.eqb_eq in E2 as ->.
      destruct out as [|top out'].
      * destruct rooted eqn:Er; [by apply IH|].
        apply IH. simpl. right. done.
      * destruct (String.eqb top "..") eqn:E3.
        -- apply String.eqb_eq in E3 as ->. apply IH.
           simpl in Hout. destruct Hout as [[(_ & _ & H & _) _]|(_ & Hr & Hd)]; [done|].
           simpl. right. split_and!; [done..|]. by constructor.
        -- apply IH. by apply good_stack_tail in Hout.
    + apply String.eqb_neq in E2. apply IH. simpl. left. done.
Qed.

Lemma clean_elems_fix rooted cs out :
  good_stack rooted (rev cs ++ out) ->
  clean_elems rooted out cs = (rev out ++ cs)%list.
Proof.
  revert out. induction cs as [|c cs IH]; intros out H; simpl.
  - by rewrite app_nil_r.
  - simpl in H. rewrite <- app_assoc in H. simpl in H.
    pose proof (good_stack_app_r _ _ _ H) as Hc.
    pose proof (IH (c :: out) H) as Hpush.
    simpl in Hpush. rewrite <- app_assoc in Hpush. simpl in Hpush.
    simpl in Hc.
    destruct Hc as [[(H0 & H1 & H2 & _) _]|(-> & -> & Hd)].
    + apply String.eqb_neq in H0, H1, H2. rewrite H0, H1, H2. simpl.
      exact Hpush.
    + simpl. destruct Hd as [|top out' ->]; simpl; exact Hpush.
Qed.

Lemma split_sep_app cur c s :
  has_sep c = false -> split_sep cur (c +:+ s) = split_sep (cur +:+ c) s.
Proof.
  revert cur. induction c as [|a c IH]; intros cur Hc.
  - by rewrite app_nil_l, string_app_nil_r.
  - simpl in Hc. apply orb_false_iff in Hc as [Ha Hc].
    rewrite app_cons. simpl. rewrite Ha. rewrite IH by done.
    by rewrite string_app_assoc.
Qed.

Lemma split_sep_sep cur s :
  split_sep cur ("/" +:+ s) = cur :: split_sep "" s.
Proof. done. Qed.

Lemma split_join cs :
  cs <> [] -> Forall (fun c => has_sep c = false) cs ->
  split_sep "" (join_sep cs) = cs.
Proof.
  intros Hne Hcs. induction Hcs as [|c cs Hc Hcs IH]; [done|].
  destruct cs as [|c2 cs].
  - simpl. rewrite <- (string_app_nil_r c) at 1.
    by rewrite split_sep_app.
  - change (join_sep (c :: c2 :: cs)) with (c +:+ "/" +:+ join_sep (c2 :: cs)).
    rewrite split_sep_app by done. rewrite split_sep_sep.
    rewrite app_nil_l. by rewrite IH.
Qed.

Lemma good_stack_elems rooted out :
  good_stack rooted out -> Forall (fun c => c <> "" /\ has_sep c = false) out.
Proof.
  induction out as [|c out IH]; [constructor|].
  intros H. pose proof (good_stack_tail _ _ _ H) as Ht.
  constructor; [|auto].
  simpl in H. destruct H as [[(? & _ & _ & ?) _]|(-> & _)]; done.
Qed.

Lemma good_list_elems rooted cs :
  good_stack rooted (rev cs) -> Forall (fun c => c <> "" /\ has_sep c = false) cs.
Proof.
  intros H%good_stack_elems. apply Forall_rev in H. by rewrite rev_involutive in H.
Qed.

Lemma join_sep_cons c cs : exists rest, join_sep (c :: cs) = c +:+ rest.
Proof.
  destruct cs as [|c2 cs]; simpl.
  - exists "". by rewrite string_app_nil_r.
  - eauto.
Qed.

Lemma join_sep_head c cs :
  c <> "" -> has_sep c = false ->
  join_sep (c :: cs) <> "" /\ is_rooted (join_sep (c :: cs)) = false.
Proof.
  intros Hne Hc. destruct (join_sep_cons c cs) as [rest ->].
  destruct c as [|a c]; [done|]. rewrite app_cons. split; [done|].
  simpl in *. by apply orb_false_iff in Hc as [-> _].
Qed.

Lemma Clean_form s :
  exists cs, good_stack (is_rooted s) (rev cs)
             /\ filepath_Clean s = render (is_rooted s) cs.
Proof.
  exists (clean_elems (is_rooted s) [] (split_sep "" s)). split; [|done].
  apply clean_elems_good; [|done]. by apply split_sep_nosep.
Qed.

Lemma render_canonical rooted cs :
  good_stack rooted (rev cs) -> filepath_Clean (render rooted cs) = render rooted cs.
Proof.
  intros Hgood. pose proof (good_list_elems _ _ Hgood) as Helems.
  assert (Forall (fun c => has_sep c = false) cs) as Hnosep
    by (eapply Forall_impl; [exact Helems|]; by intros ? [_ ?]).
  assert (clean_elems rooted [] cs = cs) as Hfix.
  { rewrite clean_elems_fix; [done|]. by rewrite app_nil_r. }
  destruct rooted.
  - unfold render at 1. unfold filepath_Clean.
    change (is_rooted ("/" +:+ join_sep cs)) with true. cbv iota.
    rewrite split_sep_sep.
    destruct cs as [|c cs]; [done|].
    rewrite split_join by done.
    change (clean_elems true [] ("" :: c :: cs)) with (clean_elems true [] (c :: cs)).
    by rewrite Hfix.
  - destruct cs as [|c cs]; [done|].
    apply Forall_cons in Helems as [[Hne Hc] _].
    destruct (join_sep_head c cs Hne Hc) as [Hj Hr].
    unfold render. apply String.eqb_neq in Hj as Hj'. rewrite Hj'.
    unfold filepath_Clean. rewrite Hr.
    rewrite split_join by done. rewrite Hfix. by rewrite Hj'.
Qed.

(** Cleaning is idempotent. *)
Lemma filepath_Clean_idem s : filepath_Clean (filepath_Clean s) = filepath_Clean s.
Proof.
  destruct (Clean_form s) as (cs & Hgood & ->). by apply render_canonical.
Qed.

Lemma filepath_Join_canonical es :
  filepath_Join es = "" \/ filepath_Clean (filepath_Join es) = filepath_Join es.
Proof.
  unfold filepath_Join. destruct (List.filter _ es); [by left|].
  right. apply filepath_Clean_idem.
Qed.

Lemma canonical_form t :
  filepath_Clean t = t ->
  exists rooted cs, good_stack rooted (rev cs) /\ t = render rooted cs.
Proof.
  intros Ht. destruct (Clean_form t) as (cs & Hgood & Hr).
  exists (is_rooted t), cs. split; [done|]. by rewrite <- Hr.
Qed.

Lemma before_last_sep_nosep c : has_sep c = false -> before_last_sep c = None.
Proof.
  induction c as [|a c IH]; [done|]. simpl.
  intros [Ha Hc]%orb_false_iff. by rewrite IH, Ha.
Qed.

Lemma before_last_sep_snoc s c :
  has_sep c = false -> before_last_sep (s +:+ "/" +:+ c) = Some s.
Proof.
  intros Hc. induction s as [|a s IH].
  - rewrite app_nil_l, app_cons, app_nil_l. simpl.
    by rewrite before_last_sep_nosep.
  - rewrite app_cons. simpl. by rewrite IH.
Qed.

Lemma join_sep_snoc l c :
  l <> [] -> join_sep (l ++ [c]) = join_sep l +:+ "/" +:+ c.
Proof.
  induction l as [|a l IH]; [done|]. intros _.
  destruct l as [|b l]; [done|].
  change (join_sep ((a :: b :: l) ++ [c]))
    with (a +:+ "/" +:+ join_sep ((b :: l) ++ [c])).
  rewrite IH by done.
  change (join_sep (a :: b :: l)) with (a +:+ "/" +:+ join_sep (b :: l)).
  by rewrite !string_app_assoc.
Qed.

Lemma rev_snoc_form {A} (cs : list A) c rl :
  rev cs = c :: rl -> cs = (rev rl ++ [c])%list.
Proof.
  intros H. rewrite <- (rev_involutive cs), H. done.
Qed.

Lemma render_snoc rooted l c :
  l <> [] -> Forall (fun c => c <> "" /\ has_sep c = false) l ->
  render rooted (l ++ [c]) = render rooted l +:+ "/" +:+ c.
Proof.
  intros Hne Hl. unfold render. rewrite join_sep_snoc by done.
  destruct rooted; [by rewrite !string_app_assoc|].
  destruct l as [|a l]; [done|].
  apply Forall_cons in Hl as [[Ha Hs] _].
  destruct (join_sep_head a l Ha Hs) as [Hj _].
  apply String.eqb_neq in Hj as Hj'. rewrite Hj'.
  destruct (join_sep (a :: l)) as [|x r] eqn:E; [done|].
  by rewrite app_cons.
Qed.

(** The directory of a canonical path is canonical: [filepath.Dir] just
    cuts the last element. *)
Lemma filepath_Dir_canonical t :
  filepath_Clean t = t ->
  filepath_Dir t = "." \/ filepath_Dir t = "/"
  \/ exists c, t = filepath_Dir t +:+ "/" +:+ c.
Proof.
  intros (rooted & cs & Hgood & ->)%canonical_form.
  destruct (rev cs) as [|c rl] eqn:Hrev.
  { assert (cs = []) as -> by (by destruct cs using rev_ind; [|rewrite rev_unit in Hrev]).
    destruct rooted; [right; left|left]; done. }
  apply rev_snoc_form in Hrev as ->.
  pose proof (good_stack_elems _ _ Hgood) as Helems.
  apply Forall_cons in Helems as [[Hcne Hc] Hrl].
  pose proof (good_stack_tail _ _ _ Hgood) as Htail.
  destruct (rev rl) as [|a l] eqn:Hl.
  - (* a single element *)
    destruct rooted; unfold render, filepath_Dir; simpl.
    + right; left. rewrite app_nil_l.
      by rewrite before_last_sep_nosep.
    + left. destruct (String.eqb c "") eqn:E; [by apply String.eqb_eq in E|].
      by rewrite before_last_sep_nosep.
  - right; right. exists c.
    assert (Forall (fun c => c <> "" /\ has_sep c = false) (a :: l)) as Hal.
    { rewrite <- Hl. by apply Forall_rev. }
    rewrite render_snoc by done.
    unfold filepath_Dir. rewrite before_last_sep_snoc by done.
    assert (render rooted (a :: l) <> "") as Hne.
    { unfold render. destruct rooted; [done|].
      apply Forall_cons in Hal as [[Ha Hs] _].
      destruct (join_sep_head a l Ha Hs) as [Hj _].
      apply String.eqb_neq in Hj as Hj'. by rewrite Hj'. }
    apply String.eqb_neq in Hne as Hne'. rewrite Hne'.
    rewrite render_canonical; [done|].
    rewrite <- Hl, rev_involutive. done.
Qed.

Lemma join_sep_snoc_suffix l c suf :
  join_sep (l ++ [c]) +:+ suf = join_sep (l ++ [c +:+ suf]).
Proof.
  destruct l as [|a l]; [done|].
  rewrite !join_sep_snoc by done. by rewrite !string_app_assoc.
Qed.

Lemma plain_suffixed c suf :
  c <> "" -> has_sep c = false ->
  (2 <= String.length suf)%nat -> has_sep suf = false ->
  plain (c +:+ suf).
Proof.
  intros Hc Hs Hlen Hsuf.
  assert (3 <= String.length (c +:+ suf))%nat as Hl.
  { rewrite string_app_length. destruct c; [done|]. simpl. lia. }
  split_and!.
  - intros E. rewrite E in Hl. simpl in Hl. lia.
  - intros E. rewrite E in Hl. simpl in Hl. lia.
  - intros E. rewrite E in Hl. simpl in Hl. lia.
  - by rewrite has_sep_app, Hs, Hsuf.
Qed.

(** Joining an element onto a canonical directory whose name got a
    suffix: the result is plain concatenation. *)
Lemma filepath_Join_suffixed p suf x :
  filepath_Clean p = p -> is_implicit_dir p = false ->
  (2 <= String.length suf)%nat -> has_sep suf = false ->
  plain x ->
  filepath_Join [p +:+ suf; x] = (p +:+ suf) +:+ "/" +:+ x.
Proof.
  intros (rooted & cs & Hgood & ->)%canonical_form Himp Hlen Hsuf Hx.
  destruct (rev cs) as [|c rl] eqn:Hrev.
  { assert (cs = []) as -> by (by destruct cs using rev_ind; [|rewrite rev_unit in Hrev]).
    by destruct rooted. }
  apply rev_snoc_form in Hrev as ->.
  pose proof (good_stack_elems _ _ Hgood) as Helems.
  apply Forall_cons in Helems as [[Hcne Hc] Hrl].
  pose proof (good_stack_tail _ _ _ Hgood) as Htail.
  set (l := rev rl) in *.
  assert (Forall (fun c => c <> "" /\ has_sep c = false) l) as Hl
    by (by apply Forall_rev).
  pose proof (plain_suffixed c suf Hcne Hc Hlen Hsuf) as Hplain.
  assert (Forall (fun c => c <> "" /\ has_sep c = false) (l ++ [c +:+ suf])) as Hl'.
  { apply Forall_app. split; [done|]. constructor; [|done].
    destruct Hplain as (? & _ & _ & ?). done. }
  assert (render rooted (l ++ [c]) +:+ suf = render rooted (l ++ [c +:+ suf])) as Hp.
  { unfold render. destruct rooted.
    - by rewrite string_app_assoc, join_sep_snoc_suffix.
    - assert (forall d, d <> "" -> has_sep d = false ->
                String.eqb (join_sep (l ++ [d])) "" = false) as Hj.
      { intros d Hd Hds. apply String.eqb_neq.
        destruct l as [|a l0]; [done|].
        apply Forall_cons in Hl as [[Ha Has] _].
        change ((a :: l0) ++ [d])%list with (a :: (l0 ++ [d]))%list.
        by destruct (join_sep_head a (l0 ++ [d]) Ha Has). }
      rewrite (Hj c Hcne Hc).
      destruct Hplain as (Hp0 & _ & _ & Hps).
      rewrite (Hj _ Hp0 Hps). apply join_sep_snoc_suffix. }
  rewrite Hp.
  assert (render rooted (l ++ [c +:+ suf]) <> "") as Hne.
  { rewrite <- Hp. intros E. apply (f_equal String.length) in E.
    rewrite string_app_length in E. simpl in E. lia. }
  destruct Hx as (Hx0 & Hx1 & Hx2 & Hxs).
  unfold filepath_Join. simpl.
  apply String.eqb_neq in Hne as ->. apply String.eqb_neq in Hx0 as Hx0'.
  rewrite Hx0'. simpl.
  rewrite <- render_snoc; [|by destruct l|done].
  apply render_canonical.
  rewrite !rev_app_distr. simpl. left. split; [done|].
  left. split; [done|]. subst l. by rewrite rev_involutive.
Qed.

(** ** What stays outside a directory *)

Lemma inside_proper d k :
  proper d ->
  inside d k = true <-> k = d \/ strings_HasPrefix k (d +:+ "/") = true.
Proof.
  intros [Hne Himp]. unfold inside, dir_prefix.
  unfold is_implicit_dir in Himp. apply orb_false_iff in Himp as [-> ->].
  rewrite orb_true_iff, String.eqb_eq. done.
Qed.

Lemma inside_proper_form d k :
  proper d ->
  inside d k = true -> exists r, k = d +:+ r /\ (r = "" \/ exists r', r = "/" +:+ r').
Proof.
  intros Hd H. apply inside_proper in H; [|done].
  destruct H as [->|[r ->]%HasPrefix_inv].
  - exists "". rewrite string_app_nil_r. auto.
  - exists ("/" +:+ r). rewrite string_app_assoc. eauto.
Qed.

Lemma inside_form_proper d r :
  proper d -> (r = "" \/ exists r', r = "/" +:+ r') -> inside d (d +:+ r) = true.
Proof.
  intros Hd Hr. apply inside_proper; [done|].
  destruct Hr as [->|[r' ->]].
  - left. apply string_app_nil_r.
  - right. rewrite <- string_app_assoc. apply HasPrefix_app.
Qed.

Lemma starts_with_sep_not_sibling suf r x :
  sibling_suffix suf -> suf +:+ r = "/" +:+ x -> False.
Proof.
  intros (a & rest & -> & Ha). rewrite !app_cons. intros [= -> _]. done.
Qed.

(** Paths textually under [d ++ suf], and the directories on the way to
    them, are not inside [d]. *)
Lemma outside_of_sibling d suf t k :
  proper d -> sibling_suffix suf ->
  strings_HasPrefix t (d +:+ suf) = true ->
  k = t \/ (exists r, t = k +:+ "/" +:+ r) ->
  inside d k = false.
Proof.
  intros Hd Hsuf [r1 ->]%HasPrefix_inv Hk.
  destruct (inside d k) eqn:E; [exfalso|done].
  apply inside_proper_form in E as (r0 & -> & Hr0); [|done].
  rewrite string_app_assoc in Hk.
  destruct Hk as [Hk|[r Hk]].
  - apply string_app_inv_head in Hk. destruct Hr0 as [->|[r' ->]].
    + destruct Hsuf as (a & rest & -> & _). by rewrite app_cons in Hk.
    + symmetry in Hk. by apply starts_with_sep_not_sibling in Hk.
  - rewrite string_app_assoc in Hk. apply string_app_inv_head in Hk.
    destruct Hr0 as [->|[r' ->]].
    + rewrite app_nil_l in Hk. by apply starts_with_sep_not_sibling in Hk.
    + rewrite string_app_assoc in Hk.
      by apply starts_with_sep_not_sibling in Hk.
Qed.

Lemma implicit_outside d k :
  proper d -> is_implicit_dir k = true -> inside d k = false.
Proof.
  intros Hd Hk. destruct (inside d k) eqn:E; [exfalso|done].
  apply inside_proper_form in E as (r0 & -> & Hr0); [|done].
  destruct Hd as [Hne Himp].
  unfold is_implicit_dir in Hk. apply orb_true_iff in Hk.
  destruct d as [|a d]; [done|]. rewrite app_cons in Hk.
  destruct Hk as [Hk|Hk]; apply String.eqb_eq in Hk; injection Hk as -> Hk;
    destruct d; try done; rewrite app_nil_l in Hk; subst r0;
    destruct Hr0 as [?|[? ?]]; done.
Qed.

Lemma sep_prefixes_elem pre s q :
  q ∈ sep_prefixes pre s -> exists r, pre +:+ s = q +:+ "/" +:+ r.
Proof.
  revert pre. induction s as [|c s IH]; intros pre; simpl.
  - by intros ?%elem_of_nil.
  - intros [Hq|Hq]%elem_of_app.
    + destruct (Ascii.eqb c Separator && negb (String.eqb pre "")) eqn:E;
        [|by apply elem_of_nil in Hq].
      apply list_elem_of_singleton in Hq as ->.
      apply andb_true_iff in E as [->%Ascii.eqb_eq _]. by exists s.
    + destruct (IH _ Hq) as [r Hr]. exists r. rewrite <- Hr.
      by rewrite string_app_assoc.
Qed.

Lemma mkdir_chain_elem p k :
  k ∈ mkdir_chain p -> k = p \/ exists r, p = k +:+ "/" +:+ r.
Proof.
  unfold mkdir_chain. intros [->|Hk]%elem_of_cons; [by left|]. right.
  apply list_elem_of_In, in_rev, list_elem_of_In in Hk.
  by apply sep_prefixes_elem in Hk.
Qed.

Lemma avoids_sibling d suf p :
  proper d -> sibling_suffix suf ->
  strings_HasPrefix p (d +:+ suf) = true -> avoids d p.
Proof.
  intros Hd Hsuf Hp k Hk. apply mkdir_chain_elem in Hk.
  by eapply outside_of_sibling.
Qed.

Lemma avoids_self d p : avoids d p -> inside d p = false.
Proof. intros H. apply H. unfold mkdir_chain. left. Qed.

Lemma avoids_Dir d suf t :
  proper d -> sibling_suffix suf ->
  filepath_Clean t = t ->
  strings_HasPrefix t (d +:+ suf) = true -> avoids d (filepath_Dir t).
Proof.
  intros Hd Hsuf Hcanon Ht k Hk.
  destruct (filepath_Dir_canonical t Hcanon) as [E|[E|[c E]]].
  - rewrite E in Hk. apply implicit_outside; [done|].
    apply list_elem_of_singleton in Hk as ->. done.
  - rewrite E in Hk. apply implicit_outside; [done|].
    apply list_elem_of_singleton in Hk as ->. done.
  - apply mkdir_chain_elem in Hk.
    eapply outside_of_sibling; [done..|]. right.
    destruct Hk as [->|[r Hr]]; [eauto|].
    exists (r +:+ "/" +:+ c). rewrite E at 1. rewrite Hr at 1.
    by rewrite !string_app_assoc.
Qed.

(** ** Calls that leave a directory alone *)

Lemma preserves_bind_reach {A B} d (m : M A) (f : A -> M B) :
  preserves d m ->
  (forall a, (exists w w1, m w = (Ok a, w1)) -> preserves d (f a)) ->
  preserves d (m ≫= f).
Proof.
  intros Hm Hf w k Hk. rewrite run_bind.
  specialize (Hm w k Hk).
  destruct (m w) as [[a|e|] w1] eqn:E; simpl in *; [|done..].
  rewrite (Hf a); [done| |done]. eauto.
Qed.

Lemma preserves_bind {A B} d (m : M A) (f : A -> M B) :
  preserves d m -> (forall a, preserves d (f a)) -> preserves d (m ≫= f).
Proof. intros Hm Hf. apply preserves_bind_reach; auto. Qed.

Lemma preserves_wrap {A} d msg (m : M A) : preserves d m -> preserves d (wrap msg m).
Proof.
  intros Hm w k Hk. unfold wrap. specialize (Hm w k Hk).
  by destruct (m w) as [[a|e|] w1].
Qed.

Lemma preserves_pure {A} d (m : M A) :
  (forall w, w_fs (m w).2 = w_fs w) -> preserves d m.
Proof. intros H w k _. by rewrite H. Qed.

Lemma preserves_ret {A} d (a : A) : preserves d (mret a).
Proof. by apply preserves_pure. Qed.

Lemma preserves_fail {A} d e : preserves d (@fail A e).
Proof. by apply preserves_pure. Qed.

Lemma preserves_panic {A} d : preserves d (@panic A).
Proof. by apply preserves_pure. Qed.

Lemma preserves_lift {A} d (r : result A) : preserves d (lift r).
Proof. by apply preserves_pure. Qed.

Lemma preserves_ctx d : preserves d ctx_Err.
Proof. by apply preserves_pure. Qed.

Lemma preserves_time d : preserves d time_Now.
Proof. by apply preserves_pure. Qed.

Lemma preserves_syscall {A} d
    (op : gmap string node -> result (A * gmap string node)) :
  (forall fs a fs' k, op fs = Ok (a, fs') -> inside d k = true ->
                      fs' !! k = fs !! k) ->
  preserves d (syscall op).
Proof.
  intros Hop w k Hk.
  destruct (syscall_fs op w) as [->|[a Ha]]; [done|].
  by apply (Hop _ _ _ _ Ha).
Qed.

Lemma preserves_scratch d : preserves d os_scratch.
Proof. apply preserves_syscall. by intros fs a fs' k [= _ <-] _. Qed.

Lemma preserves_MkdirAll d p perm : avoids d p -> preserves d (os_MkdirAll p perm).
Proof.
  intros Hp. apply preserves_syscall. intros fs [] fs' k Hop Hk.
  unfold unit_op in Hop.
  destruct (fs_mkdir_all (mkdir_chain p) fs) as [fs1| |] eqn:E; [|done..].
  injection Hop as <-.
  destruct (fs_mkdir_all_frame _ _ _ E k) as [?|(_ & _ & Hin)]; [done|].
  rewrite (Hp k Hin) in Hk. done.
Qed.

Lemma fs_open_create_frame trunc p perm fs fs' k :
  fs_open_create trunc p perm fs = Ok fs' -> k <> p -> fs' !! k = fs !! k.
Proof.
  intros [(old & pm & _ & ->)|[_ ->]]%fs_open_create_Ok Hne.
  - destruct trunc; [|done]. by rewrite lookup_insert_ne.
  - by rewrite lookup_insert_ne.
Qed.

Lemma fs_write_at_frame p data fs fs' k :
  fs_write_at p data fs = Ok fs' -> k <> p -> fs' !! k = fs !! k.
Proof.
  unfold fs_write_at. destruct (fs !! p) as [[old pm|]|]; [|done..].
  intros [= <-] Hne. by rewrite lookup_insert_ne.
Qed.

Lemma inside_ne d p k : inside d p = false -> inside d k = true -> k <> p.
Proof. by intros Hp Hk ->; rewrite Hp in Hk. Qed.

Lemma preserves_OpenFile d p perm :
  inside d p = false -> preserves d (os_OpenFile p perm).
Proof.
  intros Hp. apply preserves_syscall. intros fs f fs' k Hop Hk.
  destruct (fs_open_create false p perm fs) as [fs1| |] eqn:E; [|done..].
  injection Hop as _ <-.
  eapply fs_open_create_frame; [done|]. by eapply inside_ne.
Qed.

Lemma preserves_WriteFile d p data perm :
  inside d p = false -> preserves d (os_WriteFile p data perm).
Proof.
  intros Hp. apply preserves_syscall. intros fs [] fs' k Hop Hk.
  unfold unit_op in Hop.
  destruct (fs_open_create true p perm fs) as [fs1| |] eqn:E1; [|done..].
  destruct (fs_write_at p data fs1) as [fs2| |] eqn:E2; [|done..].
  injection Hop as <-.
  assert (k <> p) as Hne by by eapply inside_ne.
  rewrite (fs_write_at_frame _ _ _ _ _ E2 Hne).
  by apply (fs_open_create_frame _ _ _ _ _ _ E1).
Qed.

Lemma preserves_Copy d f r :
  inside d f = false -> preserves d (io_Copy f r).
Proof.
  intros Hf. destruct r as [r|]; [|apply preserves_panic].
  unfold io_Copy. apply preserves_bind.
  - apply preserves_syscall. intros fs [] fs' k Hop Hk.
    unfold unit_op in Hop.
    destruct (fs_write_at f (r_data r) fs) as [fs1| |] eqn:E; [|done..].
    injection Hop as <-. eapply fs_write_at_frame; [done|]. by eapply inside_ne.
  - intros _. destruct (r_fail r); [apply preserves_fail|apply preserves_ret].
Qed.

Lemma preserves_OpenFile_then {B} d p perm (f : string -> M B) :
  inside d p = false -> preserves d (f p) ->
  preserves d (wrap "failed to create file" (os_OpenFile p perm) ≫= f).
Proof.
  intros Hp Hf. apply preserves_bind_reach.
  - by apply preserves_wrap, preserves_OpenFile.
  - intros a (w & w1 & Ha). apply wrap_Ok, os_OpenFile_Ok in Ha as [-> _]. done.
Qed.

Section extraction_frame.
Variables (d suf : string).
Hypothesis Hd : proper d.
Hypothesis Hsuf : sibling_suffix suf.

Lemma target_checked destDir name :
  strings_HasPrefix destDir (d +:+ suf) = true ->
  let target := filepath_Join [destDir; filepath_Clean name] in
  strings_HasPrefix target destDir = true ->
  avoids d target /\ avoids d (filepath_Dir target) /\ inside d target = false.
Proof.
  intros Hdest target Ht.
  assert (strings_HasPrefix target (d +:+ suf) = true) as Hpre
    by by eapply HasPrefix_trans.
  assert (avoids d target) as Hav by by eapply avoids_sibling.
  split; [done|]. split; [|by apply avoids_self].
  eapply avoids_Dir; [done..| |done].
  destruct (filepath_Join_canonical [destDir; filepath_Clean name]) as [E|E];
    [|done].
  exfalso. subst target. rewrite E in Hpre.
  apply HasPrefix_inv in Hpre as [r Hr].
  destruct Hd as [Hne _]. destruct d; [done|]. by rewrite !app_cons in Hr.
Qed.

Lemma preserves_extractTar_entries destDir entries last :
  strings_HasPrefix destDir (d +:+ suf) = true ->
  preserves d (extractTar_entries destDir entries last).
Proof.
  intros Hdest. induction entries as [|h rest IH]; simpl.
  - destruct last; [apply preserves_fail|apply preserves_ret].
  - destruct (strings_HasPrefix _ destDir) eqn:Ht; simpl; [|apply preserves_fail].
    destruct (target_checked destDir (th_Name h) Hdest Ht) as (Hav & HavD & Hout).
    apply preserves_bind; [|by intros _].
    destruct (th_Typeflag h).
    + by apply preserves_wrap, preserves_MkdirAll.
    + apply preserves_bind; [by apply preserves_wrap, preserves_MkdirAll|].
      intros _. apply preserves_bind_reach.
      * by apply preserves_wrap, preserves_OpenFile.
      * intros f (w & w1 & Hf). apply wrap_Ok, os_OpenFile_Ok in Hf as [-> _].
        apply preserves_wrap.
        by apply (preserves_Copy d _ (Some (th_Body h))).
    + apply preserves_ret.
Qed.

Lemma preserves_extractZip_files destDir files :
  strings_HasPrefix destDir (d +:+ suf) = true ->
  preserves d (extractZip_files destDir files).
Proof.
  intros Hdest. induction files as [|h rest IH]; simpl.
  - apply preserves_ret.
  - destruct (strings_HasPrefix _ destDir) eqn:Ht; simpl; [|apply preserves_fail].
    destruct (target_checked destDir (zf_Name h) Hdest Ht) as (Hav & HavD & Hout).
    destruct (zf_IsDir h).
    + apply preserves_bind; [|by intros _].
      by apply preserves_wrap, preserves_MkdirAll.
    + apply preserves_bind; [by apply preserves_wrap, preserves_MkdirAll|].
      intros _. apply preserves_bind_reach.
      * by apply preserves_wrap, preserves_OpenFile.
      * intros f (w & w1 & Hf). apply wrap_Ok, os_OpenFile_Ok in Hf as [-> _].
        apply preserves_bind; [apply preserves_wrap, preserves_lift|].
        intros rc. apply preserves_bind; [|by intros _].
        apply preserves_wrap. by apply (preserves_Copy d _ (Some rc)).
Qed.

Lemma stage_outside_decoder (p : fileProcessor) :
  (forall lib r destDir w, w_fs (p lib r destDir w).2 = w_fs w) -> stage_outside d suf p.
Proof. intros H lib r destDir _. apply preserves_pure. apply H. Qed.

Lemma stage_outside_Tar : stage_outside d suf extractTar.
Proof. intros lib r destDir H. by apply preserves_extractTar_entries. Qed.

Lemma stage_outside_Zip : stage_outside d suf extractZip.
Proof.
  intros lib r destDir H. unfold extractZip.
  apply preserves_bind; [apply preserves_wrap, preserves_scratch|]. intros _.
  apply preserves_bind.
  { apply preserves_wrap, preserves_bind; [apply preserves_scratch|].
    intros _. destruct (r_fail r); [apply preserves_fail|apply preserves_ret]. }
  intros _.
  apply preserves_bind; [apply preserves_wrap, preserves_scratch|]. intros _.
  apply preserves_bind; [apply preserves_wrap, preserves_lift|]. intros files.
  by apply preserves_extractZip_files.
Qed.

Lemma decoder_fs {A} (r : result A) (f : A -> option Reader) msg w :
  w_fs ((a ← wrap msg (lift r); mret (f a)) w).2 = w_fs w.
Proof. rewrite run_bind. unfold wrap, lift. by destruct r. Qed.

Lemma fileProcessorMap_outside contentType processors :
  fileProcessorMap contentType = Some processors ->
  Forall (stage_outside d suf) processors.
Proof.
  assert (stage_outside d suf extractGz) as HGz.
  { apply stage_outside_decoder. intros. apply decoder_fs. }
  assert (stage_outside d suf extractXz) as HXz.
  { apply stage_outside_decoder. intros. apply decoder_fs. }
  assert (stage_outside d suf extractBzip2) as HBz by by apply stage_outside_decoder.
  assert (stage_outside d suf extractLz4) as HLz by by apply stage_outside_decoder.
  assert (stage_outside d suf extractBrotli) as HBr by by apply stage_outside_decoder.
  pose proof stage_outside_Tar as HTar. pose proof stage_outside_Zip as HZip.
  unfold fileProcessorMap.
  repeat (destruct (String.eqb contentType _);
          [intros [= <-]; repeat constructor; done|]).
  done.
Qed.

Lemma preserves_processFile lib reader destDir processors :
  strings_HasPrefix destDir (d +:+ suf) = true ->
  Forall (stage_outside d suf) processors ->
  preserves d (processFile lib reader destDir processors).
Proof.
  intros Hdest Hps. revert reader.
  induction Hps as [|p ps Hp Hps IH]; intros reader; simpl.
  - apply preserves_ret.
  - apply preserves_bind; [apply preserves_ctx|]. intros [|].
    + apply preserves_fail.
    + apply preserves_bind; [by apply preserves_wrap, Hp|].
      intros [r|]; [apply IH|apply preserves_ret].
Qed.

Lemma preserves_writePluginFiles lib dir info :
  let plugindir := filepath_Join [dir; Name info] in
  strings_HasPrefix plugindir (d +:+ suf) = true ->
  strings_HasPrefix (filepath_Join [plugindir; FileName info]) (d +:+ suf) = true ->
  preserves d (writePluginFiles lib dir info).
Proof.
  intros plugindir Hplug Hbin. unfold writePluginFiles. fold plugindir.
  apply preserves_bind.
  { apply preserves_wrap, preserves_MkdirAll. by eapply avoids_sibling. }
  intros _. apply preserves_bind_reach.
  { destruct (Content info) as [v|v|v|t].
    - apply preserves_ret.
    - apply preserves_ret.
    - destruct (reader_Read 512 v) as [[sn fl] rest].
      destruct fl; [apply preserves_fail|].
      destruct (r_seekable v); apply preserves_ret.
    - apply preserves_fail. }
  intros [ct info1] (w & w1 & Hct).
  assert (FileName info1 = FileName info) as HFN.
  { destruct (Content info) as [v|v|v|t].
    - by apply lift_Ok in Hct as [[= _ <-] _].
    - by apply lift_Ok in Hct as [[= _ <-] _].
    - destruct (reader_Read 512 v) as [[sn fl] rest].
      destruct fl; [done|].
      destruct (r_seekable v); by apply lift_Ok in Hct as [[= _ <-] _].
    - done. }
  apply preserves_bind.
  { destruct (Content info1); try apply preserves_ret. apply preserves_fail. }
  intros reader. rewrite HFN.
  assert (inside d (filepath_Join [plugindir; FileName info]) = false) as Hout.
  { eapply outside_of_sibling; [done..|]. by left. }
  apply preserves_bind_reach.
  { by apply preserves_wrap, preserves_OpenFile. }
  intros f (w2 & w3 & Hf). apply wrap_Ok, os_OpenFile_Ok in Hf as [-> _].
  destruct (fileProcessorMap ct) as [ps|] eqn:Hmap.
  - apply preserves_bind.
    { apply preserves_wrap, preserves_processFile; [done|].
      by eapply fileProcessorMap_outside. }
    intros rd. apply preserves_bind; [|intros _; apply preserves_ret].
    by apply preserves_wrap, preserves_Copy.
  - apply preserves_bind; [|intros _; apply preserves_ret].
    by apply preserves_wrap, preserves_Copy.
Qed.

End extraction_frame.

(** ** Renaming a tree *)

Lemma string_drop_app a r : string_drop (String.length a) (a +:+ r) = r.
Proof. induction a as [|c a IH]; [done|]. rewrite app_cons. simpl. done. Qed.

Lemma reroot_app src dst r : reroot src dst (src +:+ r) = dst +:+ r.
Proof. unfold reroot. by rewrite string_drop_app. Qed.

Lemma fs_move_lookup_dst src dst fs r :
  proper src -> proper dst ->
  (r = "" \/ exists r', r = "/" +:+ r') ->
  fs_move src dst fs !! (dst +:+ r) = fs !! (src +:+ r).
Proof.
  intros Hsrc Hdst Hr. unfold fs_move.
  set (moved := filter (fun kv : string * node => inside src kv.1 = true) fs).
  set (L := (fun kv : string * node => (reroot src dst kv.1, kv.2))
              <$> map_to_list moved).
  assert (forall k v, (k, v) ∈ map_to_list moved <->
                      fs !! k = Some v /\ inside src k = true) as Hmoved.
  { intros k v. rewrite elem_of_map_to_list. subst moved.
    by rewrite map_lookup_filter_Some. }
  assert (NoDup L.*1) as Hnodup.
  { subst L. rewrite <- list_fmap_compose.
    apply NoDup_fmap_2_strong; [|apply NoDup_map_to_list].
    intros [k1 v1] [k2 v2] H1 H2 Heq. simpl in Heq.
    apply Hmoved in H1 as [Hv1 Hi1]. apply Hmoved in H2 as [Hv2 Hi2].
    apply inside_proper_form in Hi1 as (r1 & -> & _); [|done].
    apply inside_proper_form in Hi2 as (r2 & -> & _); [|done].
    rewrite !reroot_app in Heq. apply string_app_inv_head in Heq as ->.
    rewrite Hv1 in Hv2. by injection Hv2 as ->. }
  assert ((list_to_map L : gmap string node) !! (dst +:+ r) = fs !! (src +:+ r))
    as Hl.
  { destruct (fs !! (src +:+ r)) as [v|] eqn:Ev.
    - apply elem_of_list_to_map_1; [done|]. subst L.
      apply list_elem_of_fmap. exists (src +:+ r, v). simpl.
      rewrite reroot_app. split; [done|].
      apply Hmoved. split; [done|]. by apply inside_form_proper.
    - apply not_elem_of_list_to_map_1. intros Hin.
      apply list_elem_of_fmap in Hin as ([k1 v1] & Hk & Hin). simpl in Hk.
      subst L. apply list_elem_of_fmap in Hin as ([k0 v0] & [= -> ->] & Hin).
      simpl in Hk. apply Hmoved in Hin as [Hv Hi].
      apply inside_proper_form in Hi as (r1 & -> & _); [|done].
      rewrite reroot_app in Hk. apply string_app_inv_head in Hk as <-.
      by rewrite Ev in Hv. }
  rewrite lookup_union, Hl.
  assert (filter (fun kv : string * node =>
                    inside src kv.1 = false /\ inside dst kv.1 = false) fs
            !! (dst +:+ r) = None) as ->.
  { apply map_lookup_filter_None. right. intros v _ [_ H]. simpl in H.
    by rewrite inside_form_proper in H. }
  by destruct (fs !! (src +:+ r)).
Qed.

Lemma fs_rename_Ok src dst fs fs' :
  fs_rename src dst fs = Ok fs' -> src <> dst -> fs' = fs_move src dst fs.
Proof.
  unfold fs_rename. intros H Hne.
  destruct (String.eqb src "" || String.eqb dst ""); [done|].
  destruct (is_implicit_dir src || is_implicit_dir dst); [done|].
  destruct (fs !! src) as [sn|]; [|done].
  apply String.eqb_neq in Hne. rewrite Hne in H.
  destruct (inside src dst); [done|].
  destruct (inside dst src); [done|].
  destruct (fs_stat fs (path_parent dst)) as [[]|]; [done| |done].
  destruct sn, (fs !! dst) as [[]|]; try done; try by injection H.
  destruct (fs_has_children dst fs); [done|]. by injection H.
Qed.

Lemma os_Rename_Ok src dst w w' :
  os_Rename src dst w = (Ok tt, w') -> fs_rename src dst (w_fs w) = Ok (w_fs w').
Proof.
  unfold os_Rename. intros (_ & Hop & _)%syscall_Ok.
  unfold unit_op in Hop. destruct (fs_rename _ _ _); by simplify_eq.
Qed.

Lemma syscall_failed_fs {A}
    (op : gmap string node -> result (A * gmap string node)) w r w' :
  syscall op w = (r, w') -> (forall a, r <> Ok a) -> w_fs w' = w_fs w.
Proof.
  unfold syscall. destruct (next_fault w); [by intros [= <- <-]|].
  destruct (op (w_fs w)) as [[a fs']| |]; intros [= <- <-] Hr; [|done..].
  by destruct (Hr a).
Qed.

Lemma readMetadata_fs lib path w : w_fs (readMetadata lib path w).2 = w_fs w.
Proof.
  unfold readMetadata. rewrite run_bind.
  pose proof (os_ReadFile_fs path w) as H.
  destruct (os_ReadFile path w) as [[data|e|] w1]; simpl in *; [|done..].
  unfold lift. done.
Qed.

Lemma sibling_disjoint d suf k :
  proper d -> proper (d +:+ suf) -> sibling_suffix suf ->
  inside d k = true -> inside (d +:+ suf) k = false.
Proof.
  intros Hd Hds Hsuf Hk.
  destruct (inside (d +:+ suf) k) eqn:E; [exfalso|done].
  apply inside_proper_form in E as (r2 & -> & _); [|done].
  assert (inside d ((d +:+ suf) +:+ r2) = false) as Hout.
  { apply (outside_of_sibling d suf ((d +:+ suf) +:+ r2));
      [done|done|apply HasPrefix_app|by left]. }
  congruence.
Qed.

(** ** Upgrade keeps the live directory *)

Lemma sibling_suffix_upgrade : sibling_suffix ".upgrade".
Proof. by exists "."%char, "upgrade". Qed.

Lemma preserves_Upgrade_stage lib m name version pdir cur :
  proper pdir -> filepath_Clean pdir = pdir ->
  (forall fetched, store_Fetch (store m) name version = Ok fetched ->
                   staged_under (pdir +:+ ".upgrade") fetched) ->
  preserves pdir (Upgrade_stage lib m name version (pdir +:+ ".upgrade") cur).
Proof.
  intros Hd Hcanon Hrec. pose proof sibling_suffix_upgrade as Hsuf.
  unfold Upgrade_stage.
  apply preserves_bind.
  { apply preserves_wrap, preserves_MkdirAll.
    eapply avoids_sibling; [done..|]. rewrite <- (string_app_nil_r (_ +:+ _)) at 1.
    apply HasPrefix_app. }
  intros _. apply preserves_bind_reach; [apply preserves_wrap, preserves_lift|].
  intros fetched (w & w1 & Hf). apply wrap_Ok, lift_Ok in Hf as [Hf _].
  destruct (Hrec _ Hf) as [Hplug Hbin].
  apply preserves_bind.
  { apply preserves_wrap. by eapply preserves_writePluginFiles. }
  intros info. apply preserves_bind; [apply preserves_time|]. intros now.
  apply preserves_bind; [apply preserves_wrap, preserves_lift|]. intros bytes.
  apply preserves_wrap, preserves_WriteFile.
  rewrite (filepath_Join_suffixed pdir ".upgrade" "metadata.json");
    [|done|by destruct Hd|simpl; lia|done|done].
  eapply outside_of_sibling; [done..|apply HasPrefix_app|by left].
Qed.

Lemma live_after_cleanup pdir w k :
  proper pdir -> inside pdir k = true ->
  w_fs (os_RemoveAll (pdir +:+ ".upgrade") w).2 !! k = w_fs w !! k.
Proof.
  intros Hd Hk.
  destruct (upgrade_dir_proper pdir ".upgrade") as [Hne Himp]; [simpl; lia|].
  unfold os_RemoveAll. apply String.eqb_neq in Hne as ->.
  assert (String.eqb (pdir +:+ ".upgrade") "." = false) as ->.
  { unfold is_implicit_dir in Himp. by apply orb_false_iff in Himp as [_ ?]. }
  simpl. rewrite fs_remove_all_lookup.
  rewrite (sibling_disjoint pdir ".upgrade" k); [done|done| |apply sibling_suffix_upgrade|done].
  split; [|done]. intros E. apply (f_equal String.length) in E.
  rewrite string_app_length in E. simpl in E. lia.
Qed.

(** C4 (as amended). [Upgrade] is crash-tolerant for plugins whose live
    directory is a proper directory and whose fetched record keeps the
    staging inside the staging directory: when the staging of the new
    version fails, or the first rename fails, or the second rename fails
    while the restore of the backup succeeds, [Upgrade] does not succeed
    and every path in the live plugin directory [<pluginRoot>/<name>]
    holds after the call what it held before it -- the pre-upgrade content
    and record. *)
Theorem C4_Upgrade_keeps_live lib m name version w cur w1 r w' :
  let pdir := filepath_Join [pluginDir m; name] in
  Upgrade_past_checks lib m name version w cur w1 ->
  proper pdir ->
  (forall fetched, store_Fetch (store m) name version = Ok fetched ->
                   staged_under (pdir +:+ ".upgrade") fetched) ->
  Upgrade lib m name version w = (r, w') ->
  Upgrade_staging_failed lib m name version pdir cur w1
  \/ Upgrade_backup_failed lib m name version pdir cur w1
  \/ Upgrade_swap_failed_restored lib m name version pdir cur w1 ->
  (forall u, r <> Ok u)
  /\ forall k, inside pdir k = true -> w_fs w' !! k = w_fs w !! k.
Proof.
  intros pdir Hadm Hd Hrec Hrun Hmode.
  assert (filepath_Clean pdir = pdir) as Hcanon.
  { destruct (filepath_Join_canonical [pluginDir m; name]) as [E|E]; [|done].
    by destruct Hd. }
  assert (w_fs w1 = w_fs w) as Hw1.
  { destruct Hadm as (_ & _ & Hread & _).
    pose proof (readMetadata_fs lib
                  (filepath_Join [pdir; "metadata.json"]) (ctx_tick w)) as H.
    fold pdir in Hread. rewrite Hread in H. done. }
  pose proof (preserves_Upgrade_stage lib m name version pdir cur Hd Hcanon Hrec)
    as Hstage.
  rewrite (Upgrade_past_checks_run _ _ _ _ _ _ _ Hadm) in Hrun. fold pdir in Hrun.
  unfold Upgrade_steps, defer_RemoveAll in Hrun. rewrite run_bind in Hrun.
  destruct (upgrade_dir_proper pdir ".backup") as [Hbne Hbimp]; [simpl; lia|].
  assert (proper (pdir +:+ ".backup")) as Hbak by done.
  destruct Hmode as [(rs & ws & Hs & Hrs)|[(ws & ra & wa & Hs & Hr1 & Hra)
                    |(ws & wa & e & wb & wc & Hs & Hr1 & Hr2 & Hr3)]].
  - (* the staging fails *)
    rewrite Hs in Hrun. specialize (Hstage w1). rewrite Hs in Hstage.
    simpl in Hstage.
    assert (r = match rs with Ok _ => r | Err e => Err e | Panic => Panic end
            /\ w' = (os_RemoveAll (pdir +:+ ".upgrade") ws).2) as [Hr ->].
    { destruct rs as [u| |]; [by destruct (Hrs u)|by simplify_eq..]. }
    split.
    + destruct rs as [u| |]; [by destruct (Hrs u)|by rewrite Hr..].
    + intros k Hk. rewrite live_after_cleanup by done.
      by rewrite Hstage, Hw1.
  - (* the first rename fails *)
    rewrite Hs in Hrun. specialize (Hstage w1). rewrite Hs in Hstage.
    simpl in Hstage.
    unfold Upgrade_swap in Hrun. rewrite run_bind in Hrun.
    unfold wrap in Hrun. rewrite Hr1 in Hrun.
    pose proof (syscall_failed_fs _ _ _ _ Hr1 Hra) as Hfs.
    assert ((forall u, r <> Ok u)
            /\ w' = (os_RemoveAll (pdir +:+ ".upgrade") wa).2) as [Hr ->].
    { destruct ra as [u| |]; [by destruct (Hra u)|by simplify_eq..]. }
    split; [done|].
    intros k Hk. rewrite live_after_cleanup by done.
    by rewrite Hfs, Hstage, Hw1.
  - (* the second rename fails and the backup is restored *)
    rewrite Hs in Hrun. specialize (Hstage w1). rewrite Hs in Hstage.
    simpl in Hstage.
    unfold Upgrade_swap in Hrun. rewrite run_bind in Hrun.
    unfold wrap in Hrun. rewrite Hr1 in Hrun. rewrite Hr2 in Hrun.
    rewrite Hr3 in Hrun. simpl in Hrun. injection Hrun as <- <-.
    split; [done|].
    intros k Hk. rewrite live_after_cleanup by done.
    assert (pdir <> pdir +:+ ".backup") as Hne1.
    { intros E. apply (f_equal String.length) in E.
      rewrite string_app_length in E. simpl in E. lia. }
    apply os_Rename_Ok, fs_rename_Ok in Hr1; [|done].
    apply os_Rename_Ok, fs_rename_Ok in Hr3; [|done].
    assert (w_fs wb = w_fs wa) as Hwb by (by eapply syscall_failed_fs).
    apply inside_proper_form in Hk as (rr & -> & Hrr); [|done].
    rewrite Hr3, fs_move_lookup_dst by done.
    rewrite Hwb, Hr1, fs_move_lookup_dst by done.
    by rewrite Hstage, Hw1 by by apply inside_form_proper.
Qed.


Lemma C4_Upgrade_keeps_live_witness :
  let lib := sample_lib [installed_record] ([], None) in
  let m := sample_manager (sample_info "tool" "tool.bin" "2.0.0" (CString "hello, again")) in
  let w := second_rename_fails in
  let run := Upgrade lib m "tool" "2.0.0" w in
  run.1 = Err (ErrWrap "failed to install upgrade" (ErrSys EIO))
  /\ forall k, inside (filepath_Join [pluginDir m; "tool"]) k = true ->
               w_fs run.2 !! k = w_fs w !! k.
Proof.
  intros lib m w run. split; [vm_compute; reflexivity|].
  set (pdir := filepath_Join [pluginDir m; "tool"]).
  set (w1 := (readMetadata lib (filepath_Join [pdir; "metadata.json"])
                (ctx_tick w)).2).
  set (ws := (Upgrade_stage lib m "tool" "2.0.0" (pdir +:+ ".upgrade")
                installed_record w1).2).
  set (wa := (os_Rename pdir (pdir +:+ ".backup") ws).2).
  set (wb := (os_Rename (pdir +:+ ".upgrade") pdir wa).2).
  set (wc := (os_Rename (pdir +:+ ".backup") pdir wb).2).
  refine (proj2 (C4_Upgrade_keeps_live lib m "tool" "2.0.0" w installed_record w1
                   run.1 run.2 _ _ _ _ _)).
  - unfold Upgrade_past_checks. split_and!.
    + reflexivity.
    + vm_compute. discriminate.
    + vm_compute. reflexivity.
    + vm_compute. discriminate.
  - split; [vm_compute; discriminate|reflexivity].
  - intros fetched [= <-]. split; vm_compute; reflexivity.
  - apply surjective_pairing.
  - right; right. exists ws, wa, (ErrSys EIO), wb, wc. split_and!.
    + vm_compute. reflexivity.
    + vm_compute. reflexivity.
    + vm_compute. reflexivity.
    + vm_compute. reflexivity.
Defined.

(** C4 as stated fails: when the catalog's record carries a name that
    resolves into the live directory, the staging writes there, and a
    staging failure leaves the live plugin with content it did not have
    before the upgrade. *)
Lemma C4_counterexample :
  let lib := sample_lib [installed_record] ([], None) in
  let m := sample_manager climbing_record in
  let run := Upgrade lib m "tool" "2.0.0" installed_world in
  let binary := "/plugins/tool/tool/tool.bin" in
  Upgrade_staging_failed lib m "tool" "2.0.0" (filepath_Join [pluginDir m; "tool"])
    installed_record
    (readMetadata lib "/plugins/tool/metadata.json" (ctx_tick installed_world)).2
  /\ run.1 = Err (ErrWrap "failed to write upgraded plugin files"
                    (ErrWrap "failed to write plugin data" err_read))
  /\ inside (filepath_Join [pluginDir m; "tool"]) binary = true
  /\ w_fs installed_world !! binary = Some (NFile "hello" perm_0755)
  /\ w_fs run.2 !! binary = Some (NFile "partial" perm_0755).
Proof.
  intros lib m run binary. split.
  - eexists _, _. split; [apply surjective_pairing|].
    intros u. vm_compute. discriminate.
  - vm_compute. repeat split; reflexivity.
Qed.

(** ** The path check of the archive stages *)

(** C2. The entry ["../../etc/passwd"] is rejected by both archive stages
    with the invalid-path error and nothing is written.  But the check
    compares the joined path with the destination as text, so an entry
    that resolves to a sibling whose name starts with the destination's
    name passes it: ["../tool-evil/run"] extracted into
    ["/plugins/tool/tool"] is written at ["/plugins/tool/tool-evil/run"],
    outside the destination directory, and the stage reports success. *)
Theorem C2_archive_path_check :
  let destDir := "/plugins/tool/tool" in
  let w := installed_world in
  let r := bytes_NewReader "" in
  let outside := "/plugins/tool/tool-evil/run" in
  (* the climbing entry *)
  (extractTar (archive_lib [climbing_entry]) r destDir w).1
    = Err (ErrMsg "invalid tar path: ../../etc/passwd")
  /\ w_fs (extractTar (archive_lib [climbing_entry]) r destDir w).2 = w_fs w
  /\ (extractZip (archive_lib [climbing_entry]) r destDir w).1
    = Err (ErrMsg "invalid zip path: ../../etc/passwd")
  /\ w_fs (extractZip (archive_lib [climbing_entry]) r destDir w).2 = w_fs w
  (* the sibling entry *)
  /\ filepath_Join [destDir; filepath_Clean (th_Name sibling_entry)] = outside
  /\ inside destDir outside = false
  /\ w_fs w !! outside = None
  /\ (extractTar (archive_lib [sibling_entry]) r destDir w).1 = Ok None
  /\ w_fs (extractTar (archive_lib [sibling_entry]) r destDir w).2 !! outside
     = Some (NFile "payload" perm_0755)
  /\ (extractZip (archive_lib [sibling_entry]) r destDir w).1 = Ok None
  /\ w_fs (extractZip (archive_lib [sibling_entry]) r destDir w).2 !! outside
     = Some (NFile "payload" perm_0755).
Proof.
  intros destDir w r outside.
  split_and!; try reflexivity; vm_compute; reflexivity.
Qed.

(* ===================================================================== *)
(** * Part III. Further properties                                        *)
(* ===================================================================== *)


(** ** Relations every step of the pipeline keeps *)

Section evolution.
Variable R : relation World.
Hypothesis R_refl : forall w, R w w.
Hypothesis R_trans : forall a b c, R a b -> R b c -> R a c.
Hypothesis R_tick : forall w, R w (ctx_tick w).
Hypothesis R_fault : forall w, R w (pop_fault w).
Hypothesis R_mkdir_all :
  forall chain w fs', fs_mkdir_all chain (w_fs w) = Ok fs' -> R w (set_fs fs' w).
Hypothesis R_open_create :
  forall trunc p perm w fs',
    fs_open_create trunc p perm (w_fs w) = Ok fs' -> R w (set_fs fs' w).
Hypothesis R_write_at :
  forall p data w fs', fs_write_at p data (w_fs w) = Ok fs' -> R w (set_fs fs' w).

Lemma evolves_bind {A B} (m : M A) (f : A -> M B) :
  evolves R m -> (forall a, evolves R (f a)) -> evolves R (m ≫= f).
Proof.
  intros Hm Hf w. rewrite run_bind. specialize (Hm w).
  destruct (m w) as [[a|e|] w1] eqn:E; simpl in *; [|done..].
  eapply R_trans; [done|]. apply Hf.
Qed.

Lemma evolves_wrap {A} msg (m : M A) : evolves R m -> evolves R (wrap msg m).
Proof. intros Hm w. unfold wrap. specialize (Hm w). by destruct (m w) as [[a|e|] w1]. Qed.

Lemma evolves_pure {A} (m : M A) : (forall w, (m w).2 = w) -> evolves R m.
Proof. intros H w. rewrite H. apply R_refl. Qed.

Lemma evolves_ctx : evolves R ctx_Err.
Proof. intros w. apply R_tick. Qed.

Lemma evolves_syscall {A} (op : gmap string node -> result (A * gmap string node)) :
  (forall w a fs', op (w_fs w) = Ok (a, fs') -> R w (set_fs fs' w)) ->
  evolves R (syscall op).
Proof.
  intros Hop w. unfold syscall. destruct (next_fault w); [apply R_fault|].
  destruct (op (w_fs w)) as [[a fs']|e|] eqn:E; simpl; try apply R_fault.
  eapply R_trans; [apply R_fault|]. by apply (Hop (pop_fault w) a).
Qed.

Lemma evolves_MkdirAll p perm : evolves R (os_MkdirAll p perm).
Proof.
  apply evolves_syscall. intros w [] fs' Hop. unfold unit_op in Hop.
  destruct (fs_mkdir_all (mkdir_chain p) (w_fs w)) as [fs1| |] eqn:E; [|done..].
  injection Hop as <-. by eapply R_mkdir_all.
Qed.

Lemma evolves_OpenFile p perm : evolves R (os_OpenFile p perm).
Proof.
  apply evolves_syscall. intros w f fs' Hop.
  destruct (fs_open_create false p perm (w_fs w)) as [fs1| |] eqn:E; [|done..].
  injection Hop as _ <-. by eapply R_open_create.
Qed.

Lemma evolves_WriteFile p data perm : evolves R (os_WriteFile p data perm).
Proof.
  apply evolves_syscall. intros w [] fs' Hop. unfold unit_op in Hop.
  destruct (fs_open_create true p perm (w_fs w)) as [fs1| |] eqn:E1; [|done..].
  destruct (fs_write_at p data fs1) as [fs2| |] eqn:E2; [|done..].
  injection Hop as <-. eapply R_trans; [by eapply R_open_create|].
  by apply (R_write_at p data (set_fs fs1 w)).
Qed.

Lemma evolves_Copy f r : evolves R (io_Copy f r).
Proof.
  destruct r as [r|]; [|by apply evolves_pure].
  unfold io_Copy. apply evolves_bind.
  - apply evolves_syscall. intros w [] fs' Hop. unfold unit_op in Hop.
    destruct (fs_write_at f (r_data r) (w_fs w)) as [fs1| |] eqn:E; [|done..].
    injection Hop as <-. by eapply R_write_at.
  - intros _. by destruct (r_fail r); apply evolves_pure.
Qed.

Lemma evolves_extractTar_entries destDir entries last :
  evolves R (extractTar_entries destDir entries last).
Proof.
  induction entries as [|h rest IH]; simpl.
  - by destruct last; apply evolves_pure.
  - destruct (strings_HasPrefix _ destDir); simpl; [|by apply evolves_pure].
    apply evolves_bind; [|by intros _].
    destruct (th_Typeflag h).
    + apply evolves_wrap, evolves_MkdirAll.
    + apply evolves_bind; [apply evolves_wrap, evolves_MkdirAll|]. intros _.
      apply evolves_bind; [apply evolves_wrap, evolves_OpenFile|]. intros f.
      apply evolves_wrap, (evolves_Copy f (Some (th_Body h))).
    + by apply evolves_pure.
Qed.

Lemma evolves_extractZip_files destDir files :
  evolves R (extractZip_files destDir files).
Proof.
  induction files as [|h rest IH]; simpl.
  - by apply evolves_pure.
  - destruct (strings_HasPrefix _ destDir); simpl; [|by apply evolves_pure].
    destruct (zf_IsDir h).
    + apply evolves_bind; [|by intros _]. apply evolves_wrap, evolves_MkdirAll.
    + apply evolves_bind; [apply evolves_wrap, evolves_MkdirAll|]. intros _.
      apply evolves_bind; [apply evolves_wrap, evolves_OpenFile|]. intros f.
      apply evolves_bind; [by apply evolves_wrap, evolves_pure|]. intros rc.
      apply evolves_bind; [|by intros _].
      apply evolves_wrap, (evolves_Copy f (Some rc)).
Qed.

Lemma evolves_scratch : evolves R os_scratch.
Proof.
  intros w. unfold os_scratch, syscall. destruct (next_fault w); apply R_fault.
Qed.

Lemma evolves_extractZip lib r destDir : evolves R (extractZip lib r destDir).
Proof.
  unfold extractZip.
  apply evolves_bind; [apply evolves_wrap, evolves_scratch|]. intros _.
  apply evolves_bind.
  { apply evolves_wrap, evolves_bind; [apply evolves_scratch|].
    intros _. by destruct (r_fail r); apply evolves_pure. }
  intros _.
  apply evolves_bind; [apply evolves_wrap, evolves_scratch|]. intros _.
  apply evolves_bind; [by apply evolves_wrap, evolves_pure|]. intros files.
  apply evolves_extractZip_files.
Qed.

Lemma evolves_stage contentType processors :
  fileProcessorMap contentType = Some processors ->
  Forall (fun p : fileProcessor => forall lib r destDir, evolves R (p lib r destDir))
         processors.
Proof.
  assert (forall lib r destDir, evolves R (extractGz lib r destDir)) as HGz.
  { intros lib r destDir w. unfold extractGz. rewrite run_bind. unfold wrap, lift.
    destruct (gzip_NewReader lib r); apply R_refl. }
  assert (forall lib r destDir, evolves R (extractXz lib r destDir)) as HXz.
  { intros lib r destDir w. unfold extractXz. rewrite run_bind. unfold wrap, lift.
    destruct (xz_NewReader lib r); apply R_refl. }
  assert (forall lib r destDir, evolves R (extractBzip2 lib r destDir)) as HBz
    by by intros; apply evolves_pure.
  assert (forall lib r destDir, evolves R (extractLz4 lib r destDir)) as HLz
    by by intros; apply evolves_pure.
  assert (forall lib r destDir, evolves R (extractBrotli lib r destDir)) as HBr
    by by intros; apply evolves_pure.
  assert (forall lib r destDir, evolves R (extractTar lib r destDir)) as HTar
    by by intros; apply evolves_extractTar_entries.
  pose proof evolves_extractZip as HZip.
  unfold fileProcessorMap.
  repeat (destruct (String.eqb contentType _);
          [intros [= <-]; repeat constructor; done|]).
  done.
Qed.

Lemma evolves_processFile lib reader destDir processors :
  Forall (fun p : fileProcessor => forall lib r destDir, evolves R (p lib r destDir))
         processors ->
  evolves R (processFile lib reader destDir processors).
Proof.
  intros Hps. revert reader.
  induction Hps as [|p ps Hp Hps IH]; intros reader; simpl.
  - by apply evolves_pure.
  - apply evolves_bind; [apply evolves_ctx|]. intros [|].
    + by apply evolves_pure.
    + apply evolves_bind; [by apply evolves_wrap, Hp|].
      intros [r|]; [apply IH|by apply evolves_pure].
Qed.

(** [writePluginFiles] is the making of the plugin-specific directory
    followed by steps that keep [R]. *)
Lemma writePluginFiles_after_mkdir lib dir info :
  exists rest : M Info,
    writePluginFiles lib dir info
    = (wrap "failed to create plugin-specific directory"
            (os_MkdirAll (filepath_Join [dir; Name info]) perm_0755) ≫= fun _ => rest)
    /\ evolves R rest.
Proof.
  eexists. split; [reflexivity|].
  apply evolves_bind.
  { destruct (Content info) as [v|v|v|t]; try by apply evolves_pure.
    destruct (reader_Read 512 v) as [[sn fl] rest].
    destruct fl; [by apply evolves_pure|].
    by destruct (r_seekable v); apply evolves_pure. }
  intros [ct info1].
  apply evolves_bind; [by destruct (Content info1); apply evolves_pure|].
  intros reader.
  apply evolves_bind; [apply evolves_wrap, evolves_OpenFile|]. intros f.
  destruct (fileProcessorMap ct) as [ps|] eqn:Hmap.
  - apply evolves_bind.
    { apply evolves_wrap, evolves_processFile. by eapply evolves_stage. }
    intros rd. apply evolves_bind; [|by intros _; apply evolves_pure].
    apply evolves_wrap, evolves_Copy.
  - apply evolves_bind; [|by intros _; apply evolves_pure].
    apply evolves_wrap, evolves_Copy.
Qed.

Lemma evolves_writePluginFiles lib dir info :
  evolves R (writePluginFiles lib dir info).
Proof.
  destruct (writePluginFiles_after_mkdir lib dir info) as (rest & -> & Hrest).
  apply evolves_bind; [apply evolves_wrap, evolves_MkdirAll|]. by intros _.
Qed.

(** [Install] from the point where the plugin directory is made. *)
Lemma evolves_Install_finish lib m name version pdir :
  evolves R
    (info ← wrap "failed to fetch plugin" (lift (store_Fetch (store m) name version));
     info ← wrap "failed to install plugin" (writePluginFiles lib pdir info);
     now ← time_Now;
     metadataBytes ← wrap "failed to marshal metadata"
       (lift (json_MarshalIndent lib
                (stamp version "enabled" {["installed" := now]} info)));
     wrap "failed to save metadata"
          (os_WriteFile (filepath_Join [pdir; "metadata.json"])
                        metadataBytes perm_0644)).
Proof.
  apply evolves_bind; [by apply evolves_wrap, evolves_pure|]. intros info.
  apply evolves_bind; [apply evolves_wrap, evolves_writePluginFiles|]. intros info1.
  apply evolves_bind; [by apply evolves_pure|]. intros now.
  apply evolves_bind; [by apply evolves_wrap, evolves_pure|]. intros bytes.
  apply evolves_wrap, evolves_WriteFile.
Qed.

Lemma evolves_Upgrade_stage lib m name version tmpDir cur :
  evolves R (Upgrade_stage lib m name version tmpDir cur).
Proof.
  unfold Upgrade_stage.
  apply evolves_bind; [apply evolves_wrap, evolves_MkdirAll|]. intros _.
  apply evolves_bind; [by apply evolves_wrap, evolves_pure|]. intros info.
  apply evolves_bind; [apply evolves_wrap, evolves_writePluginFiles|]. intros info1.
  apply evolves_bind; [by apply evolves_pure|]. intros now.
  apply evolves_bind; [by apply evolves_wrap, evolves_pure|]. intros bytes.
  apply evolves_wrap, evolves_WriteFile.
Qed.

End evolution.

Lemma grows_refl fs : grows fs fs.
Proof. intros k. destruct (fs !! k) as [[d pm|]|]; eauto. Qed.

Lemma grows_trans a b c : grows a b -> grows b c -> grows a c.
Proof.
  intros Hab Hbc k. specialize (Hab k). specialize (Hbc k).
  destruct (a !! k) as [[d pm|]|]; [| |done].
  - destruct Hab as (d' & pm' & E). by rewrite E in Hbc.
  - by rewrite Hab in Hbc.
Qed.

Lemma grows_insert_new k n fs : fs !! k = None -> grows fs (<[k := n]> fs).
Proof.
  intros Hk k'. destruct (decide (k' = k)) as [->|Hne].
  - by rewrite Hk.
  - rewrite lookup_insert_ne by done. apply grows_refl.
Qed.

Lemma grows_insert_file k d pm d' pm' fs :
  fs !! k = Some (NFile d pm) -> grows fs (<[k := NFile d' pm']> fs).
Proof.
  intros Hk k'. destruct (decide (k' = k)) as [->|Hne].
  - rewrite Hk, lookup_insert_eq. eauto.
  - rewrite lookup_insert_ne by done. apply grows_refl.
Qed.

Lemma grows_mkdir_all chain fs fs' : fs_mkdir_all chain fs = Ok fs' -> grows fs fs'.
Proof.
  intros H k. destruct (fs_mkdir_all_frame _ _ _ H k) as [->|(E & _)].
  - apply grows_refl.
  - by rewrite E.
Qed.

Lemma grows_open_create trunc p perm fs fs' :
  fs_open_create trunc p perm fs = Ok fs' -> grows fs fs'.
Proof.
  intros [(old & pm & E & ->)|[E ->]]%fs_open_create_Ok.
  - destruct trunc; [by eapply grows_insert_file|apply grows_refl].
  - apply grows_insert_new. by apply fs_stat_None.
Qed.

Lemma grows_write_at p data fs fs' : fs_write_at p data fs = Ok fs' -> grows fs fs'.
Proof.
  unfold fs_write_at. destruct (fs !! p) as [[old pm|]|] eqn:E; [|done..].
  intros [= <-]. by eapply grows_insert_file.
Qed.


Lemma grows_dir fs fs' p :
  grows fs fs' -> fs_stat fs p = Some NDir -> fs_stat fs' p = Some NDir.
Proof.
  unfold fs_stat. intros H. destruct (is_implicit_dir p); [done|].
  intros E. specialize (H p). by rewrite E in H.
Qed.

Lemma fs_mkdir_all_dir p parents fs fs' :
  fs_mkdir_all (p :: parents) fs = Ok fs' -> fs_stat fs' p = Some NDir.
Proof.
  simpl. destruct (fs_stat fs p) as [[d pm|]|] eqn:E.
  - done.
  - by intros [= <-].
  - destruct (fs_mkdir_all parents fs) as [fs1|e|]; [|done..].
    destruct (fs_mkdir p fs1) as [fs2|e|] eqn:E2.
    + intros [= <-]. apply fs_mkdir_Ok in E2 as [E2 ->].
      unfold fs_stat in *. destruct (is_implicit_dir p); [done|].
      by rewrite lookup_insert_eq.
    + destruct (fs_stat fs1 p) as [[d pm|]|] eqn:E3; [done| |done].
      by intros [= <-].
    + done.
Qed.

Lemma fs_grows_writePluginFiles lib dir info :
  evolves fs_grows (writePluginFiles lib dir info).
Proof.
  apply evolves_writePluginFiles; unfold fs_grows; intros; simpl;
    eauto using grows_refl, grows_trans, grows_mkdir_all, grows_open_create,
                grows_write_at.
Qed.

Lemma fs_grows_Install_finish lib m name version pdir :
  evolves fs_grows
    (info ← wrap "failed to fetch plugin" (lift (store_Fetch (store m) name version));
     info ← wrap "failed to install plugin" (writePluginFiles lib pdir info);
     now ← time_Now;
     metadataBytes ← wrap "failed to marshal metadata"
       (lift (json_MarshalIndent lib
                (stamp version "enabled" {["installed" := now]} info)));
     wrap "failed to save metadata"
          (os_WriteFile (filepath_Join [pdir; "metadata.json"])
                        metadataBytes perm_0644)).
Proof.
  apply evolves_Install_finish; unfold fs_grows; intros; simpl;
    eauto using grows_refl, grows_trans, grows_mkdir_all, grows_open_create,
                grows_write_at.
Qed.


Lemma fs_grows_refl w : fs_grows w w.
Proof. apply grows_refl. Qed.

Lemma fs_grows_trans a b c : fs_grows a b -> fs_grows b c -> fs_grows a c.
Proof. apply grows_trans. Qed.

Lemma fs_grows_WriteFile p data perm : evolves fs_grows (os_WriteFile p data perm).
Proof.
  apply evolves_WriteFile; unfold fs_grows; intros; simpl;
    eauto using grows_refl, grows_trans, grows_mkdir_all, grows_open_create,
                grows_write_at.
Qed.

(** The plugin-specific directory is there when [writePluginFiles] has
    succeeded. *)
Lemma writePluginFiles_Ok_dir lib dir info w info' w' :
  writePluginFiles lib dir info w = (Ok info', w') ->
  fs_stat (w_fs w') (filepath_Join [dir; Name info]) = Some NDir.
Proof.
  destruct (writePluginFiles_after_mkdir fs_grows fs_grows_refl fs_grows_trans)
    with (lib := lib) (dir := dir) (info := info) as (rest & -> & Hrest).
  - intros w0. apply grows_refl.
  - intros w0. apply grows_refl.
  - intros chain w0 fs' H. by eapply grows_mkdir_all.
  - intros trunc p perm w0 fs' H. by eapply grows_open_create.
  - intros p data w0 fs' H. by eapply grows_write_at.
  - intros ([] & w1 & Hmk & H)%bind_Ok.
    apply wrap_Ok, os_MkdirAll_Ok, fs_mkdir_all_dir in Hmk.
    eapply grows_dir; [|exact Hmk].
    specialize (Hrest w1). by rewrite H in Hrest.
Qed.

(** A successful [Install] started without the plugin directory, made it
    with its missing parents, and nothing was removed afterwards. *)
Lemma Install_Ok_mkdir lib m name version w w' :
  let pdir := filepath_Join [pluginDir m; name] in
  Install lib m name version w = (Ok tt, w') ->
  pluginDir m <> "" /\ fs_stat (w_fs w) pdir = None
  /\ exists fs1, fs_mkdir_all (mkdir_chain pdir) (w_fs w) = Ok fs1
                 /\ grows fs1 (w_fs w').
Proof.
  intros pdir. rewrite Install_unfold. cbv zeta. fold pdir.
  destruct (ctx_done w); [done|].
  destruct (String.eqb (pluginDir m) "") eqn:Hroot; [done|].
  apply String.eqb_neq in Hroot.
  destruct (fs_stat (w_fs w) pdir) eqn:Hstat; [done|].
  unfold defer_cleanup.
  destruct (Install_steps _ _ _ _ _ _) as [[[]|e|] wb] eqn:Hsteps; [|done..].
  intros [= <-]. split; [done|]. split; [done|].
  unfold Install_steps in Hsteps.
  apply bind_Ok in Hsteps as ([] & w1 & Hmk & H).
  apply wrap_Ok, os_MkdirAll_Ok in Hmk.
  change (w_fs (ctx_tick w)) with (w_fs w) in Hmk.
  exists (w_fs w1). split; [done|].
  pose proof (fs_grows_Install_finish lib m name version pdir w1) as Hev.
  cbv beta in H. unfold stamp in *. by rewrite H in Hev.
Qed.

(** In particular the plugin directory is there afterwards. *)
Lemma Install_Ok_dir lib m name version w w' :
  let pdir := filepath_Join [pluginDir m; name] in
  Install lib m name version w = (Ok tt, w') ->
  pluginDir m <> "" /\ fs_stat (w_fs w) pdir = None
  /\ fs_stat (w_fs w') pdir = Some NDir.
Proof.
  intros pdir (Hroot & Hnew & fs1 & Hmk & Hg)%Install_Ok_mkdir.
  split; [done|]. split; [done|].
  apply fs_mkdir_all_dir in Hmk. by eapply grows_dir.
Qed.




(** X2. Installing twice: after a successful [Install], another [Install]
    under the same name (any version) is refused as already installed,
    and the tree stays as the first one left it. *)
Theorem Install_twice lib m name version version' w w' :
  Install lib m name version w = (Ok tt, w') ->
  ctx_done w' = false ->
  (Install lib m name version' w').1
    = Err (ErrMsg ("plugin " +:+ name +:+ " is already installed"))
  /\ w_fs (Install lib m name version' w').2 = w_fs w'.
Proof.
  intros (Hroot & _ & Hdir)%Install_Ok_dir Hctx.
  rewrite Install_unfold, Hctx. apply String.eqb_neq in Hroot as ->.
  cbv zeta. by rewrite Hdir.
Qed.

Lemma Install_twice_witness :
  let lib := sample_lib [] ([], None) in
  let m := sample_manager (sample_info "tool" "tool.bin" "1.0.0" (CString "hello")) in
  (Install lib m "tool" "2.0.0" installed_world).1
    = Err (ErrMsg "plugin tool is already installed")
  /\ w_fs (Install lib m "tool" "2.0.0" installed_world).2 = w_fs installed_world.
Proof.
  intros lib m.
  refine (Install_twice lib m "tool" "1.0.0" "2.0.0" (sample_world ∅)
            installed_world _ _).
  - unfold installed_world.
    rewrite (surjective_pairing (Install _ _ _ _ _)) at 1. f_equal.
  - reflexivity.
Defined.



(** ** What a successful run went through *)

Lemma Install_Ok_inv lib m name version w w' :
  Install lib m name version w = (Ok tt, w') ->
  exists fetched w1 info w2,
    store_Fetch (store m) name version = Ok fetched
    /\ writePluginFiles lib (filepath_Join [pluginDir m; name]) fetched w1
       = (Ok info, w2)
    /\ fs_grows w2 w'.
Proof.
  rewrite Install_unfold. cbv zeta.
  destruct (ctx_done w); [done|].
  destruct (String.eqb (pluginDir m) ""); [done|].
  destruct (fs_stat (w_fs w) _); [done|].
  unfold defer_cleanup.
  destruct (Install_steps _ _ _ _ _ _) as [[[]|e|] wb] eqn:Hsteps; [|done..].
  intros [= <-]. unfold Install_steps in Hsteps.
  apply bind_Ok in Hsteps as (_ & w1 & _ & H).
  apply bind_Ok in H as (fetched & w2 & Hf & H).
  apply wrap_Ok, lift_Ok in Hf as [Hf ->].
  apply bind_Ok in H as (i1 & w3 & Hw & H).
  apply wrap_Ok in Hw.
  apply bind_Ok in H as (now & w4 & Hnow & H). injection Hnow as <- <-.
  apply bind_Ok in H as (data & w5 & Hm & H).
  apply wrap_Ok, lift_Ok in Hm as [Hm ->].
  apply wrap_Ok in H.
  exists fetched, w1, i1, w3. split; [done|]. split; [done|].
  pose proof (fs_grows_WriteFile
                (filepath_Join [filepath_Join [pluginDir m; name]; "metadata.json"])
                data perm_0644 w3) as Hg.
  by rewrite H in Hg.
Qed.

Lemma Upgrade_Ok_inv lib m name version w w' :
  let pdir := filepath_Join [pluginDir m; name] in
  Upgrade lib m name version w = (Ok tt, w') ->
  exists cur w1 ws wa wb,
    Upgrade_past_checks lib m name version w cur w1
    /\ Upgrade_stage lib m name version (pdir +:+ ".upgrade") cur w1 = (Ok tt, ws)
    /\ os_Rename pdir (pdir +:+ ".backup") ws = (Ok tt, wa)
    /\ os_Rename (pdir +:+ ".upgrade") pdir wa = (Ok tt, wb)
    /\ w' = (os_RemoveAll (pdir +:+ ".upgrade")
               (os_RemoveAll (pdir +:+ ".backup") wb).2).2.
Proof.
  intros pdir. rewrite Upgrade_unfold. fold pdir. cbv zeta.
  destruct (ctx_done w) eqn:Hctx; [done|].
  assert ((os_Stat pdir (ctx_tick w)).1 <> Err (ErrSys ENOENT)
          \/ (fs_stat (w_fs w) pdir = None /\ lookup_errno (w_fs w) pdir = ENOENT))
    as [Hstat|[E1 E2]].
  { unfold os_Stat. change (w_fs (ctx_tick w)) with (w_fs w).
    destruct (fs_stat (w_fs w) pdir); [by left|].
    destruct (lookup_errno (w_fs w) pdir); (by left) || by right. }
  2: { by rewrite E1, E2. }
  intros H.
  assert (match wrap "failed to read current plugin metadata"
                  (readMetadata lib (filepath_Join [pdir; "metadata.json"]))
                  (ctx_tick w) with
          | (Ok currentInfo, w1) =>
              if String.eqb (Version currentInfo) version then
                (Err (ErrMsg ("plugin " +:+ name +:+ " is already at version "
                              +:+ version)), w1)
              else Upgrade_steps lib m name version pdir currentInfo w1
          | (Err e, w1) => (Err e, w1)
          | (Panic, w1) => (Panic, w1)
          end = (Ok tt, w')) as H'.
  { destruct (fs_stat (w_fs w) pdir); [done|].
    by destruct (lookup_errno (w_fs w) pdir). }
  clear H. destruct (wrap _ _ _) as [[cur|e|] w1] eqn:Hread; [|done..].
  apply wrap_Ok in Hread.
  destruct (String.eqb (Version cur) version) eqn:Hver; [done|].
  apply String.eqb_neq in Hver.
  unfold Upgrade_steps, defer_RemoveAll in H'.
  destruct (@mbind M _ _ _ _ _ w1) as [rb wb] eqn:Hbody.
  injection H' as -> <-.
  apply bind_Ok in Hbody as ([] & ws & Hstage & Hswap).
  unfold Upgrade_swap in Hswap.
  apply bind_Ok in Hswap as ([] & wa & Hbak & Hswap). apply wrap_Ok in Hbak.
  destruct (os_Rename (pdir +:+ ".upgrade") pdir wa) as [[[]|e|] wc] eqn:Hmv;
    [|done..].
  injection Hswap as <-.
  exists cur, w1, ws, wa, wc. split_and!; try done.
Qed.

(** ** Terminal stages *)

Lemma extractTar_entries_Ok destDir entries last w rd w' :
  extractTar_entries destDir entries last w = (Ok rd, w') -> rd = None.
Proof.
  revert w. induction entries as [|h rest IH]; intros w; simpl.
  - destruct last; [done|]. by intros [= <- _].
  - destruct (strings_HasPrefix _ destDir); simpl; [|done].
    intros (_ & w1 & _ & H)%bind_Ok. by eapply IH.
Qed.

Lemma extractZip_files_Ok destDir files w rd w' :
  extractZip_files destDir files w = (Ok rd, w') -> rd = None.
Proof.
  revert w. induction files as [|h rest IH]; intros w; simpl.
  - by intros [= <- _].
  - destruct (strings_HasPrefix _ destDir); simpl; [|done].
    destruct (zf_IsDir h).
    + intros (_ & w1 & _ & H)%bind_Ok. by eapply IH.
    + intros (_ & w1 & _ & H)%bind_Ok.
      apply bind_Ok in H as (f & w2 & _ & H).
      apply bind_Ok in H as (rc & w3 & _ & H).
      apply bind_Ok in H as (_ & w4 & _ & H). by eapply IH.
Qed.

Lemma extractTar_Ok lib r destDir w rd w' :
  extractTar lib r destDir w = (Ok rd, w') -> rd = None.
Proof. apply extractTar_entries_Ok. Qed.

Lemma extractZip_Ok lib r destDir w rd w' :
  extractZip lib r destDir w = (Ok rd, w') -> rd = None.
Proof.
  unfold extractZip.
  intros (_ & w1 & _ & H)%bind_Ok.
  apply bind_Ok in H as (_ & w2 & _ & H).
  apply bind_Ok in H as (_ & w3 & _ & H).
  apply bind_Ok in H as (files & w4 & _ & H).
  by eapply extractZip_files_Ok.
Qed.

Lemma processFile_cons_Ok lib r destDir p ps w rd w' :
  processFile lib r destDir (p :: ps) w = (Ok rd, w') ->
  exists w1 x w2,
    p lib r destDir w1 = (Ok x, w2)
    /\ match x with
       | None => rd = None
       | Some r' => processFile lib r' destDir ps w2 = (Ok rd, w')
       end.
Proof.
  simpl. intros ([|] & w1 & _ & H)%bind_Ok; [done|].
  apply bind_Ok in H as (x & w2 & Hp & H). apply wrap_Ok in Hp.
  exists w1, x, w2. split; [done|].
  destruct x; [done|]. by injection H as <-.
Qed.

(** Every chain of the processor table ends with an extraction stage, and
    a chain that runs to its end hands back no reader. *)
Lemma processFile_table_Ok lib contentType ps r destDir w rd w' :
  fileProcessorMap contentType = Some ps ->
  processFile lib r destDir ps w = (Ok rd, w') -> rd = None.
Proof.
  assert (forall p r w, (p = extractTar \/ p = extractZip) ->
            processFile lib r destDir [p] w = (Ok rd, w') -> rd = None) as Hone.
  { intros p r0 w0 Hp (w1 & x & w2 & Hx & H)%processFile_cons_Ok.
    assert (x = None) as ->; [|done].
    destruct Hp as [-> | ->];
      [by eapply extractTar_Ok|by eapply extractZip_Ok]. }
  assert (forall p, processFile lib r destDir [p; extractTar] w = (Ok rd, w') ->
                    rd = None) as Htwo.
  { intros p (w1 & x & w2 & Hx & H)%processFile_cons_Ok.
    destruct x as [r'|]; [|done]. eapply Hone; [|done]. by left. }
  unfold fileProcessorMap.
  repeat (destruct (String.eqb contentType _);
          [intros [= <-]; first [apply Htwo | apply Hone; by right]|]).
  done.
Qed.

Lemma content_detected lib info ct info1 w w1 :
  match Content info with
  | CString v => mret (http_DetectContentType lib v, info)
  | CBytes v => mret (http_DetectContentType lib v, info)
  | CReader v =>
      let '(sniffBuf, failed, rest) := reader_Read 512 v in
      if failed : bool then
        fail (ErrWrap "failed to read content for type detection" err_read)
      else if r_seekable v then
        mret (http_DetectContentType lib sniffBuf, info)
      else
        mret (http_DetectContentType lib sniffBuf,
              set_Content (CReader (io_MultiReader sniffBuf rest)) info)
  | COther t => fail (ErrMsg ("unsupported plugin data type: " +:+ t))
  end w = (Ok (ct, info1), w1) ->
  ct = http_DetectContentType lib (content_sniffed (Content info))
  /\ FileName info1 = FileName info /\ w1 = w.
Proof.
  destruct (Content info) as [v|v|v|t].
  - by intros [[= <- <-] ->]%lift_Ok.
  - by intros [[= <- <-] ->]%lift_Ok.
  - unfold reader_Read. destruct (_ && _); [done|].
    destruct (r_seekable v); by intros [[= <- <-] ->]%lift_Ok.
  - done.
Qed.

(** A record whose content is of a type the processor table knows is
    never written successfully: once the chain has run, the reader it
    leaves is nil and copying from it panics. *)
Lemma writePluginFiles_archive lib dir info w ps info' w' :
  fileProcessorMap (http_DetectContentType lib (content_sniffed (Content info)))
    = Some ps ->
  writePluginFiles lib dir info w <> (Ok info', w').
Proof.
  intros Hmap H. unfold writePluginFiles in H.
  apply bind_Ok in H as (_ & w1 & _ & H).
  apply bind_Ok in H as ([ct i1] & w2 & Hct & H).
  apply content_detected in Hct as (-> & _ & ->).
  apply bind_Ok in H as (rd & w3 & _ & H).
  apply bind_Ok in H as (bf & w4 & _ & H).
  rewrite Hmap in H.
  apply bind_Ok in H as (rd' & w5 & Hp & H). apply wrap_Ok in Hp.
  apply (processFile_table_Ok _ _ _ _ _ _ _ _ Hmap) in Hp as ->.
  by apply bind_Ok in H as (? & w6 & H & _).
Qed.

(** [Install] and [Upgrade] succeed only if [writePluginFiles] does on the
    record the store hands out. *)
Lemma never_written lib m name version w :
  (forall fetched, store_Fetch (store m) name version = Ok fetched ->
     forall dir w1 info w2, writePluginFiles lib dir fetched w1 <> (Ok info, w2)) ->
  (Install lib m name version w).1 <> Ok tt
  /\ (Upgrade lib m name version w).1 <> Ok tt.
Proof.
  intros Hnever. split.
  - destruct (Install lib m name version w) as [r w'] eqn:Hrun. simpl.
    intros ->.
    apply Install_Ok_inv in Hrun as (f & w1 & i & w2 & Hf & Hw & _).
    by eapply Hnever.
  - destruct (Upgrade lib m name version w) as [r w'] eqn:Hrun. simpl.
    intros ->.
    apply Upgrade_Ok_inv in Hrun as (cur & w1 & ws & wa & wb & _ & Hst & _).
    unfold Upgrade_stage in Hst.
    apply bind_Ok in Hst as (_ & w2 & _ & H).
    apply bind_Ok in H as (f & w3 & Hf & H).
    apply wrap_Ok, lift_Ok in Hf as [Hf ->].
    apply bind_Ok in H as (i1 & w4 & Hw & _). apply wrap_Ok in Hw.
    by eapply Hnever.
Qed.

Lemma filepath_Join_empty_r (p : string) :
  p <> "" -> filepath_Join [p; ""] = filepath_Clean p.
Proof.
  intros Hp. unfold filepath_Join. simpl.
  by apply String.eqb_neq in Hp as ->.
Qed.

(** With an empty file name the path of the plugin file is the
    plugin-specific directory itself, which was just made: opening it for
    writing fails. *)
Lemma writePluginFiles_no_FileName lib dir info w info' w' :
  FileName info = "" ->
  writePluginFiles lib dir info w <> (Ok info', w').
Proof.
  intros HFN H. unfold writePluginFiles in H.
  set (plugindir := filepath_Join [dir; Name info]) in *.
  apply bind_Ok in H as ([] & w1 & Hmk & H).
  apply wrap_Ok, os_MkdirAll_Ok, fs_mkdir_all_dir in Hmk.
  apply bind_Ok in H as ([ct i1] & w2 & Hct & H).
  apply content_detected in Hct as (_ & HFN1 & ->).
  rewrite HFN in HFN1.
  apply bind_Ok in H as (rd & w3 & Hrd & H).
  assert (w3 = w1) as ->.
  { by destruct (Content i1); try apply lift_Ok in Hrd as [_ ->]. }
  apply bind_Ok in H as (bf & w4 & Hopen & _).
  apply wrap_Ok, os_OpenFile_Ok in Hopen as [_ Hopen].
  rewrite HFN1 in Hopen. unfold fs_open_create in Hopen.
  destruct (decide (plugindir = "")) as [E|Hne].
  - rewrite E in Hopen. done.
  - rewrite filepath_Join_empty_r in Hopen by done.
    assert (filepath_Clean plugindir = plugindir) as Hcanon.
    { by destruct (filepath_Join_canonical [dir; Name info]). }
    rewrite Hcanon in Hopen.
    apply String.eqb_neq in Hne. rewrite Hne, Hmk in Hopen. done.
Qed.

(** X4. Archives never install.  When the store's record carries content
    that format detection maps to a processor chain (gzip, zip, xz, bzip2,
    lz4 or brotli data), neither [Install] nor [Upgrade] ever returns
    success: a stage fails, or the chain completes and the copy from the
    nil reader it returns panics. *)
Theorem archive_content_never_installs lib m name version w fetched ps :
  store_Fetch (store m) name version = Ok fetched ->
  fileProcessorMap (http_DetectContentType lib (content_sniffed (Content fetched)))
    = Some ps ->
  (Install lib m name version w).1 <> Ok tt
  /\ (Upgrade lib m name version w).1 <> Ok tt.
Proof.
  intros Hfetch Hmap. apply never_written.
  intros f Hf dir w1 info w2. rewrite Hfetch in Hf. injection Hf as <-.
  by eapply writePluginFiles_archive.
Qed.

Lemma archive_content_never_installs_witness :
  let lib := sample_lib [] ([], None) in
  let m := sample_manager
             (sample_info "tool" "tool.bin" "1.0.0" (CBytes (gzip_magic +:+ "data"))) in
  (Install lib m "tool" "1.0.0" (sample_world ∅)).1 = Panic
  /\ (Install lib m "tool" "1.0.0" (sample_world ∅)).1 <> Ok tt
  /\ (Upgrade lib m "tool" "1.0.0" (sample_world ∅)).1 <> Ok tt.
Proof.
  intros lib m. split; [vm_compute; reflexivity|].
  refine (archive_content_never_installs lib m "tool" "1.0.0" (sample_world ∅)
            (sample_info "tool" "tool.bin" "1.0.0" (CBytes (gzip_magic +:+ "data")))
            [extractGz; extractTar] _ _).
  - reflexivity.
  - reflexivity.
Defined.

(** X5. A record without a file name never installs.  When the store's
    record has an empty [FileName], the plugin file's path is the
    plugin-specific directory itself, so neither [Install] nor [Upgrade]
    ever returns success. *)
Theorem empty_FileName_never_installs lib m name version w fetched :
  store_Fetch (store m) name version = Ok fetched ->
  FileName fetched = "" ->
  (Install lib m name version w).1 <> Ok tt
  /\ (Upgrade lib m name version w).1 <> Ok tt.
Proof.
  intros Hfetch HFN. apply never_written.
  intros f Hf dir w1 info w2. rewrite Hfetch in Hf. injection Hf as <-.
  by apply writePluginFiles_no_FileName.
Qed.

Lemma empty_FileName_never_installs_witness :
  let lib := sample_lib [] ([], None) in
  let m := sample_manager (sample_info "tool" "" "1.0.0" (CString "hello")) in
  (Install lib m "tool" "1.0.0" (sample_world ∅)).1
    = Err (ErrWrap "failed to install plugin"
             (ErrWrap "failed to create plugin file" (ErrSys EISDIR)))
  /\ (Install lib m "tool" "1.0.0" (sample_world ∅)).1 <> Ok tt
  /\ (Upgrade lib m "tool" "1.0.0" (sample_world ∅)).1 <> Ok tt.
Proof.
  intros lib m. split; [vm_compute; reflexivity|].
  refine (empty_FileName_never_installs lib m "tool" "1.0.0" (sample_world ∅)
            (sample_info "tool" "" "1.0.0" (CString "hello")) _ _).
  - reflexivity.
  - reflexivity.
Defined.

(** ** Joining in steps *)

Lemma clean_elems_app rooted out l1 l2 :
  clean_elems rooted out (l1 ++ l2)
  = clean_elems rooted (rev (clean_elems rooted out l1)) l2.
Proof.
  revert out. induction l1 as [|c l1 IH]; intros out; simpl.
  - by rewrite rev_involutive.
  - destruct (String.eqb c "" || String.eqb c "."); [apply IH|].
    destruct (String.eqb c "..").
    + destruct out as [|top out'].
      * destruct rooted; apply IH.
      * destruct (String.eqb top ".."); apply IH.
    + apply IH.
Qed.

Lemma split_sep_app_sep cur x c :
  split_sep cur (x +:+ "/" +:+ c) = (split_sep cur x ++ split_sep "" c)%list.
Proof.
  revert cur. induction x as [|a x IH]; intros cur.
  - by rewrite app_nil_l.
  - rewrite app_cons. simpl. destruct (Ascii.eqb a Separator).
    + by rewrite IH.
    + apply IH.
Qed.

Lemma split_render rooted cs :
  good_stack rooted (rev cs) ->
  clean_elems rooted [] (split_sep "" (render rooted cs)) = cs.
Proof.
  intros Hgood. pose proof (good_list_elems _ _ Hgood) as Helems.
  assert (Forall (fun c => has_sep c = false) cs) as Hnosep
    by (eapply Forall_impl; [exact Helems|]; by intros ? [_ ?]).
  assert (clean_elems rooted [] cs = cs) as Hfix.
  { rewrite clean_elems_fix; [done|]. by rewrite app_nil_r. }
  destruct rooted.
  - unfold render. rewrite split_sep_sep.
    destruct cs as [|c cs]; [done|].
    rewrite split_join by done.
    change (clean_elems true [] ("" :: c :: cs)) with (clean_elems true [] (c :: cs)).
    done.
  - destruct cs as [|c cs]; [done|].
    apply Forall_cons in Helems as [[Hne Hc] _].
    destruct (join_sep_head c cs Hne Hc) as [Hj Hr].
    unfold render. apply String.eqb_neq in Hj as ->.
    by rewrite split_join.
Qed.

Lemma is_rooted_app x r : x <> "" -> is_rooted (x +:+ r) = is_rooted x.
Proof. by destruct x. Qed.

Lemma render_rooted rooted cs r :
  good_stack rooted (rev cs) -> is_rooted (render rooted cs +:+ r) = rooted.
Proof.
  intros Hgood. pose proof (good_list_elems _ _ Hgood) as Helems.
  destruct rooted; [done|]. unfold render.
  destruct cs as [|c cs]; [done|].
  apply Forall_cons in Helems as [[Hne Hc] _].
  destruct (join_sep_head c cs Hne Hc) as [Hj Hr].
  apply String.eqb_neq in Hj as Hj'. rewrite Hj'.
  by rewrite is_rooted_app.
Qed.

(** Cleaning a joined path is the same whether or not its front part was
    cleaned first. *)
Lemma Clean_join_l x c :
  x <> "" ->
  filepath_Clean (filepath_Clean x +:+ "/" +:+ c) = filepath_Clean (x +:+ "/" +:+ c).
Proof.
  intros Hx. destruct (Clean_form x) as (cs & Hgood & Hform).
  assert (cs = clean_elems (is_rooted x) [] (split_sep "" x)) as Hcs.
  { rewrite <- (split_render _ _ Hgood), <- Hform.
    unfold filepath_Clean at 1.
    pose proof (split_render (is_rooted x)
                  (clean_elems (is_rooted x) [] (split_sep "" x))) as Hs.
    unfold render in Hs. rewrite Hs; [done|].
    apply clean_elems_good; [|done]. by apply split_sep_nosep. }
  unfold filepath_Clean at 1 3.
  rewrite Hform, render_rooted by done. rewrite is_rooted_app by done.
  rewrite !split_sep_app_sep, !clean_elems_app.
  rewrite split_render by done. by rewrite <- Hcs.
Qed.

Lemma join_sep_nonempty a l : a <> "" -> join_sep (a :: l) <> "".
Proof.
  intros Ha. destruct (join_sep_cons a l) as [rest ->]. by destruct a.
Qed.

(** [filepath.Join(a, b, c)] is [filepath.Join(filepath.Join(a, b), c)]. *)
Lemma filepath_Join_assoc a b c :
  filepath_Join [a; b; c] = filepath_Join [filepath_Join [a; b]; c].
Proof.
  unfold filepath_Join at 1 3. simpl.
  destruct (String.eqb a "") eqn:Ea, (String.eqb b "") eqn:Eb; simpl.
  - unfold filepath_Join. simpl. done.
  - apply String.eqb_neq in Eb.
    unfold filepath_Join. simpl.
    pose proof (filepath_Clean_nonempty b) as Hn.
    apply String.eqb_neq in Hn as ->. simpl.
    destruct (String.eqb c "") eqn:Ec; simpl.
    + by rewrite filepath_Clean_idem.
    + by rewrite Clean_join_l.
  - apply String.eqb_neq in Ea.
    unfold filepath_Join. simpl.
    pose proof (filepath_Clean_nonempty a) as Hn.
    apply String.eqb_neq in Hn as ->. simpl.
    destruct (String.eqb c "") eqn:Ec; simpl.
    + by rewrite filepath_Clean_idem.
    + by rewrite Clean_join_l.
  - apply String.eqb_neq in Ea.
    unfold filepath_Join. simpl.
    pose proof (filepath_Clean_nonempty (a +:+ "/" +:+ b)) as Hn.
    apply String.eqb_neq in Hn as ->. simpl.
    destruct (String.eqb c "") eqn:Ec; simpl.
    + by rewrite filepath_Clean_idem.
    + rewrite Clean_join_l; [by rewrite !string_app_assoc|by destruct a].
Qed.

(** Joining a plain element onto a canonical directory other than the
    root and the working directory is plain concatenation. *)
Lemma filepath_Join_child p x :
  filepath_Clean p = p -> proper p -> plain x ->
  filepath_Join [p; x] = p +:+ "/" +:+ x.
Proof.
  intros (rooted & cs & Hgood & ->)%canonical_form [Hne Himp] Hx.
  destruct cs as [|c0 cs0] eqn:Ecs; [by destruct rooted|]. rewrite <- Ecs in *.
  assert (cs <> []) as Hcs by by rewrite Ecs.
  pose proof (good_list_elems _ _ Hgood) as Helems.
  destruct Hx as (Hx0 & Hx1 & Hx2 & Hxs).
  unfold filepath_Join. simpl.
  apply String.eqb_neq in Hne as ->. apply String.eqb_neq in Hx0 as Hx0'.
  rewrite Hx0'. simpl.
  rewrite <- render_snoc by done.
  apply render_canonical.
  rewrite rev_app_distr. simpl. left. done.
Qed.

Lemma split_sep_plain cur x : has_sep x = false -> split_sep cur x = [cur +:+ x].
Proof.
  intros Hx. rewrite <- (string_app_nil_r x) at 1. by rewrite split_sep_app.
Qed.

Lemma clean_elems_plain rooted out x :
  plain x -> clean_elems rooted out [x] = (rev out ++ [x])%list.
Proof.
  intros (H0 & H1 & H2 & _). simpl.
  apply String.eqb_neq in H0 as ->. apply String.eqb_neq in H1 as ->.
  by apply String.eqb_neq in H2 as ->.
Qed.

(** A path joined from anything and a plain last element is a canonical
    path that ends with that element. *)
Lemma filepath_Join_last p x :
  plain x ->
  exists rooted cs,
    filepath_Join [p; x] = render rooted (cs ++ [x])
    /\ good_stack rooted (rev cs).
Proof.
  intros Hx. pose proof Hx as (H0 & _ & _ & Hs).
  unfold filepath_Join. simpl. apply String.eqb_neq in H0 as ->.
  destruct (String.eqb p "") eqn:Ep; simpl.
  - exists (is_rooted x), []. split; [|done].
    unfold filepath_Clean. rewrite split_sep_plain by done.
    by rewrite app_nil_l, clean_elems_plain.
  - exists (is_rooted p), (clean_elems (is_rooted p) [] (split_sep "" p)).
    split.
    + unfold filepath_Clean. apply String.eqb_neq in Ep.
      rewrite is_rooted_app by done.
      rewrite split_sep_app_sep, clean_elems_app, (split_sep_plain "" x) by done.
      by rewrite app_nil_l, clean_elems_plain, rev_involutive.
    + apply clean_elems_good; [|done]. by apply split_sep_nosep.
Qed.

Lemma filepath_Join_last_proper p x : plain x -> proper (filepath_Join [p; x]).
Proof.
  intros Hx. destruct (filepath_Join_last p x Hx) as (rooted & cs & -> & Hgood).
  pose proof Hx as (H0 & H1 & _ & Hs).
  assert (forall s, (String.length s <= 1)%nat -> x <> s ->
                    join_sep (cs ++ [x]) <> s) as Hlen.
  { intros s Hl Hxs E. destruct cs as [|c cs]; [done|].
    rewrite join_sep_snoc in E by done. apply (f_equal String.length) in E.
    rewrite !string_app_length in E. destruct x; [done|]. simpl in E. lia. }
  assert (join_sep (cs ++ [x]) <> "") as Hne by (apply Hlen; [simpl; lia|done]).
  assert (join_sep (cs ++ [x]) <> ".") as Hdot by (apply Hlen; [simpl; lia|done]).
  assert (join_sep (cs ++ [x]) <> "/") as Hsl.
  { apply Hlen; [simpl; lia|]. by intros ->. }
  unfold proper, is_implicit_dir, render. destruct rooted.
  - split; [done|]. apply orb_false_iff.
    split; apply String.eqb_neq; [|done].
    intros E. by injection E.
  - apply String.eqb_neq in Hne as Hne'. rewrite Hne'.
    split; [done|]. apply orb_false_iff.
    split; by apply String.eqb_neq.
Qed.

Lemma plain_metadata : plain "metadata.json".
Proof. done. Qed.

(** ** Queries *)

Lemma os_ReadDir_fs d w : w_fs (os_ReadDir d w).2 = w_fs w.
Proof.
  unfold os_ReadDir.
  destruct (syscall_fs (read_op (fs_read_dir d)) w) as [->|[a Ha]]; [done|].
  unfold read_op in Ha. destruct (fs_read_dir d (w_fs w)); by simplify_eq.
Qed.

(** X6. The queries are read-only: whatever they return, [List] and
    [Manager.Fetch] leave every path of the tree as it was. *)
Theorem queries_read_only lib m name w :
  w_fs (List lib m w).2 = w_fs w /\ w_fs (Fetch lib m name w).2 = w_fs w.
Proof.
  split; [|apply readMetadata_fs].
  unfold List. rewrite run_bind. unfold ctx_Err.
  destruct (ctx_done w); [done|].
  pose proof (os_ReadDir_fs (pluginDir m) (ctx_tick w)) as H.
  destruct (os_ReadDir _ _) as [[entries|e|] w1]; simpl in H.
  - by rewrite List_entries_fs.
  - by destruct (os_IsNotExist e).
  - done.
Qed.

(** X7. [Manager.Fetch] reads back what [Install] stored: after a
    successful [Install(name, version)], [Fetch(name)] returns whatever
    the decoder makes of the bytes of the stored record, which encode the
    fetched record at the caller's version with status "enabled". *)
Theorem Install_then_Fetch lib m name version w w' :
  Install lib m name version w = (Ok tt, w') ->
  next_fault w' = false ->
  exists fetched info data,
    store_Fetch (store m) name version = Ok fetched
    /\ json_MarshalIndent lib info = Ok data
    /\ Version info = version /\ Status info = "enabled"
    /\ Name info = Name fetched /\ FileName info = FileName fetched
    /\ (Fetch lib m name w').1 = json_Unmarshal lib data.
Proof.
  intros Hrun Hfault.
  destruct (Install_record_written _ _ _ _ _ _ Hrun)
    as (fetched & info & data & pm & Hf & Hm & Hl & Hv & _ & Hs & HN & HF & _).
  exists fetched, info, data. split_and!; try done.
  unfold Fetch, readMetadata. rewrite filepath_Join_assoc, run_bind.
  rewrite os_ReadFile_run by done.
  assert (fs_read_file
            (filepath_Join [filepath_Join [pluginDir m; name]; "metadata.json"])
            (w_fs w') = Ok data) as ->.
  { unfold fs_read_file, fs_stat.
    destruct (filepath_Join_last_proper (filepath_Join [pluginDir m; name])
                "metadata.json" plain_metadata) as [_ ->].
    by rewrite Hl. }
  unfold lift. by destruct (json_Unmarshal lib data).
Qed.

Lemma Install_then_Fetch_witness :
  let lib := sample_lib [installed_record] ([], None) in
  let m := sample_manager (sample_info "tool" "tool.bin" "1.0.0" (CString "hello")) in
  (Fetch lib m "tool" installed_world).1 = Ok installed_record
  /\ exists fetched info data,
    store_Fetch (store m) "tool" "1.0.0" = Ok fetched
    /\ json_MarshalIndent lib info = Ok data
    /\ Version info = "1.0.0" /\ Status info = "enabled"
    /\ Name info = Name fetched /\ FileName info = FileName fetched
    /\ (Fetch lib m "tool" installed_world).1 = json_Unmarshal lib data.
Proof.
  intros lib m. split; [vm_compute; reflexivity|].
  refine (Install_then_Fetch lib m "tool" "1.0.0" (sample_world ∅)
            installed_world _ _).
  - assert (installed_world = (Install lib m "tool" "1.0.0" (sample_world ∅)).2)
      as -> by reflexivity.
    rewrite (surjective_pairing (Install _ _ _ _ _)) at 1. f_equal.
  - reflexivity.
Defined.

(** ** Upgrade: refusals and success *)

(** X8. [Upgrade] refuses without side effects: for a plugin that is not
    installed, for a plugin already at the requested version, and for a
    plugin whose record cannot be read or parsed, [Upgrade] returns the
    corresponding error, and no path of the tree changes (no staging
    directory is made). *)
Theorem Upgrade_refused lib m name version w :
  let pdir := filepath_Join [pluginDir m; name] in
  let run := Upgrade lib m name version w in
  let record := readMetadata lib (filepath_Join [pdir; "metadata.json"]) (ctx_tick w) in
  ctx_done w = false ->
  ((os_Stat pdir (ctx_tick w)).1 = Err (ErrSys ENOENT) ->
     run.1 = Err (ErrMsg ("plugin " +:+ name +:+ " is not installed"))
     /\ w_fs run.2 = w_fs w)
  /\ (forall cur,
        (os_Stat pdir (ctx_tick w)).1 <> Err (ErrSys ENOENT) ->
        record.1 = Ok cur -> Version cur = version ->
        run.1 = Err (ErrMsg ("plugin " +:+ name +:+ " is already at version "
                             +:+ version))
        /\ w_fs run.2 = w_fs w)
  /\ (forall e,
        (os_Stat pdir (ctx_tick w)).1 <> Err (ErrSys ENOENT) ->
        record.1 = Err e ->
        run.1 = Err (ErrWrap "failed to read current plugin metadata" e)
        /\ w_fs run.2 = w_fs w).
Proof.
  intros pdir run record Hctx. subst run.
  rewrite Upgrade_unfold. fold pdir. cbv zeta. rewrite Hctx.
  unfold os_Stat. change (w_fs (ctx_tick w)) with (w_fs w).
  pose proof (readMetadata_fs lib (filepath_Join [pdir; "metadata.json"])
                (ctx_tick w)) as Hfs.
  fold record in Hfs. change (w_fs (ctx_tick w)) with (w_fs w) in Hfs.
  assert ((match fs_stat (w_fs w) pdir with
           | Some n => (Ok n, ctx_tick w)
           | None => (Err (ErrSys (lookup_errno (w_fs w) pdir)), ctx_tick w)
           end).1 <> Err (ErrSys ENOENT) ->
          forall A (x y : A),
            match fs_stat (w_fs w) pdir, lookup_errno (w_fs w) pdir with
            | None, ENOENT => x
            | _, _ => y
            end = y) as Hsel.
  { intros Hstat A x y. destruct (fs_stat (w_fs w) pdir); [done|]. simpl in Hstat.
    by destruct (lookup_errno (w_fs w) pdir). }
  split_and!.
  - destruct (fs_stat (w_fs w) pdir); [done|]. simpl.
    by intros [= ->].
  - intros cur Hstat Hrec Hv. rewrite (Hsel Hstat). unfold wrap. fold record.
    destruct record as [[c|e|] w1]; simpl in *; [|done..].
    injection Hrec as ->. apply String.eqb_eq in Hv as ->. done.
  - intros e Hstat Hrec. rewrite (Hsel Hstat). unfold wrap. fold record.
    destruct record as [[c|e0|] w1]; simpl in *; [done| |done].
    by injection Hrec as ->.
Qed.

Lemma Upgrade_refused_witness :
  let lib := sample_lib [installed_record] ([], None) in
  let m := sample_manager (sample_info "tool" "tool.bin" "1.0.0" (CString "hello")) in
  (Upgrade lib m "tool" "1.0.0" (sample_world ∅)).1
    = Err (ErrMsg "plugin tool is not installed")
  /\ (Upgrade lib m "tool" "1.0.0" installed_world).1
     = Err (ErrMsg "plugin tool is already at version 1.0.0")
  /\ w_fs (Upgrade lib m "tool" "1.0.0" installed_world).2 = w_fs installed_world.
Proof.
  intros lib m. split.
  - refine (proj1 (proj1 (Upgrade_refused lib m "tool" "1.0.0" (sample_world ∅) _) _)).
    + reflexivity.
    + reflexivity.
  - refine (proj1 (proj2 (Upgrade_refused lib m "tool" "1.0.0" installed_world _))
              installed_record _ _ _).
    + reflexivity.
    + vm_compute. discriminate.
    + vm_compute. reflexivity.
    + reflexivity.
Defined.


Lemma fs_rename_Ok_proper src dst fs fs' :
  fs_rename src dst fs = Ok fs' -> proper src /\ proper dst.
Proof.
  unfold fs_rename, proper.
  destruct (String.eqb src "" || String.eqb dst "") eqn:E1; [done|].
  destruct (is_implicit_dir src || is_implicit_dir dst) eqn:E2; [done|].
  apply orb_false_iff in E1 as [?%String.eqb_neq ?%String.eqb_neq].
  apply orb_false_iff in E2 as [? ?]. done.
Qed.



Lemma sibling_suffix_backup : sibling_suffix ".backup".
Proof. by exists "."%char, "backup". Qed.


Lemma suffix_ne p suf : suf <> "" -> p <> p +:+ suf.
Proof.
  intros Hs E. apply (f_equal String.length) in E.
  rewrite string_app_length in E. destruct suf; [done|]. simpl in E. lia.
Qed.






Lemma Filter_scan_elem V l a : a ∈ Filter_scan V l <-> a ∈ l /\ a ∈ V.
Proof.
  induction l as [|b l IH]; simpl.
  - split; [by intros ?%elem_of_nil|by intros [?%elem_of_nil _]].
  - destruct (bool_decide (b ∈ V)) eqn:E.
    + apply bool_decide_eq_true in E. rewrite !elem_of_cons, IH.
      split; [intros [->|[? ?]]; auto|intros [[->|?] ?]; auto].
    + apply bool_decide_eq_false in E. rewrite elem_of_cons, IH.
      split; [intros [? ?]; auto|intros [[->|?] ?]; [done|auto]].
Qed.

Lemma Filter_scan_sublist V l : sublist (Filter_scan V l) l.
Proof.
  induction l as [|b l IH]; simpl; [constructor|].
  destruct (bool_decide (b ∈ V)); by constructor.
Qed.

Lemma Filter_extensions_list :
  forall ext, (exists kind, kind ∈ map_to_list Filter_extensions /\ ext ∈ kind.2)
              <-> ext ∈ Filter_endings.
Proof.
  intros ext. split.
  - intros ([k l] & Hk & He). apply elem_of_map_to_list in Hk. simpl in He.
    unfold Filter_extensions in Hk.
    repeat (apply lookup_insert_Some in Hk as [[_ <-]|[_ Hk]];
            [apply list_elem_of_In in He; apply list_elem_of_In; simpl in *; tauto|]).
    done.
  - intros He. apply list_elem_of_In in He. simpl in He.
    assert (ext ∈ [""; ".exe"] \/ ext ∈ [".zip"; ".tar.gz"; ".tgz"]
            \/ ext ∈ [".wasm"; ".wasm.zip"; ".wasm.tar.gz"; ".wasm.tgz"])
      as [H|[H|H]].
    { rewrite !list_elem_of_In. simpl. tauto. }
    + exists ("native", [""; ".exe"]). split; [|done].
      by apply elem_of_map_to_list.
    + exists ("archive", [".zip"; ".tar.gz"; ".tgz"]). split; [|done].
      by apply elem_of_map_to_list.
    + exists ("wasm", [".wasm"; ".wasm.zip"; ".wasm.tar.gz"; ".wasm.tgz"]).
      split; [|done]. by apply elem_of_map_to_list.
Qed.

Lemma Filter_validAssets_elem patterns a :
  a ∈ Filter_validAssets patterns
  <-> exists pattern ext,
        pattern ∈ patterns /\ ext ∈ Filter_endings /\ a = pattern +:+ ext.
Proof.
  unfold Filter_validAssets.
  assert (forall pattern exts (acc : gset string),
            a ∈ foldl (fun valid ext => {[pattern +:+ ext]} ∪ valid) acc exts
            <-> a ∈ acc \/ exists ext, ext ∈ exts /\ a = pattern +:+ ext) as Hin.
  { intros pattern exts. induction exts as [|e exts IH]; intros acc; simpl.
    - split; [auto|]. intros [?|(? & ?%elem_of_nil & _)]; done.
    - rewrite IH, elem_of_union, elem_of_singleton. split.
      + intros [[->|?]|(ext & ? & ->)]; [right|left|right]; try done.
        * exists e. split; [left|done].
        * exists ext. split; [by right|done].
      + intros [?|(ext & [->|?]%elem_of_cons & ->)]; eauto. }
  assert (forall pattern kinds (acc : gset string),
            a ∈ foldl (fun valid (kind : string * list string) =>
                         foldl (fun valid ext => {[pattern +:+ ext]} ∪ valid)
                               valid kind.2) acc kinds
            <-> a ∈ acc \/ exists kind ext,
                  kind ∈ kinds /\ ext ∈ kind.2 /\ a = pattern +:+ ext) as Hmid.
  { intros pattern kinds. induction kinds as [|k kinds IH]; intros acc; simpl.
    - split; [auto|]. intros [?|(? & ? & ?%elem_of_nil & _)]; done.
    - rewrite IH, Hin. split.
      + intros [[?|(ext & ? & ->)]|(kind & ext & ? & ? & ->)]; [by left|right..].
        * exists k, ext. split; [left|done].
        * exists kind, ext. split; [by right|done].
      + intros [?|(kind & ext & [->|?]%elem_of_cons & ? & ->)]; eauto 10. }
  assert (forall ps (acc : gset string),
            a ∈ foldl (fun valid pattern =>
                         foldl (fun valid (kind : string * list string) =>
                                  foldl (fun valid ext => {[pattern +:+ ext]} ∪ valid)
                                        valid kind.2)
                               valid (map_to_list Filter_extensions)) acc ps
            <-> a ∈ acc \/ exists pattern ext,
                  pattern ∈ ps /\ ext ∈ Filter_endings /\ a = pattern +:+ ext)
    as Hout.
  { induction ps as [|p ps IH]; intros acc; simpl.
    - split; [auto|]. intros [?|(? & ? & ?%elem_of_nil & _)]; done.
    - rewrite IH, Hmid. split.
      + intros [[?|(kind & ext & ? & ? & ->)]|(pattern & ext & ? & ? & ->)];
          [by left|right..].
        * exists p, ext. split; [left|]. split; [|done].
          apply Filter_extensions_list. eauto.
        * exists pattern, ext. split; [by right|done].
      + intros [?|(pattern & ext & [->|?]%elem_of_cons & He & ->)]; eauto 10.
        apply Filter_extensions_list in He as (kind & ? & ?).
        left. right. eauto. }
  rewrite Hout. split; [|auto]. intros [?%elem_of_empty|?]; done.
Qed.

Lemma Filter_patterns_elem prefix name version p :
  p ∈ Filter_patterns prefix name version
  <-> p = prefix +:+ "-" +:+ name
      \/ p = prefix +:+ "-" +:+ name +:+ "-v" +:+ version
      \/ exists os arch, os ∈ Filter_oses /\ arch ∈ Filter_arches
            /\ p = prefix +:+ "-" +:+ name +:+ "-v" +:+ version
                    +:+ "-" +:+ os +:+ "-" +:+ arch.
Proof.
  unfold Filter_patterns. rewrite elem_of_app, !elem_of_cons, list_elem_of_bind.
  split.
  - intros [[->|[->|?%elem_of_nil]]|(os & Hb & Hos)];
      [by left|by right; left|done|].
    apply list_elem_of_bind in Hb as (arch & ->%list_elem_of_singleton & Harch).
    right; right. eauto.
  - intros [->|[->|(os & arch & Hos & Harch & ->)]]; [by left; left|by left; right; left|].
    right. exists os. split; [|done].
    apply list_elem_of_bind. exists arch. split; [|done].
    by apply list_elem_of_singleton.
Qed.

Lemma app_assoc3 a b c d : (a +:+ b +:+ c) +:+ d = a +:+ b +:+ c +:+ d.
Proof. by rewrite !string_app_assoc. Qed.

(** X10. [Filter] returns the given names that are exact artifact names of
    the plugin, in their order: a name is kept exactly when it is in the
    list and is [prefix-name], [prefix-name-v<version>] or
    [prefix-name-v<version>-<os>-<arch>] for one of three operating systems
    and four architectures, followed by one of nine endings.  In
    particular every name it returns starts with [prefix-name]. *)
Theorem Filter_exact_names prefix name version assets :
  sublist (Filter prefix name version assets) assets
  /\ (forall a, a ∈ Filter prefix name version assets
                <-> a ∈ assets /\ Filter_accepts prefix name version a)
  /\ (forall a, a ∈ Filter prefix name version assets ->
                strings_HasPrefix a (prefix +:+ "-" +:+ name) = true).
Proof.
  assert (forall a, a ∈ Filter prefix name version assets
                    <-> a ∈ assets /\ Filter_accepts prefix name version a) as Hspec.
  { intros a. unfold Filter. rewrite Filter_scan_elem, Filter_validAssets_elem.
    unfold Filter_accepts. split.
    - intros (Ha & p & ext & Hp & He & ->). split; [done|]. exists ext.
      split; [done|]. apply Filter_patterns_elem in Hp
        as [->|[->|(os & arch & Hos & Harch & ->)]].
      + left. by rewrite !string_app_assoc.
      + right; left. by rewrite !string_app_assoc.
      + right; right. exists os, arch. by rewrite !string_app_assoc.
    - intros (Ha & ext & He & H). split; [done|].
      destruct H as [->|[->|(os & arch & Hos & Harch & ->)]].
      + exists (prefix +:+ "-" +:+ name), ext.
        split; [apply Filter_patterns_elem; by left|].
        split; [done|]. by rewrite !string_app_assoc.
      + exists (prefix +:+ "-" +:+ name +:+ "-v" +:+ version), ext.
        split; [apply Filter_patterns_elem; by right; left|].
        split; [done|]. by rewrite !string_app_assoc.
      + exists (prefix +:+ "-" +:+ name +:+ "-v" +:+ version
                +:+ "-" +:+ os +:+ "-" +:+ arch), ext.
        split; [apply Filter_patterns_elem; right; right; eauto|].
        split; [done|]. by rewrite !string_app_assoc. }
  split; [apply Filter_scan_sublist|]. split; [exact Hspec|].
  intros a (_ & ext & _ & H)%Hspec.
  destruct H as [->|[->|(os & arch & _ & _ & ->)]];
    rewrite <- app_assoc3; apply HasPrefix_app.
Qed.

Lemma glob_free_app a b : glob_free (a +:+ b) = glob_free a && glob_free b.
Proof.
  induction a as [|c a IH]; [done|]. rewrite app_cons. simpl.
  by rewrite IH, andb_assoc.
Qed.

Lemma glob_parse_literal p fuel :
  glob_free p = true -> (String.length p < fuel)%nat ->
  exists ts, glob_parse fuel p = Some ts
             /\ forall s, glob_match_toks ts s = String.eqb p s.
Proof.
  revert fuel. induction p as [|c p IH]; intros fuel Hfree Hlen.
  - destruct fuel; [simpl in Hlen; lia|]. exists []. split; [done|].
    intros s. simpl. by destruct s.
  - destruct fuel; [simpl in Hlen; lia|]. simpl in Hfree, Hlen.
    apply andb_true_iff in Hfree as [Hc Hp].
    apply negb_true_iff in Hc.
    apply orb_false_iff in Hc as [Hc H4].
    apply orb_false_iff in Hc as [Hc H3].
    apply orb_false_iff in Hc as [H1 H2].
    destruct (IH fuel Hp) as (ts & Hts & Hm); [lia|].
    exists (GLit c :: ts). split.
    + simpl. by rewrite H1, H2, H3, H4, Hts.
    + intros [|d s]; simpl; [done|]. by rewrite Hm.
Qed.

(** A pattern without metacharacters matches its own text only. *)
Lemma filepath_Match_literal p a :
  glob_free p = true -> filepath_Match p a = String.eqb p a.
Proof.
  intros Hp. unfold filepath_Match.
  destruct (glob_parse_literal p (S (String.length p)) Hp) as (ts & -> & Hm); [lia|].
  apply Hm.
Qed.

Lemma scan_assets_literal pattern ext valid :
  glob_free (pattern +:+ ext) = true ->
  scan_assets filepath_Match pattern ext valid
  = if bool_decide (pattern +:+ ext ∈ valid)
    then Some (pattern +:+ ext, asset_runtime ext) else None.
Proof.
  intros Hfree. induction valid as [|a l IH]; cbn [scan_assets].
  - rewrite bool_decide_eq_false_2; [done|]. by intros ?%elem_of_nil.
  - rewrite filepath_Match_literal by done.
    destruct (String.eqb (pattern +:+ ext) a) eqn:E.
    + apply String.eqb_eq in E as <-.
      rewrite bool_decide_eq_true_2; [done|]. by left.
    + apply String.eqb_neq in E. rewrite IH.
      destruct (bool_decide (pattern +:+ ext ∈ l)) eqn:El.
      * apply bool_decide_eq_true in El.
        rewrite bool_decide_eq_true_2; [done|]. by right.
      * apply bool_decide_eq_false in El.
        rewrite bool_decide_eq_false_2; [done|].
        by intros [?|?]%elem_of_cons.
Qed.

Lemma scan_extensions_literal pattern exts valid :
  Forall (fun e => glob_free (pattern +:+ e) = true) exts ->
  scan_extensions filepath_Match pattern exts valid
  = List.find (fun c : string * string => bool_decide (c.1 ∈ valid))
              (e ← exts; [(pattern +:+ e, asset_runtime e)]).
Proof.
  induction 1 as [|e l He Hl IH]; [done|]. cbn [scan_extensions mbind list_bind foldr app].
  rewrite scan_assets_literal by done.
  change ((e :: l) ≫= (fun e0 => [(pattern +:+ e0, asset_runtime e0)]))
    with ((pattern +:+ e, asset_runtime e)
          :: (l ≫= (fun e0 => [(pattern +:+ e0, asset_runtime e0)]))).
  cbn [List.find fst].
  by destruct (bool_decide (pattern +:+ e ∈ valid)).
Qed.

Lemma scan_patterns_literal patterns exts valid :
  Forall (fun p => Forall (fun e => glob_free (p +:+ e) = true) exts) patterns ->
  scan_patterns filepath_Match patterns exts valid
  = List.find (fun c : string * string => bool_decide (c.1 ∈ valid))
              (p ← patterns; e ← exts; [(p +:+ e, asset_runtime e)]).
Proof.
  induction 1 as [|p l Hp Hl IH]; [done|]. cbn [scan_patterns].
  change ((p :: l) ≫= (fun p0 => e ← exts; [(p0 +:+ e, asset_runtime e)]))
    with ((e ← exts; [(p +:+ e, asset_runtime e)])
          ++ (l ≫= (fun p0 => e ← exts; [(p0 +:+ e, asset_runtime e)])))%list.
  rewrite find_app_first, scan_extensions_literal by done.
  by destruct (List.find _ (e ← exts; [(p +:+ e, asset_runtime e)])).
Qed.

(** X11. For a plugin whose name, version and platform contain no
    [filepath.Match] metacharacter, [FindAsset] is a lookup of exact
    names: it returns the first name, in the order [name-version-os-arch],
    [name-version], [name], each with the endings in their order, that
    occurs among the assets that pass the filter, with runtime "wasm" for
    the ending [.wasm] and "exec" otherwise. *)
Theorem FindAsset_exact_names prefix name version goos arch assets :
  glob_free name = true -> glob_free version = true ->
  glob_free goos = true -> glob_free arch = true ->
  FindAsset filepath_Match prefix name version goos arch assets
  = if (length (valid_assets name assets) =? 0)%nat then
      Err (ErrMsg ("no valid assets found for " +:+ prefix +:+ "-" +:+ name))
    else
      match List.find (fun c : string * string =>
                         bool_decide (c.1 ∈ valid_assets name assets))
                      (exact_candidates name version goos arch) with
      | Some c => Ok c
      | None => Err (ErrMsg "no matching assets found")
      end.
Proof.
  intros Hn Hv Ho Ha. unfold FindAsset, exact_candidates.
  destruct (length (valid_assets name assets) =? 0)%nat; [done|].
  rewrite scan_patterns_literal; [done|].
  unfold asset_patterns, asset_extensions.
  repeat constructor; rewrite ?glob_free_app, ?Hn, ?Hv, ?Ho, ?Ha; done.
Qed.

Lemma FindAsset_exact_names_witness :
  FindAsset filepath_Match "dashboard" "tool" "1.0.0" "linux" "amd64"
    ["tool-1.0.0.wasm"; "tool.exe"; "tool-1.0.0-linux-amd64.sig"; "other"]
  = Ok ("tool-1.0.0.wasm", "wasm").
Proof.
  rewrite (FindAsset_exact_names "dashboard" "tool" "1.0.0" "linux" "amd64").
  - vm_compute. reflexivity.
  - reflexivity.
  - reflexivity.
  - reflexivity.
  - reflexivity.
Defined.

(** ** The GitHub store *)

(** X12. [Setup] needs a non-empty string under both "topic" and "prefix",
    and it is not atomic: when the topic is fine and the prefix is not,
    the call fails but the store keeps the new topic. *)
Theorem GitHubStore_Setup_cases s config :
  let out := GitHubStore_Setup s config in
  let topic := config_string config "topic" in
  let prefix := config_string config "prefix" in
  (topic.2 = false \/ topic.1 = "" ->
     out = (Err (ErrMsg "topic is required"), s))
  /\ (topic.2 = true -> topic.1 <> "" -> prefix.2 = false \/ prefix.1 = "" ->
      out = (Err (ErrMsg "prefix is required"),
             {| store_topic := topic.1; store_prefix := store_prefix s |}))
  /\ (topic.2 = true -> topic.1 <> "" -> prefix.2 = true -> prefix.1 <> "" ->
      out = (Ok tt, {| store_topic := topic.1; store_prefix := prefix.1 |})).
Proof.
  intros out topic prefix. subst out. unfold GitHubStore_Setup.
  fold topic. fold prefix.
  destruct topic as [t okt], prefix as [p okp]. simpl.
  split_and!.
  - intros [->| ->]; [done|]. by rewrite orb_true_r.
  - intros -> Ht%String.eqb_neq. rewrite Ht. simpl.
    intros [->| ->]; [done|]. by rewrite orb_true_r.
  - intros -> Ht%String.eqb_neq -> Hp%String.eqb_neq. by rewrite Ht, Hp.
Qed.

Lemma GitHubStore_Setup_cases_witness :
  GitHubStore_Setup NewGitHubStore {["topic" := CfgString "dashboard-plugin"]}
  = (Err (ErrMsg "prefix is required"),
     {| store_topic := "dashboard-plugin"; store_prefix := "" |})
  /\ GitHubStore_Setup NewGitHubStore
       (<["topic" := CfgString "dashboard-plugin"]>
          {["prefix" := CfgString "dashboard"]})
     = (Ok tt, {| store_topic := "dashboard-plugin"; store_prefix := "dashboard" |})
  /\ GitHubStore_Setup NewGitHubStore {["prefix" := CfgOther]}
     = (Err (ErrMsg "topic is required"), NewGitHubStore).
Proof.
  split_and!.
  - refine (proj1 (proj2 (GitHubStore_Setup_cases NewGitHubStore
                            {["topic" := CfgString "dashboard-plugin"]})) _ _ _).
    + reflexivity.
    + discriminate.
    + left. reflexivity.
  - refine (proj2 (proj2 (GitHubStore_Setup_cases NewGitHubStore
                            (<["topic" := CfgString "dashboard-plugin"]>
                               {["prefix" := CfgString "dashboard"]}))) _ _ _ _).
    + reflexivity.
    + discriminate.
    + reflexivity.
    + discriminate.
  - refine (proj1 (GitHubStore_Setup_cases NewGitHubStore
                     {["prefix" := CfgOther]}) _).
    left. reflexivity.
Defined.

Lemma scan_assets_runtime Match pattern ext valid a rt :
  scan_assets Match pattern ext valid = Some (a, rt) -> rt = "exec" \/ rt = "wasm".
Proof.
  induction valid as [|b l IH]; simpl; [done|].
  destruct (Match _ b); [|done]. intros [= _ <-].
  unfold asset_runtime. destruct (strings_Contains ext "wasm"); auto.
Qed.

Lemma scan_extensions_runtime Match pattern exts valid a rt :
  scan_extensions Match pattern exts valid = Some (a, rt) ->
  rt = "exec" \/ rt = "wasm".
Proof.
  induction exts as [|e es IH]; cbn [scan_extensions]; [done|].
  destruct (scan_assets Match pattern e valid) as [[a' rt']|] eqn:Ea; [|done].
  intros [= -> ->]. by eapply scan_assets_runtime.
Qed.

Lemma scan_patterns_runtime Match patterns exts valid a rt :
  scan_patterns Match patterns exts valid = Some (a, rt) ->
  rt = "exec" \/ rt = "wasm".
Proof.
  induction patterns as [|p ps IH]; cbn [scan_patterns]; [done|].
  destruct (scan_extensions Match p exts valid) as [[a' rt']|] eqn:Ee; [|done].
  intros [= -> ->]. by eapply scan_extensions_runtime.
Qed.

Lemma FindAsset_Ok_elem Match prefix name version goos arch assets a rt :
  FindAsset Match prefix name version goos arch assets = Ok (a, rt) ->
  a ∈ assets /\ (rt = "exec" \/ rt = "wasm").
Proof.
  unfold FindAsset. destruct (length _ =? 0)%nat; [done|].
  destruct (scan_patterns _ _ _ _) as [[a' rt']|] eqn:E; [|done].
  intros [= -> ->]. split.
  - by apply scan_patterns_elem, valid_assets_elem in E as [Hin _].
  - by eapply scan_patterns_runtime.
Qed.

Lemma Fetch_download_bytes client owner repoName matched assets c :
  matched ∈ asset_Name <$> assets ->
  Fetch_download client owner repoName matched assets = Ok c ->
  exists data, c = CBytes data.
Proof.
  induction assets as [|a l IH]; simpl; [by intros ?%elem_of_nil|].
  intros Hin. destruct (String.eqb (asset_Name a) matched) eqn:E.
  - destruct (Repositories_DownloadReleaseAsset _ _ _ _) as [rc|e|]; [|done..].
    destruct (io_ReadAll rc) as [data|e|]; [|done..].
    intros [= <-]. eauto.
  - apply String.eqb_neq in E. apply elem_of_cons in Hin as [->|Hin]; [done|].
    by apply IH.
Qed.

(** [Fetch] never fills in the file name. *)
Lemma GitHubStore_Fetch_FileName s client goos goarch name version info :
  GitHubStore_Fetch s client goos goarch name version = Ok info ->
  FileName info = "".
Proof.
  unfold GitHubStore_Fetch.
  destruct (Fetch_names _ _) as [[owner repoName]|e|]; [|done..].
  destruct (Repositories_Get _ _ _) as [repo|e|]; [|done..].
  set (reply := if _ : bool then _ else _).
  destruct (reply_err reply.1); [done|].
  destruct (reply_value reply.1) as [release|].
  - destruct (FindAsset _ _ _ _ _ _ _) as [[matched rt]|e|]; [|done..].
    destruct (Fetch_download _ _ _ _ _) as [c|e|]; [|done..].
    by intros [= <-].
  - set (contents := Repositories_DownloadContents client owner repoName _).
    destruct (reply_err contents); [done|].
    destruct (reply_status contents) as [status|]; [|done].
    destruct (status =? 200)%Z; [|done].
    destruct (reply_value contents) as [rc|]; [|done].
    destruct (io_ReadAll rc) as [data|e|]; [|done..].
    by intros [= <-].
Qed.

(** X13. The record of a successful [Fetch]: it is named after the
    repository, carries the bytes of the downloaded asset, no file name
    and no status, the store "github", a runtime of "exec" or "wasm" and
    exactly the owner, star count and URL of the repository as metadata;
    its version is the tag of the release (or "main"), not the version
    that was asked for. *)
Theorem GitHubStore_Fetch_record s client goos goarch name version info :
  GitHubStore_Fetch s client goos goarch name version = Ok info ->
  exists owner repoName repo data,
    Fetch_names (store_prefix s) name = Ok (owner, repoName)
    /\ Repositories_Get client owner repoName = Ok repo
    /\ Name info = repo_Name repo
    /\ Description info = repo_Description repo
    /\ FileName info = ""
    /\ Store info = "github"
    /\ Status info = ""
    /\ (Runtime info = "exec" \/ Runtime info = "wasm")
    /\ Metadata info = github_metadata repo
    /\ Content info = CBytes data
    /\ (Version info = "main"
        \/ exists reply release,
             (reply = Repositories_GetLatestRelease client owner repoName
              \/ reply = Repositories_GetReleaseByTag client owner repoName version)
             /\ reply_value reply = Some release
             /\ Version info = release_TagName release).
Proof.
  unfold GitHubStore_Fetch.
  destruct (Fetch_names _ _) as [[owner repoName]|e|] eqn:Hnames; [|done..].
  destruct (Repositories_Get _ _ _) as [repo|e|] eqn:Hget; [|done..].
  set (reply := if _ : bool then _ else _).
  assert (reply.1 = Repositories_GetLatestRelease client owner repoName
          \/ reply.1 = Repositories_GetReleaseByTag client owner repoName version)
    as Hreply by (subst reply; destruct (_ || _); auto).
  destruct (reply_err reply.1); [done|].
  destruct (reply_value reply.1) as [release|] eqn:Hrel.
  - destruct (FindAsset _ _ _ _ _ _ _) as [[matched rt]|e|] eqn:Hfind; [|done..].
    destruct (FindAsset_Ok_elem _ _ _ _ _ _ _ _ _ Hfind) as [Hin Hrt].
    destruct (Fetch_download _ _ _ _ _) as [c|e|] eqn:Hdl; [|done..].
    destruct (Fetch_download_bytes _ _ _ _ _ _ Hin Hdl) as [data ->].
    intros [= <-]. exists owner, repoName, repo, data. simpl.
    split_and!; try done. right. exists reply.1, release. done.
  - set (contents := Repositories_DownloadContents client owner repoName _).
    destruct (reply_err contents); [done|].
    destruct (reply_status contents) as [status|]; [|done].
    destruct (status =? 200)%Z; [|done].
    destruct (reply_value contents) as [rc|]; [|done].
    destruct (io_ReadAll rc) as [data|e|]; [|done..].
    intros [= <-]. exists owner, repoName, repo, data. simpl.
    split_and!; try done; auto.
Qed.


(** X14. Nothing installs from the GitHub store.  Its records never carry
    a file name, so with this store neither [Install] nor [Upgrade] ever
    returns success, whatever the client answers. *)
Theorem GitHubStore_never_installs lib dir s client goos goarch name version w :
  let m := {| pluginDir := dir; store := GitHubStore_store s client goos goarch |} in
  (Install lib m name version w).1 <> Ok tt
  /\ (Upgrade lib m name version w).1 <> Ok tt.
Proof.
  intros m. apply never_written. intros fetched Hf dir' w1 info w2.
  apply writePluginFiles_no_FileName.
  simpl in Hf. by apply GitHubStore_Fetch_FileName in Hf.
Qed.

(** ** Names *)

Lemma split_sep_nonempty cur s : split_sep cur s <> [].
Proof.
  revert cur. induction s as [|c s IH]; intros cur; simpl; [done|].
  destruct (Ascii.eqb c Separator); [done|apply IH].
Qed.

Lemma join_split cur s : join_sep (split_sep cur s) = cur +:+ s.
Proof.
  revert cur. induction s as [|c s IH]; intros cur; simpl.
  - by rewrite string_app_nil_r.
  - destruct (Ascii.eqb c Separator) eqn:E.
    + apply Ascii.eqb_eq in E as ->.
      pose proof (split_sep_nonempty "" s) as Hne.
      pose proof (IH "") as Hj.
      destruct (split_sep "" s) as [|x l]; [done|].
      change (join_sep (cur :: x :: l)) with (cur +:+ "/" +:+ join_sep (x :: l)).
      by rewrite Hj.
    + rewrite IH. by rewrite string_app_assoc.
Qed.

Lemma strings_Split_two name a b :
  strings_Split name = [a; b]
  <-> name = a +:+ "/" +:+ b /\ has_sep a = false /\ has_sep b = false.
Proof.
  unfold strings_Split. split.
  - intros H. pose proof (join_split "" name) as Hj. rewrite H in Hj.
    pose proof (split_sep_nosep "" name eq_refl) as Hs. rewrite H in Hs.
    apply Forall_cons in Hs as [Ha Hs]. apply Forall_cons in Hs as [Hb _].
    rewrite app_nil_l in Hj. done.
  - intros (-> & Ha & Hb).
    rewrite split_sep_app_sep, !split_sep_plain by done. done.
Qed.

Lemma cut_sep_app a b : has_sep a = false -> cut_sep (a +:+ "/" +:+ b) = Some (a, b).
Proof.
  induction a as [|c a IH]; [done|]. cbn [has_sep].
  intros [Hc Ha]%orb_false_iff. rewrite app_cons. cbn [cut_sep].
  by rewrite Hc, IH.
Qed.

Lemma has_sep_HasPrefix r p :
  strings_HasPrefix r p = true -> has_sep r = false -> has_sep p = false.
Proof.
  intros [rest ->]%HasPrefix_inv. rewrite has_sep_app.
  by intros [? _]%orb_false_iff.
Qed.

Lemma prefix_of_slashed p a b rest :
  has_sep p = false -> a +:+ "/" +:+ b = p +:+ rest ->
  exists o, a = p +:+ o /\ rest = o +:+ "/" +:+ b.
Proof.
  revert a. induction p as [|c p IH]; intros a Hp E.
  - exists a. by rewrite app_nil_l in E.
  - simpl in Hp. apply orb_false_iff in Hp as [Hc Hp].
    destruct a as [|c' a].
    + rewrite app_nil_l, !app_cons in E. injection E as <- _. done.
    + rewrite !app_cons in E. injection E as -> E.
      destruct (IH a Hp E) as (o & -> & ->). exists o. by rewrite app_cons.
Qed.

Lemma HasPrefix_app_l s p r :
  strings_HasPrefix s p = true -> strings_HasPrefix (s +:+ r) p = true.
Proof.
  intros [rest ->]%HasPrefix_inv. rewrite string_app_assoc. apply HasPrefix_app.
Qed.

Lemma strings_TrimPrefix_app p r : strings_TrimPrefix (p +:+ r) p = r.
Proof. unfold strings_TrimPrefix. by rewrite HasPrefix_app, string_drop_app. Qed.

(** The owner and repository of a two-part name whose second part starts
    with the prefix. *)
Lemma Fetch_names_two prefix o r :
  has_sep o = false -> has_sep r = false ->
  strings_HasPrefix r prefix = true ->
  Fetch_names prefix (o +:+ "/" +:+ r) = Ok (strings_TrimPrefix o prefix, r).
Proof.
  intros Ho Hr Hp. unfold Fetch_names.
  rewrite (proj2 (strings_Split_two _ o r)) by done.
  rewrite Hp. cbn [negb]. cbv iota.
  pose proof (has_sep_HasPrefix _ _ Hp Hr) as Hps.
  unfold strings_SplitN2.
  destruct (strings_HasPrefix (o +:+ "/" +:+ r) prefix) eqn:E.
  - pose proof E as [rest Hrest]%HasPrefix_inv.
    destruct (prefix_of_slashed _ _ _ _ Hps Hrest) as (o' & -> & ->).
    rewrite has_sep_app in Ho. apply orb_false_iff in Ho as [_ Ho'].
    rewrite string_app_assoc, !strings_TrimPrefix_app.
    by rewrite cut_sep_app.
  - unfold strings_TrimPrefix at 1. rewrite E.
    rewrite cut_sep_app by done.
    unfold strings_TrimPrefix.
    destruct (strings_HasPrefix o prefix) eqn:Eo; [|done].
    by rewrite (HasPrefix_app_l _ _ _ Eo) in E.
Qed.

(** X15. The name checks of [Fetch].  A name is accepted exactly when it is
    [<owner>/<repo>] with one separator and [repo] starts with the store's
    prefix; the repository asked of GitHub is then [repo] as written,
    prefix included, and the owner is the first part with the prefix
    removed from its front if it has it there.  The third check of the
    code can never fail. *)
Theorem GitHubStore_Fetch_names prefix name :
  (forall owner repoName,
      Fetch_names prefix name = Ok (owner, repoName)
      <-> exists o,
            name = o +:+ "/" +:+ repoName
            /\ has_sep o = false /\ has_sep repoName = false
            /\ strings_HasPrefix repoName prefix = true
            /\ owner = strings_TrimPrefix o prefix)
  /\ Fetch_names prefix name
     <> Err (ErrMsg ("invalid plugin name format, expected " +:+ prefix
                     +:+ "<owner>/<repo>")).
Proof.
  assert (Fetch_names prefix name = Err (ErrMsg "plugin name must be in format 'owner/name'")
          \/ Fetch_names prefix name
             = Err (ErrMsg ("plugin name must have second part starting with "
                            +:+ prefix))
          \/ exists o r, name = o +:+ "/" +:+ r /\ has_sep o = false
               /\ has_sep r = false /\ strings_HasPrefix r prefix = true) as Hcases.
  { unfold Fetch_names.
    destruct (strings_Split name) as [|o [|r [|x l]]] eqn:E; try by left.
    apply strings_Split_two in E as (-> & Ho & Hr).
    destruct (strings_HasPrefix r prefix) eqn:Hp; [|by right; left].
    right; right. eauto 10. }
  split.
  - intros owner repoName. split.
    + intros H. destruct Hcases as [E|[E|(o & r & -> & Ho & Hr & Hp)]];
        [by rewrite E in H..|].
      rewrite Fetch_names_two in H by done. injection H as <- <-. eauto 10.
    + intros (o & -> & Ho & Hr & Hp & ->). by apply Fetch_names_two.
  - destruct Hcases as [E|[E|(o & r & -> & Ho & Hr & Hp)]].
    + rewrite E. intros [= H]; by rewrite ?app_cons in H.
    + rewrite E. intros [= H]; by rewrite ?app_cons in H.
    + by rewrite Fetch_names_two.
Qed.

Lemma GitHubStore_Fetch_record_witness :
  let fetched := GitHubStore_Fetch sample_github sample_client "linux" "amd64"
                   "acme/dashboard-tool" "latest" in
  exists info,
    fetched = Ok info
    /\ Name info = "dashboard-tool" /\ FileName info = ""
    /\ Version info = "1.0.0" /\ Content info = CBytes "binary"
    /\ Metadata info !! "stars" = Some "42".
Proof.
  intros fetched.
  assert (exists info, fetched = Ok info) as [info Hinfo]
    by (vm_compute; eauto).
  exists info. split; [exact Hinfo|].
  destruct (GitHubStore_Fetch_record _ _ _ _ _ _ _ Hinfo)
    as (owner & repoName & repo & data & Hn & Hg & HN & _ & HF & _).
  split.
  { vm_compute in Hinfo. injection Hinfo as <-. reflexivity. }
  split; [exact HF|].
  vm_compute in Hinfo. injection Hinfo as <-.
  split; [reflexivity|]. split; [reflexivity|].
  vm_compute. reflexivity.
Defined.

Lemma Search_repositories_Ok s client repos acc plugins :
  Search_repositories s client repos acc = Ok plugins ->
  exists added,
    plugins = (acc ++ added)%list
    /\ sublist (Name <$> added) (repo_Name <$> repos)
    /\ Forall (fun info =>
         exists repo release,
           repo ∈ repos
           /\ reply_err (Repositories_GetLatestRelease client
                           (repo_OwnerLogin repo) (repo_Name repo)) = None
           /\ reply_value (Repositories_GetLatestRelease client
                             (repo_OwnerLogin repo) (repo_Name repo)) = Some release
           /\ Name info = repo_Name repo
           /\ Version info = release_TagName release
           /\ Description info = repo_Description repo
           /\ Metadata info = github_metadata repo
           /\ Store info = "github" /\ FileName info = "" /\ Status info = ""
           /\ (Runtime info = "exec" \/ Runtime info = "wasm")) added.
Proof.
  revert acc. induction repos as [|repo rest IH]; intros acc; simpl.
  - intros [= <-]. exists []. rewrite app_nil_r. split; [done|].
    split; constructor.
  - destruct (reply_err _) as [e|] eqn:Herr.
    + destruct (reply_status _); [|done].
      intros (added & -> & Hsub & Hall)%IH. exists added.
      split; [done|]. split; [by apply sublist_cons|].
      eapply Forall_impl; [exact Hall|]. simpl.
      intros info (r & rel & Hin & H). exists r, rel. split; [by right|done].
    + destruct (reply_value _) as [release|] eqn:Hval; [|done].
      intros (added & -> & Hsub & Hall)%IH.
      eexists (_ :: added). rewrite <- app_assoc. split; [done|].
      split; [by apply sublist_skip|].
      constructor.
      * exists repo, release. simpl. split; [by left|].
        split_and!; try done.
        destruct (existsb _ _); auto.
      * eapply Forall_impl; [exact Hall|]. simpl.
        intros info (r & rel & Hin & H). exists r, rel. split; [by right|done].
Qed.

(** X16. [Search] lists the repositories of the topic that have a latest
    release, in the order GitHub returned them: one record per such
    repository, named after it, at the release's tag, with the store
    "github", a runtime of "exec" or "wasm", the repository's owner, stars
    and URL as metadata, and no file name or status.  A repository whose
    release lookup answers with an error is left out.  An unconfigured
    store (empty topic) does not search. *)
Theorem GitHubStore_Search_results s client criteria plugins :
  GitHubStore_Search s client criteria = Ok plugins ->
  store_topic s <> ""
  /\ exists repos,
       Search_Repositories client ("topic:" +:+ store_topic s +:+ " fork:false")
         = Ok repos
       /\ sublist (Name <$> plugins) (repo_Name <$> repos)
       /\ Forall (fun info =>
            exists repo release,
              repo ∈ repos
              /\ reply_err (Repositories_GetLatestRelease client
                              (repo_OwnerLogin repo) (repo_Name repo)) = None
              /\ reply_value (Repositories_GetLatestRelease client
                                (repo_OwnerLogin repo) (repo_Name repo))
                 = Some release
              /\ Name info = repo_Name repo
              /\ Version info = release_TagName release
              /\ Description info = repo_Description repo
              /\ Metadata info = github_metadata repo
              /\ Store info = "github" /\ FileName info = "" /\ Status info = ""
              /\ (Runtime info = "exec" \/ Runtime info = "wasm")) plugins.
Proof.
  unfold GitHubStore_Search.
  destruct (String.eqb (store_topic s) "") eqn:Ht; [done|].
  apply String.eqb_neq in Ht.
  destruct (Search_Repositories client _) as [repos|e|] eqn:Hs; [|done..].
  intros (added & -> & Hsub & Hall)%Search_repositories_Ok.
  split; [done|]. exists repos. done.
Qed.

Lemma GitHubStore_Search_results_witness :
  let found := GitHubStore_Search sample_github sample_client ∅ in
  exists info,
    found = Ok [info]
    /\ Name info = "dashboard-tool" /\ Version info = "1.0.0"
    /\ Runtime info = "wasm" /\ Store info = "github".
Proof.
  intros found.
  assert (exists info, found = Ok [info]) as [info Hinfo] by (vm_compute; eauto).
  exists info. split; [exact Hinfo|].
  destruct (GitHubStore_Search_results _ _ _ _ Hinfo)
    as (_ & repos & _ & _ & Hall).
  apply Forall_cons in Hall as [(repo & release & _ & _ & _ & _ & _ & _ & _ & Hst & _) _].
  vm_compute in Hinfo. injection Hinfo as <-.
  split; [reflexivity|]. split; [reflexivity|]. split; [reflexivity|exact Hst].
Defined.

(** X17. The native executor does not find the plugin file.  After a
    successful [Install] of a record named like the plugin, the path the
    native executor runs, [<pluginDir>/<name>/<name>], is the
    plugin-specific directory that [writePluginFiles] made, not a file. *)
Theorem Execute_path_is_directory lib m name version w w' fetched :
  Install lib m name version w = (Ok tt, w') ->
  store_Fetch (store m) name version = Ok fetched ->
  Name fetched = name ->
  fs_stat (w_fs w') (Execute_pluginPath (pluginDir m) name) = Some NDir.
Proof.
  intros (f & w1 & info & w2 & Hf & Hw & Hg)%Install_Ok_inv Hfetch HN.
  rewrite Hfetch in Hf. injection Hf as <-.
  apply writePluginFiles_Ok_dir in Hw. rewrite HN in Hw.
  unfold Execute_pluginPath. rewrite filepath_Join_assoc.
  by eapply grows_dir.
Qed.

Lemma Execute_path_is_directory_witness :
  fs_stat (w_fs installed_world) (Execute_pluginPath "/plugins" "tool") = Some NDir
  /\ w_fs installed_world !! "/plugins/tool/tool/tool.bin"
     = Some (NFile "hello" perm_0755).
Proof.
  split; [|vm_compute; reflexivity].
  refine (Execute_path_is_directory (sample_lib [] ([], None))
            (sample_manager (sample_info "tool" "tool.bin" "1.0.0" (CString "hello")))
            "tool" "1.0.0" (sample_world ∅) installed_world _ _ _ _).
  - unfold installed_world.
    rewrite (surjective_pairing (Install _ _ _ _ _)) at 1. f_equal.
  - reflexivity.
  - reflexivity.
Defined.

(** ** Listing what was installed *)

Lemma strings_Contains_sep n : strings_Contains n "/" = has_sep n.
Proof.
  induction n as [|c n IH]; [done|].
  change (strings_Contains (String c n) "/")
    with (Ascii.eqb "/" c && true || strings_Contains n "/").
  cbn [has_sep]. rewrite IH, andb_true_r. f_equal; apply Ascii.eqb_sym.
Qed.

Lemma strip_prefix_app p r : strip_prefix p (p +:+ r) = Some r.
Proof.
  induction p as [|c p IH]; [done|]. rewrite app_cons. simpl.
  by rewrite Ascii.eqb_refl.
Qed.

Lemma child_name_child d x :
  proper d -> plain x -> child_name d (d +:+ "/" +:+ x) = Some x.
Proof.
  intros [Hne Himp] (Hx & _ & _ & Hs). unfold child_name.
  assert (String.eqb (d +:+ "/" +:+ x) d = false) as ->.
  { apply String.eqb_neq. intros E. apply (f_equal String.length) in E.
    rewrite !string_app_length in E. simpl in E. lia. }
  unfold is_implicit_dir in Himp. apply orb_false_iff in Himp as [Hroot Hdot].
  rewrite Hdot. unfold dir_prefix. rewrite Hroot.
  rewrite <- string_app_assoc, strip_prefix_app.
  apply String.eqb_neq in Hx as ->. by rewrite strings_Contains_sep, Hs.
Qed.

Lemma fs_read_dir_child d x fs entries :
  proper d -> plain x ->
  fs !! (d +:+ "/" +:+ x) = Some NDir ->
  fs_read_dir d fs = Ok entries ->
  {| de_Name := x; de_IsDir := true |} ∈ entries.
Proof.
  intros Hd Hx Hk. unfold fs_read_dir.
  destruct (fs_stat fs d) as [[]|]; [done| |done].
  intros [= <-]. rewrite merge_sort_Permutation.
  apply list_elem_of_omap. exists (d +:+ "/" +:+ x, NDir). split.
  - by apply elem_of_map_to_list.
  - simpl. by rewrite child_name_child.
Qed.

Lemma os_ReadFile_Ok p w data w' :
  os_ReadFile p w = (Ok data, w') ->
  fs_read_file p (w_fs w) = Ok data /\ w_fs w' = w_fs w.
Proof.
  intros H. pose proof (os_ReadFile_fs p w) as Hfs. rewrite H in Hfs.
  split; [|done]. unfold os_ReadFile in H.
  apply syscall_Ok in H as (_ & Hop & _). unfold read_op in Hop.
  destruct (fs_read_file p (w_fs w)); by simplify_eq.
Qed.

Lemma os_ReadFile_Err p w e w' data :
  os_ReadFile p w = (Err e, w') ->
  fs_read_file p (w_fs w) = Ok data -> os_IsNotExist e = false.
Proof.
  unfold os_ReadFile, syscall. intros H Hread.
  destruct (next_fault w); [by injection H as <- _|].
  unfold read_op in H. rewrite Hread in H. done.
Qed.

(** Every subdirectory whose record reads is in a successful listing. *)
Lemma List_entries_Ok_elem lib root entries acc w l w' e data :
  List_entries lib root entries acc w = (Ok l, w') ->
  e ∈ entries -> de_IsDir e = true ->
  fs_read_file (filepath_Join [root; de_Name e; "metadata.json"]) (w_fs w) = Ok data ->
  exists i, json_Unmarshal lib data = Ok i /\ i ∈ l.
Proof.
  assert (forall entries acc w l w',
            List_entries lib root entries acc w = (Ok l, w') ->
            forall i, i ∈ acc -> i ∈ l) as Hacc.
  { clear. intros entries. induction entries as [|e0 rest IH]; intros acc w l w'; simpl.
    - by intros [= <- _].
    - destruct (de_IsDir e0); simpl; [|apply IH].
      destruct (os_ReadFile _ w) as [[d|er|] w1]; [| |done].
      + destruct (json_Unmarshal lib d) as [i0|er|]; [|done..].
        intros H i Hi. eapply IH; [done|]. apply elem_of_app. by left.
      + destruct (os_IsNotExist er); [apply IH|done]. }
  revert acc w. induction entries as [|e0 rest IH]; intros acc w Hrun Hin Hdir Hread.
  { by apply elem_of_nil in Hin. }
  simpl in Hrun.
  apply elem_of_cons in Hin as [->|Hin].
  - rewrite Hdir in Hrun. simpl in Hrun.
    destruct (os_ReadFile _ w) as [[d|er|] w1] eqn:Hrf; [| |done].
    + apply os_ReadFile_Ok in Hrf as [Hd _]. rewrite Hread in Hd.
      injection Hd as <-.
      destruct (json_Unmarshal lib data) as [i|er|]; [|done..].
      exists i. split; [done|]. eapply Hacc; [done|].
      apply elem_of_app. right. by left.
    + rewrite (os_ReadFile_Err _ _ _ _ _ Hrf Hread) in Hrun. done.
  - destruct (de_IsDir e0); simpl in Hrun; [|by eapply IH].
    destruct (os_ReadFile _ w) as [[d|er|] w1] eqn:Hrf; [| |done].
    + destruct (json_Unmarshal lib d) as [i0|er|]; [|done..].
      apply os_ReadFile_Ok in Hrf as [_ Hfs].
      eapply IH; [done..|]. by rewrite Hfs.
    + destruct (os_IsNotExist er); [|done].
      assert (w_fs w1 = w_fs w) as Hfs.
      { pose proof (os_ReadFile_fs
                      (filepath_Join [root; de_Name e0; "metadata.json"]) w) as H.
        by rewrite Hrf in H. }
      eapply IH; [done..|]. by rewrite Hfs.
Qed.

Lemma mkdir_chain_parents p k :
  k ∈ rev (sep_prefixes "" p) -> k <> p.
Proof.
  intros Hk. assert (k ∈ mkdir_chain p) as Hc by (unfold mkdir_chain; by right).
  apply list_elem_of_In, in_rev, list_elem_of_In, sep_prefixes_elem in Hk as [r Hr].
  rewrite app_nil_l in Hr. intros ->. apply (f_equal String.length) in Hr.
  rewrite !string_app_length in Hr. simpl in Hr. lia.
Qed.

(** Making a directory that was not there leaves its parent a directory. *)
Lemma fs_mkdir_all_parent p fs fs' :
  fs_mkdir_all (mkdir_chain p) fs = Ok fs' ->
  fs_stat fs p = None ->
  fs_stat fs' (path_parent p) = Some NDir.
Proof.
  unfold mkdir_chain. simpl. intros H Hnone. rewrite Hnone in H.
  destruct (fs_mkdir_all (rev (sep_prefixes "" p)) fs) as [fs1|e|] eqn:E1; [|done..].
  assert (fs_stat fs1 p = None) as Hnone1.
  { unfold fs_stat in *. destruct (is_implicit_dir p); [done|].
    destruct (fs_mkdir_all_frame _ _ _ E1 p) as [->|(_ & _ & Hin)]; [done|].
    by apply mkdir_chain_parents in Hin. }
  destruct (fs_mkdir p fs1) as [fs2|e|] eqn:E2.
  - injection H as <-. unfold fs_mkdir in E2.
    destruct (String.eqb p ""); [done|]. rewrite Hnone1 in E2.
    destruct (fs_stat fs1 (path_parent p)) as [[]|] eqn:Ep; [done| |done].
    injection E2 as <-. unfold fs_stat in *.
    destruct (is_implicit_dir (path_parent p)); [done|].
    destruct (decide (path_parent p = p)) as [->|Hne].
    + by rewrite lookup_insert_eq.
    + by rewrite lookup_insert_ne.
  - by rewrite Hnone1 in H.
  - done.
Qed.

Lemma path_parent_child d x :
  d <> "" -> has_sep x = false -> path_parent (d +:+ "/" +:+ x) = d.
Proof.
  intros Hd Hx. unfold path_parent. rewrite before_last_sep_snoc by done.
  by apply String.eqb_neq in Hd as ->.
Qed.

(** X18. What [Install] stores, [List] reports.  With a canonical plugin
    root other than the file-system root and the working directory, and a
    plugin name that is a single path element: after a successful
    [Install(name, version)], every [List] that succeeds contains the
    record the decoder reads from the bytes [Install] stored, which encode
    the fetched record at the caller's version with status "enabled". *)
Theorem Install_then_List lib m name version w w' l w'' :
  Install lib m name version w = (Ok tt, w') ->
  filepath_Clean (pluginDir m) = pluginDir m -> proper (pluginDir m) ->
  plain name ->
  List lib m w' = (Ok l, w'') ->
  exists fetched info data i,
    store_Fetch (store m) name version = Ok fetched
    /\ json_MarshalIndent lib info = Ok data
    /\ Version info = version /\ Status info = "enabled"
    /\ Name info = Name fetched
    /\ json_Unmarshal lib data = Ok i
    /\ i ∈ l.
Proof.
  intros Hrun Hcanon Hroot Hname Hlist.
  destruct (Install_record_written _ _ _ _ _ _ Hrun)
    as (fetched & info & data & pm & Hf & Hm & Hl & Hv & _ & Hs & HN & _).
  destruct (Install_Ok_mkdir _ _ _ _ _ _ Hrun) as (_ & Hnew & fs1 & Hmk & Hg).
  cbv zeta in Hnew, Hmk.
  rewrite (filepath_Join_child (pluginDir m) name) in Hl, Hnew, Hmk by done.
  set (pdir := pluginDir m +:+ "/" +:+ name) in *.
  assert (fs_stat (w_fs w') (pluginDir m) = Some NDir) as Hrootdir.
  { eapply grows_dir; [exact Hg|].
    rewrite <- (path_parent_child (pluginDir m) name);
      [by apply (fs_mkdir_all_parent _ (w_fs w))|by destruct Hroot
      |by destruct Hname as (_&_&_&?)]. }
  assert (w_fs w' !! pdir = Some NDir) as Hpdir.
  { apply fs_mkdir_all_dir in Hmk. apply (grows_dir _ _ _ Hg) in Hmk.
    unfold fs_stat in Hmk, Hnew.
    destruct (is_implicit_dir pdir); done. }
  unfold List in Hlist. rewrite run_bind in Hlist. unfold ctx_Err in Hlist.
  destruct (ctx_done w'); [done|].
  destruct (os_ReadDir (pluginDir m) (ctx_tick w')) as [[entries|e|] w1] eqn:Hrd;
    [| |done].
  - assert (fs_read_dir (pluginDir m) (w_fs w') = Ok entries /\ w_fs w1 = w_fs w')
      as [Hdir Hfs1].
    { pose proof (os_ReadDir_fs (pluginDir m) (ctx_tick w')) as Hfs.
      rewrite Hrd in Hfs. split; [|done].
      unfold os_ReadDir in Hrd. apply syscall_Ok in Hrd as (_ & Hop & _).
      unfold read_op in Hop. change (w_fs (ctx_tick w')) with (w_fs w') in Hop.
      destruct (fs_read_dir (pluginDir m) (w_fs w')); by simplify_eq. }
    pose proof (fs_read_dir_child _ _ _ _ Hroot Hname Hpdir Hdir) as Hentry.
    destruct (List_entries_Ok_elem _ _ _ _ _ _ _ _ data Hlist Hentry eq_refl)
      as (i & Hi & Hin).
    { simpl. rewrite filepath_Join_assoc, (filepath_Join_child _ name) by done.
      fold pdir. rewrite Hfs1. unfold fs_read_file, fs_stat.
      destruct (filepath_Join_last_proper pdir "metadata.json" plain_metadata)
        as [_ ->].
      by rewrite Hl. }
    exists fetched, info, data, i. done.
  - exfalso. unfold os_ReadDir, syscall in Hrd.
    destruct (next_fault (ctx_tick w')).
    + injection Hrd as <- <-. done.
    + unfold read_op, fs_read_dir in Hrd.
      change (w_fs (ctx_tick w')) with (w_fs w') in Hrd.
      rewrite Hrootdir in Hrd. done.
Qed.

Lemma Install_then_List_witness :
  let lib := sample_lib [installed_record] ([], None) in
  let m := sample_manager (sample_info "tool" "tool.bin" "1.0.0" (CString "hello")) in
  (List lib m installed_world).1 = Ok [installed_record]
  /\ exists fetched info data i,
    store_Fetch (store m) "tool" "1.0.0" = Ok fetched
    /\ json_MarshalIndent lib info = Ok data
    /\ Version info = "1.0.0" /\ Status info = "enabled"
    /\ Name info = Name fetched
    /\ json_Unmarshal lib data = Ok i
    /\ i ∈ [installed_record].
Proof.
  intros lib m.
  assert ((List lib m installed_world).1 = Ok [installed_record]) as H1
    by (vm_compute; reflexivity).
  split; [exact H1|].
  refine (Install_then_List lib m "tool" "1.0.0" (sample_world ∅) installed_world
            [installed_record] (List lib m installed_world).2 _ _ _ _ _).
  - vm_compute. reflexivity.
  - reflexivity.
  - split; [discriminate|reflexivity].
  - repeat split; discriminate.
  - rewrite (surjective_pairing (List lib m installed_world)). by rewrite H1.
Defined.



Lemma fs_has_children_intro d k n fs :
  fs !! k = Some n -> inside d k = true -> k <> d -> fs_has_children d fs = true.
Proof.
  intros Hk Hin Hne. unfold fs_has_children. apply existsb_exists.
  exists (k, n). split.
  - apply list_elem_of_In. by apply elem_of_map_to_list.
  - simpl. rewrite Hin. by apply String.eqb_neq in Hne as ->.
Qed.

Lemma fs_rename_onto_nonempty src dst fs fs' :
  src <> dst -> fs !! dst = Some NDir -> fs_has_children dst fs = true ->
  fs_rename src dst fs <> Ok fs'.
Proof.
  intros Hne Hdst Hch. unfold fs_rename.
  destruct (String.eqb src "" || String.eqb dst ""); [done|].
  destruct (is_implicit_dir src || is_implicit_dir dst); [done|].
  destruct (fs !! src) as [sn|] eqn:Hsrc; [|done].
  apply String.eqb_neq in Hne as ->.
  destruct (inside src dst); [done|].
  destruct (inside dst src); [by destruct sn|].
  destruct (fs_stat fs (path_parent dst)) as [[]|]; [done| |done].
  rewrite Hdst, Hch. by destruct sn.
Qed.

Lemma fs_grows_Upgrade_stage lib m name version tmpDir cur :
  evolves fs_grows (Upgrade_stage lib m name version tmpDir cur).
Proof.
  apply evolves_Upgrade_stage; unfold fs_grows; intros; simpl;
    eauto using grows_refl, grows_trans, grows_mkdir_all, grows_open_create,
                grows_write_at.
Qed.

Lemma grows_present fs fs' k n :
  grows fs fs' -> fs !! k = Some n -> exists n', fs' !! k = Some n'.
Proof.
  intros Hg Hk. specialize (Hg k). rewrite Hk in Hg.
  destruct n; [destruct Hg as (d & pm & ->)|]; eauto.
Qed.

(** X20. A leftover backup blocks upgrades.  [Upgrade] moves the live
    directory onto [<pluginRoot>/<name>.backup] without clearing it first:
    when that directory exists and is not empty (left by an upgrade whose
    restore failed, say), no [Upgrade] of the plugin returns success. *)
Theorem stale_backup_blocks_Upgrade lib m name version w k n :
  let backup := filepath_Join [pluginDir m; name] +:+ ".backup" in
  w_fs w !! backup = Some NDir ->
  w_fs w !! k = Some n -> inside backup k = true -> k <> backup ->
  (Upgrade lib m name version w).1 <> Ok tt.
Proof.
  intros backup Hb Hk Hin Hne.
  destruct (Upgrade lib m name version w) as [r w'] eqn:Hrun. simpl. intros ->.
  apply Upgrade_Ok_inv in Hrun
    as (cur & w1 & ws & wa & wb & Hadm & Hst & Hbak & _).
  fold backup in Hbak.
  assert (grows (w_fs w) (w_fs ws)) as Hg.
  { destruct Hadm as (_ & _ & Hread & _).
    pose proof (readMetadata_fs lib
                  (filepath_Join [filepath_Join [pluginDir m; name]; "metadata.json"])
                  (ctx_tick w)) as Hfs.
    rewrite Hread in Hfs. change (w_fs (ctx_tick w)) with (w_fs w) in Hfs.
    simpl in Hfs. rewrite <- Hfs.
    pose proof (fs_grows_Upgrade_stage lib m name version
                  (filepath_Join [pluginDir m; name] +:+ ".upgrade") cur w1) as H.
    by rewrite Hst in H. }
  apply os_Rename_Ok in Hbak. revert Hbak.
  apply fs_rename_onto_nonempty.
  - by apply suffix_ne.
  - pose proof (Hg backup) as H. by rewrite Hb in H.
  - destruct (grows_present _ _ _ _ Hg Hk) as [n' Hk'].
    by eapply fs_has_children_intro.
Qed.

Lemma stale_backup_blocks_Upgrade_witness :
  let lib := sample_lib [installed_record] ([], None) in
  let m := sample_manager (sample_info "tool" "tool.bin" "2.0.0" (CString "hello, again")) in
  let w := set_fs (<["/plugins/tool.backup/metadata.json" := NFile "{}" perm_0644]>
                     (<["/plugins/tool.backup" := NDir]> (w_fs installed_world)))
                  installed_world in
  (Upgrade lib m "tool" "2.0.0" w).1
    = Err (ErrWrap "failed to backup existing plugin" (ErrSys ENOTEMPTY))
  /\ (Upgrade lib m "tool" "2.0.0" w).1 <> Ok tt.
Proof.
  intros lib m w. split; [vm_compute; reflexivity|].
  refine (stale_backup_blocks_Upgrade lib m "tool" "2.0.0" w
            "/plugins/tool.backup/metadata.json" (NFile "{}" perm_0644) _ _ _ _).
  - vm_compute. reflexivity.
  - vm_compute. reflexivity.
  - reflexivity.
  - discriminate.
Defined.

Lemma fs_move_lookup_src src dst fs k :
  proper src -> proper dst ->
  inside src k = true -> inside dst k = false ->
  fs_move src dst fs !! k = None.
Proof.
  intros Hsrc Hdst Hks Hkd. unfold fs_move.
  rewrite lookup_union.
  assert ((list_to_map
             ((fun kv : string * node => (reroot src dst kv.1, kv.2))
                <$> map_to_list
                      (filter (fun kv : string * node => inside src kv.1 = true) fs))
           : gmap string node) !! k = None) as ->.
  { apply not_elem_of_list_to_map_1. intros Hin.
    apply list_elem_of_fmap in Hin as ([k1 v1] & Hk & Hin). simpl in Hk.
    apply list_elem_of_fmap in Hin as ([k0 v0] & [= -> ->] & Hin).
    apply elem_of_map_to_list, map_lookup_filter_Some in Hin as [_ Hi].
    simpl in Hi, Hk.
    apply inside_proper_form in Hi as (r1 & -> & Hr1); [|done].
    rewrite reroot_app in Hk. subst k.
    by rewrite inside_form_proper in Hkd. }
  rewrite (left_id None _).
  apply map_lookup_filter_None. right. intros v _ [H _]. simpl in H. congruence.
Qed.

Lemma upgrade_outside_backup p r :
  proper (p +:+ ".upgrade") ->
  inside (p +:+ ".upgrade") ((p +:+ ".backup") +:+ r) = false.
Proof.
  intros Hb. destruct (inside _ _) eqn:E; [exfalso|done].
  apply inside_proper_form in E as (r2 & E & _); [|done].
  rewrite !string_app_assoc in E. apply string_app_inv_head in E. done.
Qed.

(** X21. When the restore fails too, the plugin is stranded in the backup.
    For a plugin whose live directory is a proper directory and whose
    fetched record keeps the staging inside the staging directory: if the
    staging and the first rename complete and both the second rename and
    the restore of the backup fail, [Upgrade] returns the second rename's
    error, nothing is left at or below the live directory
    [<pluginRoot>/<name>], and [<pluginRoot>/<name>.backup] holds, path
    for path, what the live directory held before the call. *)
Theorem Upgrade_restore_failure lib m name version w cur w1 ws wa e wb e' wc :
  let pdir := filepath_Join [pluginDir m; name] in
  Upgrade_past_checks lib m name version w cur w1 ->
  proper pdir ->
  (forall fetched, store_Fetch (store m) name version = Ok fetched ->
                   staged_under (pdir +:+ ".upgrade") fetched) ->
  Upgrade_stage lib m name version (pdir +:+ ".upgrade") cur w1 = (Ok tt, ws) ->
  os_Rename pdir (pdir +:+ ".backup") ws = (Ok tt, wa) ->
  os_Rename (pdir +:+ ".upgrade") pdir wa = (Err e, wb) ->
  os_Rename (pdir +:+ ".backup") pdir wb = (Err e', wc) ->
  let run := Upgrade lib m name version w in
  run.1 = Err (ErrWrap "failed to install upgrade" e)
  /\ (forall k, inside pdir k = true -> w_fs run.2 !! k = None)
  /\ (forall r, r = "" \/ (exists r', r = "/" +:+ r') ->
                w_fs run.2 !! ((pdir +:+ ".backup") +:+ r) = w_fs w !! (pdir +:+ r)).
Proof.
  intros pdir Hadm Hd Hrec Hst Hbak Hmv Hrs run. subst run.
  assert (filepath_Clean pdir = pdir) as Hcanon.
  { destruct (filepath_Join_canonical [pluginDir m; name]) as [E|E]; [|done].
    by destruct Hd. }
  assert (w_fs w1 = w_fs w) as Hw1.
  { destruct Hadm as (_ & _ & Hread & _).
    pose proof (readMetadata_fs lib
                  (filepath_Join [pdir; "metadata.json"]) (ctx_tick w)) as H.
    fold pdir in Hread. rewrite Hread in H. done. }
  pose proof (preserves_Upgrade_stage lib m name version pdir cur Hd Hcanon Hrec w1)
    as Hstage.
  rewrite Hst in Hstage. simpl in Hstage.
  rewrite (Upgrade_past_checks_run _ _ _ _ _ _ _ Hadm). fold pdir.
  unfold Upgrade_steps, defer_RemoveAll. rewrite run_bind, Hst.
  unfold Upgrade_swap. rewrite run_bind. unfold wrap. rewrite Hbak, Hmv, Hrs.
  cbn [fst snd].
  assert (w_fs wb = w_fs wa) as Hwb by (by eapply syscall_failed_fs).
  assert (w_fs wc = w_fs wb) as Hwc by (by eapply syscall_failed_fs).
  apply os_Rename_Ok in Hbak.
  destruct (fs_rename_Ok_proper _ _ _ _ Hbak) as [_ Hb].
  apply fs_rename_Ok in Hbak; [|by apply suffix_ne].
  destruct (upgrade_dir_proper pdir ".upgrade") as [Hune Huimp]; [simpl; lia|].
  assert (forall k, w_fs (os_RemoveAll (pdir +:+ ".upgrade") wc).2 !! k
                    = if inside (pdir +:+ ".upgrade") k then None else w_fs wa !! k)
    as Hfinal.
  { intros k. unfold os_RemoveAll. apply String.eqb_neq in Hune as ->.
    assert (String.eqb (pdir +:+ ".upgrade") "." = false) as ->.
    { unfold is_implicit_dir in Huimp. by apply orb_false_iff in Huimp as [_ ?]. }
    simpl. by rewrite fs_remove_all_lookup, Hwc, Hwb. }
  split; [done|]. split.
  - intros k Hk. rewrite Hfinal.
    destruct (inside (pdir +:+ ".upgrade") k); [done|].
    rewrite Hbak. apply fs_move_lookup_src; [done..|].
    apply sibling_disjoint; [done..|apply sibling_suffix_backup|done].
  - intros r Hr. rewrite Hfinal, upgrade_outside_backup by done.
    rewrite Hbak, fs_move_lookup_dst by done.
    rewrite Hstage by by apply inside_form_proper. by rewrite Hw1.
Qed.

Lemma Upgrade_restore_failure_witness :
  let lib := sample_lib [installed_record] ([], None) in
  let m := sample_manager (sample_info "tool" "tool.bin" "2.0.0" (CString "hello, again")) in
  let w := restore_fails in
  let run := Upgrade lib m "tool" "2.0.0" w in
  let pdir := filepath_Join [pluginDir m; "tool"] in
  w_fs w !! "/plugins/tool/tool/tool.bin" = Some (NFile "hello" perm_0755)
  /\ run.1 = Err (ErrWrap "failed to install upgrade" (ErrSys EIO))
  /\ (forall k, inside pdir k = true -> w_fs run.2 !! k = None)
  /\ (forall r, r = "" \/ (exists r', r = "/" +:+ r') ->
                w_fs run.2 !! ((pdir +:+ ".backup") +:+ r) = w_fs w !! (pdir +:+ r)).
Proof.
  intros lib m w run pdir. split; [vm_compute; reflexivity|].
  set (w1 := (readMetadata lib (filepath_Join [pdir; "metadata.json"])
                (ctx_tick w)).2).
  set (ws := (Upgrade_stage lib m "tool" "2.0.0" (pdir +:+ ".upgrade")
                installed_record w1).2).
  set (wa := (os_Rename pdir (pdir +:+ ".backup") ws).2).
  set (wb := (os_Rename (pdir +:+ ".upgrade") pdir wa).2).
  set (wc := (os_Rename (pdir +:+ ".backup") pdir wb).2).
  refine (Upgrade_restore_failure lib m "tool" "2.0.0" w installed_record w1
            ws wa (ErrSys EIO) wb (ErrSys EIO) wc _ _ _ _ _ _ _).
  - unfold Upgrade_past_checks. split_and!.
    + reflexivity.
    + vm_compute. discriminate.
    + vm_compute. reflexivity.
    + vm_compute. discriminate.
  - split; [vm_compute; discriminate|reflexivity].
  - intros fetched [= <-]. split; vm_compute; reflexivity.
  - vm_compute. reflexivity.
  - vm_compute. reflexivity.
  - vm_compute. reflexivity.
  - vm_compute. reflexivity.
Defined.
